(** * Map-Reduce tweet analytics: a shallow embedding and its properties

    The development follows the Python sources of the repository:
    - [analyse-sentiment.py]  (module [Sentiment]),
    - [hastag-tendance.py]    (module [Hashtag]),
    - [distribution-geo.py]   (module [Geo]),
    - [mapper.py], [reducer.py] (module [Streaming]),
    with the strings, dates and containers of Python they use in the
    modules [Str], [Datetime] and [Data], and the definitions that only
    the statements need in the module [Reference].  The mapper and the
    reducer classes of [analyse-sentiment.py] and the reducer class of
    [distribution-geo.py] are the modules [SentimentMapper],
    [SentimentReducer] and [GeographicReducer]; the module [Dict] has
    the dictionaries in insertion order that they fill, and the module
    [Reference2] what only the statements about them need.

    Conventions of the embedding.
    - A Python [str] is a [string]; the character classes used by
      [str.strip], [str.lower] and the [re] module are those of the
      ASCII range (code points above 127 are neither letters, digits
      nor white space here).
    - A Python [float] is an exact rational of [Q], so the rounding of
      binary floating point is not modelled; [int] is [Z].  The one
      comparison of floats that decides what the program lists, the
      test of the regional specialties, is also stated with rounded
      operations ([Reference.rounded_test]).
    - The strings that [print] writes are kept one for each call; the
      lines that a reader of this output gets are
      [Reference2.readlines] of [Reference2.written], and statements
      about lines assume fields without line break.
    - A [dict] that is only looked up is a [gmap]; a [dict] or [Counter]
      whose iteration order is observable is an association list in
      insertion order.
    - A missing JSON field is [None]. *)

From Stdlib Require Import ZArith QArith Qround Qabs String Ascii List Lia Lqa Sorting.Sorted.
From Stdlib Require Import DecimalString DecimalZ DecimalPos.
From stdpp Require Import base option list strings gmap sorting.

Local Open Scope Z_scope.
Local Open Scope list_scope.

(** ** Python strings *)

Module Str.

Definition code (c : ascii) : N := N_of_ascii c.

Definition in_range (lo hi : N) (c : ascii) : bool :=
  (N.leb lo (code c) && N.leb (code c) hi)%bool.

(** [str.isspace] on one character. *)
Definition isspace (c : ascii) : bool :=
  (in_range 9 13 c || in_range 28 32 c)%bool.

Definition isupper (c : ascii) : bool := in_range 65 90 c.
Definition islower (c : ascii) : bool := in_range 97 122 c.
Definition isalpha (c : ascii) : bool := (isupper c || islower c)%bool.
Definition isdigit (c : ascii) : bool := in_range 48 57 c.

(** The class [\w] of the [re] module. *)
Definition isword (c : ascii) : bool :=
  (isalpha c || isdigit c || N.eqb (code c) 95)%bool.

Definition lower_char (c : ascii) : ascii :=
  if isupper c then ascii_of_N (code c + 32) else c.

Definition upper_char (c : ascii) : ascii :=
  if islower c then ascii_of_N (code c - 32) else c.

(** [s.lower()] *)
Fixpoint lower (s : string) : string :=
  match s with
  | EmptyString => EmptyString
  | String c r => String (lower_char c) (lower r)
  end.

(** [s.lstrip()] *)
Fixpoint lstrip (s : string) : string :=
  match s with
  | EmptyString => EmptyString
  | String c r => if isspace c then lstrip r else s
  end.

(** [s.rstrip()] *)
Fixpoint rstrip (s : string) : string :=
  match s with
  | EmptyString => EmptyString
  | String c r =>
      match rstrip r with
      | EmptyString => if isspace c then EmptyString else String c EmptyString
      | r' => String c r'
      end
  end.

(** [s.strip()] *)
Definition strip (s : string) : string := rstrip (lstrip s).

(** [not s] for a string. *)
Definition is_empty (s : string) : bool :=
  match s with EmptyString => true | _ => false end.

(** [s.startswith(c)] for a one-character prefix. *)
Definition starts_with_char (c : ascii) (s : string) : bool :=
  match s with
  | String d _ => bool_decide (d = c)
  | EmptyString => false
  end.

(** [s[1:]] *)
Definition tail (s : string) : string :=
  match s with String _ r => r | EmptyString => EmptyString end.

(** [s[:n]] *)
Fixpoint take (n : nat) (s : string) : string :=
  match n, s with
  | S k, String c r => String c (take k r)
  | _, _ => EmptyString
  end.

(** [s.startswith(p)] *)
Fixpoint prefix (p s : string) : bool :=
  match p, s with
  | EmptyString, _ => true
  | String a p', String b s' => bool_decide (a = b) && prefix p' s'
  | String _ _, EmptyString => false
  end.

(** [p in s] *)
Fixpoint contains (p s : string) : bool :=
  prefix p s ||
  match s with
  | EmptyString => false
  | String _ r => contains p r
  end.

(** [re.findall(r'\b\w+\b', s)]: the maximal runs of word characters,
    from left to right; [cur] is the run being read. *)
Fixpoint findall_words_from (cur : string) (s : string) : list string :=
  match s with
  | EmptyString => if is_empty cur then [] else [cur]
  | String c r =>
      if isword c then findall_words_from (cur +:+ String c EmptyString) r
      else if is_empty cur then findall_words_from EmptyString r
      else cur :: findall_words_from EmptyString r
  end.

Definition findall_words (s : string) : list string :=
  findall_words_from EmptyString s.

(** [s.split(sep)] for a one-character separator: never empty. *)
Fixpoint split_from (sep : ascii) (cur : string) (s : string) : list string :=
  match s with
  | EmptyString => [cur]
  | String c r =>
      if bool_decide (c = sep) then cur :: split_from sep EmptyString r
      else split_from sep (cur +:+ String c EmptyString) r
  end.

Definition split (sep : ascii) (s : string) : list string :=
  split_from sep EmptyString s.

(** [sep.join(l)] *)
Fixpoint join (sep : string) (l : list string) : string :=
  match l with
  | [] => EmptyString
  | [x] => x
  | x :: r => x +:+ sep +:+ join sep r
  end.

(** [s.replace(c, t)] for a one-character pattern. *)
Fixpoint replace_char (c : ascii) (t : string) (s : string) : string :=
  match s with
  | EmptyString => EmptyString
  | String d r =>
      if bool_decide (d = c) then t +:+ replace_char c t r
      else String d (replace_char c t r)
  end.

(** [str(n)] and [int.__format__] with an empty format. *)
Definition of_Z (n : Z) : string := NilZero.string_of_int (Z.to_int n).

(** [f"{n:02d}"] for a non-negative [n]. *)
Definition of_Z_02 (n : Z) : string :=
  if (0 <=? n) && (n <? 10) then "0" +:+ of_Z n else of_Z n.

Definition tab : ascii := ascii_of_N 9.
Definition TAB : string := String tab EmptyString.

End Str.

(** ** [analyse-sentiment.py] *)

Module Sentiment.

Definition positive_words : gset string :=
  list_to_set
    ["good"; "great"; "excellent"; "amazing"; "awesome"; "fantastic";
     "wonderful"; "brilliant"; "perfect"; "love"; "best"; "incredible";
     "outstanding"; "remarkable"; "superb"; "marvelous"; "exciting";
     "revolutionizing"; "successful"; "future"; "exciting"].

Definition negative_words : gset string :=
  list_to_set
    ["bad"; "terrible"; "awful"; "horrible"; "worst"; "hate"; "disgusting";
     "pathetic"; "useless"; "boring"; "disappointing"; "frustrating";
     "annoying"; "broken"; "failed"; "error"; "problem"; "issue"].

Definition intensifiers : gset string :=
  list_to_set
    ["very"; "extremely"; "really"; "totally"; "completely"; "absolutely";
     "quite"; "rather"; "pretty"; "so"; "too"].

(** [w in s] for a set of strings. *)
Definition mem (w : string) (s : gset string) : bool := bool_decide (w ∈ s).

(** [a > b] and [a < b] on floats. *)
Definition Qgtb (a b : Q) : bool := negb (Qle_bool a b).
Definition Qltb (a b : Q) : bool := negb (Qle_bool b a).

(** The built-ins [min(a, b)] and [max(a, b)]: the first argument is
    kept unless the second is strictly better. *)
Definition py_min (a b : Q) : Q := if Qltb b a then b else a.
Definition py_max (a b : Q) : Q := if Qgtb b a then b else a.

(** The weight chosen at index [i]: 1.5 when [i > 0] and [words[i-1]]
    is an intensifier, 1.0 otherwise. *)
Definition intensifier_at (words : list string) (i : nat) : Q :=
  if (0 <? i)%nat &&
     match words !! (i - 1)%nat with
     | Some p => mem p intensifiers
     | None => false
     end
  then 3 # 2 else 1.

(** One iteration of [for i, word in enumerate(words)]; the state is
    [(positive_score, negative_score)]. *)
Definition score_step (words : list string) (acc : Q * Q)
    (iw : nat * string) : Q * Q :=
  let intensifier := intensifier_at words (fst iw) in
  if mem (snd iw) positive_words then
    (fst acc + intensifier, snd acc)%Q
  else if mem (snd iw) negative_words then
    (fst acc, snd acc + intensifier)%Q
  else acc.

(** [enumerate(words)] *)
Definition enumerate {A} (l : list A) : list (nat * A) := imap pair l.

Definition score_loop (words : list string) : Q * Q :=
  foldl (score_step words) (0%Q, 0%Q) (enumerate words).

Definition analyze_sentiment (text : string) : Q :=
  if Str.is_empty text then 0%Q
  else
    let text := Str.lower text in
    let words := Str.findall_words text in
    let scores := score_loop words in
    let total_words := length words in
    if (total_words =? 0)%nat then 0%Q
    else
      let positive_normalized := (fst scores / inject_Z (Z.of_nat total_words))%Q in
      let negative_normalized := (snd scores / inject_Z (Z.of_nat total_words))%Q in
      let sentiment_score := (positive_normalized - negative_normalized)%Q in
      py_max (-1) (py_min 1 sentiment_score).

Definition get_sentiment_label (score : Q) : string :=
  if Qgtb score (1 # 10) then "positive"
  else if Qltb score (- (1 # 10)) then "negative"
  else "neutral".

End Sentiment.

(** ** The [datetime] functions used by the sources

    [strptime] follows CPython's [_strptime] module in the C locale: the
    format is compiled to a regular expression that is matched at the
    start of the string with backtracking, the first match is kept, left
    over characters are an error, and the fields found are handed to the
    [datetime] constructor, which checks their ranges.  A [ValueError] is
    [None]. *)

Module Datetime.

Record datetime := mk_datetime
  { year : Z; month : Z; day : Z; hour : Z; minute : Z; second : Z }.

Definition is_leap (y : Z) : bool :=
  (y mod 4 =? 0) && (negb (y mod 100 =? 0) || (y mod 400 =? 0)).

Definition days_in_month (y m : Z) : Z :=
  if m =? 2 then (if is_leap y then 29 else 28)
  else if (m =? 4) || (m =? 6) || (m =? 9) || (m =? 11) then 30
  else 31.

Definition between (lo hi n : Z) : bool := (lo <=? n) && (n <=? hi).

(** [datetime(year, month, day, hour, minute, second)] *)
Definition make (y m d H M S : Z) : option datetime :=
  if between 1 9999 y && between 1 12 m && between 1 (days_in_month y m) d
     && between 0 23 H && between 0 59 M && between 0 59 S
  then Some (mk_datetime y m d H M S) else None.

(** A backtracking matcher: the matches at the start of the input, in
    the order in which the [re] engine tries them, each with the input
    that is left. *)
Definition matcher (A : Type) : Type := string → list (A * string).

Global Instance matcher_ret : MRet matcher := λ A a s, [(a, s)].

Global Instance matcher_bind : MBind matcher := λ A B f p s,
  flat_map (λ ar, f (fst ar) (snd ar)) (p s).

Definition alt {A} (p q : matcher A) : matcher A := λ s, p s ++ q s.

Definition pure {A} (a : A) : matcher A := mret a.

Definition digit_value (c : ascii) : Z := Z.of_N (Str.code c) - 48.

(** [[lo-hi]] for decimal digits [lo], [hi]. *)
Definition digit_in (lo hi : Z) : matcher Z := λ s,
  match s with
  | String c r =>
      if Str.isdigit c && between lo hi (digit_value c)
      then [(digit_value c, r)] else []
  | EmptyString => []
  end.

Definition digit : matcher Z := digit_in 0 9.

(** A literal character. *)
Definition lit (c : ascii) : matcher unit := λ s,
  match s with
  | String d r => if bool_decide (d = c) then [((), r)] else []
  | EmptyString => []
  end.

(** A literal word under [re.IGNORECASE]. *)
Fixpoint word_ci (w : string) : matcher unit := λ s,
  match w with
  | EmptyString => [((), s)]
  | String a w' =>
      match s with
      | String d r =>
          if bool_decide (Str.lower_char d = Str.lower_char a)
          then word_ci w' r else []
      | EmptyString => []
      end
  end.

(** [\s*] and [\s+], greedy. *)
Fixpoint spaces0 (s : string) : list (unit * string) :=
  match s with
  | String c r => if Str.isspace c then spaces0 r ++ [((), s)] else [((), s)]
  | EmptyString => [((), s)]
  end.

Definition spaces1 : matcher unit := λ s,
  match s with
  | String c r => if Str.isspace c then spaces0 r else []
  | EmptyString => []
  end.

(** Two digits [[a-b][c-d]] read as a number. *)
Definition two (a b c d : Z) : matcher Z :=
  x ← digit_in a b; y ← digit_in c d; pure (10 * x + y).

(** The first name of [names] that matches, with its 1-based rank. *)
Fixpoint name_from (i : Z) (names : list string) : matcher Z :=
  match names with
  | [] => λ _, []
  | n :: r => alt (_ ← word_ci n; pure i) (name_from (i + 1) r)
  end.

(** [%Y]: [\d\d\d\d] *)
Definition re_Y : matcher Z :=
  a ← digit; b ← digit; c ← digit; d ← digit;
  pure (1000 * a + 100 * b + 10 * c + d).
(** [%m]: [1[0-2]|0[1-9]|[1-9]] *)
Definition re_m : matcher Z :=
  alt (two 1 1 0 2) (alt (two 0 0 1 9) (digit_in 1 9)).
(** [%d]: [3[0-1]|[1-2]\d|0[1-9]|[1-9]| [1-9]] *)
Definition re_d : matcher Z :=
  alt (two 3 3 0 1) (alt (two 1 2 0 9) (alt (two 0 0 1 9)
    (alt (digit_in 1 9) (_ ← lit " "; digit_in 1 9)))).
(** [%H]: [2[0-3]|[0-1]\d|\d] *)
Definition re_H : matcher Z :=
  alt (two 2 2 0 3) (alt (two 0 1 0 9) digit).
(** [%M]: [[0-5]\d|\d] *)
Definition re_M : matcher Z := alt (two 0 5 0 9) digit.
(** [%S]: [6[0-1]|[0-5]\d|\d] *)
Definition re_S : matcher Z :=
  alt (two 6 6 0 1) (alt (two 0 5 0 9) digit).
(** [%a] and [%b] *)
Definition re_a : matcher Z :=
  name_from 1 ["mon"; "tue"; "wed"; "thu"; "fri"; "sat"; "sun"].
Definition re_b : matcher Z :=
  name_from 1 ["jan"; "feb"; "mar"; "apr"; "may"; "jun";
               "jul"; "aug"; "sep"; "oct"; "nov"; "dec"].

Definition opt {A} (p : matcher A) : matcher (option A) :=
  alt (x ← p; pure (Some x)) (pure None).

Definition present {A} (o : option A) : bool :=
  match o with Some _ => true | None => false end.

(** [%z]: [[+-]\d\d:?[0-5]\d(:?[0-5]\d(\.\d{1,6})?)?|(?-i:Z)]; the
    value is [Some (hours, colon, seconds)] for an offset, where
    [colon] tells whether the colon after the hours is written and
    [seconds] is [Some colon'] when the seconds are, and [None] for
    [Z]. *)
Definition upto6_digits : matcher unit :=
  _ ← digit; _ ← opt digit; _ ← opt digit; _ ← opt digit;
  _ ← opt digit; _ ← opt digit; pure ().

Definition re_z_seconds : matcher bool :=
  c2 ← opt (lit ":");
  _ ← two 0 5 0 9;
  _ ← opt (_ ← lit "."; upto6_digits);
  pure (present c2).

Definition re_z : matcher (option (Z * bool * option bool)) :=
  alt
    (_ ← alt (lit "+") (lit "-");
     hh ← two 0 9 0 9;
     c1 ← opt (lit ":");
     _ ← two 0 5 0 9;
     ss ← opt re_z_seconds;
     pure (Some (hh, present c1, ss)))
    (_ ← lit "Z"; pure None).

(** What [_strptime] and [timezone] accept of a matched [%z]: the two
    colons are both written or both left out, and the offset is
    shorter than a day. *)
Definition z_ok (z : option (Z * bool * option bool)) : bool :=
  match z with
  | None => true
  | Some (hh, c1, ss) =>
      match ss with
      | Some c2 => eqb c1 c2
      | None => true
      end && (hh <=? 23)
  end.

(** The first match, which has to use the whole string. *)
Definition full_match {A} (p : matcher A) (s : string) : option A :=
  match p s with
  | (a, EmptyString) :: _ => Some a
  | _ => None
  end.

(** [datetime.strptime(s, '%Y-%m-%d %H:%M:%S')] *)
Definition strptime_ymd_hms (s : string) : option datetime :=
  f ← full_match
        (yr ← re_Y; _ ← lit "-"; mo ← re_m; _ ← lit "-"; dy ← re_d;
         _ ← spaces1; hr ← re_H; _ ← lit ":"; mi ← re_M; _ ← lit ":";
         sec ← re_S; pure (yr, mo, dy, hr, mi, sec)) s;
  let '(yr, mo, dy, hr, mi, sec) := f in make yr mo dy hr mi sec.

(** [datetime.strptime(s, '%a %b %d %H:%M:%S %z %Y')] *)
Definition strptime_twitter (s : string) : option datetime :=
  f ← full_match
        (_ ← re_a; _ ← spaces1; mo ← re_b; _ ← spaces1; dy ← re_d;
         _ ← spaces1; hr ← re_H; _ ← lit ":"; mi ← re_M; _ ← lit ":";
         sec ← re_S; _ ← spaces1; z ← re_z; _ ← spaces1; yr ← re_Y;
         pure (yr, mo, dy, hr, mi, sec, z)) s;
  let '(yr, mo, dy, hr, mi, sec, z) := f in
  if z_ok z then make yr mo dy hr mi sec else None.

(** [datetime.fromisoformat(s)], for the documented format
    [YYYY-MM-DD[*HH[:MM[:SS[.fff[fff]]]][+HH:MM[:SS[.ffffff]]]]]. *)
Definition any_char : matcher unit := λ s,
  match s with String _ r => [((), r)] | EmptyString => [] end.

Definition three_digits : matcher unit :=
  _ ← digit; _ ← digit; _ ← digit; pure ().

Definition iso_seconds : matcher Z :=
  _ ← lit ":";
  sec ← two 0 9 0 9;
  _ ← opt (_ ← lit "."; _ ← three_digits; opt three_digits);
  pure sec.

Definition iso_minutes : matcher (Z * Z) :=
  _ ← lit ":";
  mi ← two 0 9 0 9;
  sec ← opt iso_seconds;
  pure (mi, default 0 sec).

Definition iso_hms : matcher (Z * Z * Z) :=
  hr ← two 0 9 0 9;
  r ← opt iso_minutes;
  pure (hr, fst (default (0, 0) r), snd (default (0, 0) r)).

Definition iso_offset_seconds : matcher Z :=
  _ ← lit ":";
  sec ← two 0 9 0 9;
  _ ← opt (_ ← lit "."; _ ← three_digits; three_digits);
  pure sec.

(** The offset is read for its syntax and its range only: the value
    is whether [timezone] accepts it. *)
Definition iso_offset : matcher bool :=
  _ ← alt (lit "+") (lit "-");
  hh ← two 0 9 0 9;
  _ ← lit ":";
  mm ← two 0 9 0 9;
  ss ← opt iso_offset_seconds;
  pure (between 0 23 hh && between 0 59 mm && between 0 59 (default 0 ss)).

Definition iso_time : matcher (Z * Z * Z * bool) :=
  _ ← any_char;
  hms ← iso_hms;
  z ← opt iso_offset;
  pure (hms, default true z).

Definition fromisoformat (s : string) : option datetime :=
  f ← full_match
        (yr ← re_Y; _ ← lit "-"; mo ← two 0 9 0 9; _ ← lit "-";
         dy ← two 0 9 0 9;
         t ← opt iso_time;
         pure (yr, mo, dy, default ((0, 0, 0), true) t)) s;
  let '(yr, mo, dy, (hr, mi, sec, offset_ok)) := f in
  if offset_ok : bool then make yr mo dy hr mi sec else None.

(** [dt.strftime('%Y-%m')] *)
Definition pad4 (n : Z) : string :=
  (if n <? 10 then "000" else if n <? 100 then "00"
   else if n <? 1000 then "0" else "") +:+ Str.of_Z n.

Definition strftime_Y_m (dt : datetime) : string :=
  pad4 (year dt) +:+ "-" +:+ Str.of_Z_02 (month dt).

End Datetime.

(** ** Records read from the corpus and containers of the standard library *)

Module Data.

(** The [location] object of a tweet. *)
Record location := mk_location
  { city : option string; coordinates : option (list Q) }.

(** A tweet as decoded from JSON; a field that is not there is [None]. *)
Record tweet := mk_tweet
  { timestamp : option string;
    created_at : option string;
    tweet_text : option string;
    text : option string;
    full_text : option string;
    hashtags : option (list string);
    tweet_location : option location }.

(** [d.get(key, '')] *)
Definition get_str (field : option string) : string := default "" field.

(** [a or b] on strings. *)
Definition str_or (a b : string) : string := if Str.is_empty a then b else a.

(** [not d] for the [location] dictionary: it has no key. *)
Definition location_is_empty (l : location) : bool :=
  match city l, coordinates l with
  | None, None => true
  | _, _ => false
  end.

(** [collections.Counter]: the keys in the order of their first
    insertion, each with its count; a key that is not there counts 0. *)
Definition counter : Type := list (string * Z).

(** [c[k] += n] *)
Fixpoint counter_add (k : string) (n : Z) (c : counter) : counter :=
  match c with
  | [] => [(k, 0 + n)]
  | (k', m) :: r =>
      if bool_decide (k' = k) then (k', m + n) :: r
      else (k', m) :: counter_add k n r
  end.

(** [c[k]] *)
Fixpoint counter_get (k : string) (c : counter) : Z :=
  match c with
  | [] => 0
  | (k', m) :: r => if bool_decide (k' = k) then m else counter_get k r
  end.

(** [Counter(l)] *)
Definition Counter (l : list string) : counter :=
  foldl (λ c k, counter_add k 1 c) [] l.

(** [sorted(l, key=..., reverse=True)], a stable sort: [lt x y] is
    [key(x) < key(y)], and an element goes in front of the first one
    whose key is not larger than its own. *)
Fixpoint insert_by {A} (lt : A → A → bool) (x : A) (l : list A) : list A :=
  match l with
  | [] => [x]
  | y :: r => if lt x y then y :: insert_by lt x r else x :: y :: r
  end.

Definition sorted_reverse {A} (lt : A → A → bool) (l : list A) : list A :=
  foldr (insert_by lt) [] l.

Definition count_lt (a b : string * Z) : bool := snd a <? snd b.

(** [c.most_common(n)]; [n = None] is [c.most_common()]. *)
Definition most_common (n : option nat) (c : counter) : counter :=
  match n with
  | Some n => take n (sorted_reverse count_lt c)
  | None => sorted_reverse count_lt c
  end.

(** [f"{dt.year}-{dt.month:02d}"] *)
Definition year_month (dt : Datetime.datetime) : string :=
  Str.of_Z (Datetime.year dt) +:+ "-" +:+ Str.of_Z_02 (Datetime.month dt).

End Data.

(** ** [hastag-tendance.py] *)

Module Hashtag.
Import Data.

(** The cleaning of one hashtag in [HashtagMapper.map_hashtags]. *)
Definition clean_hashtag (hashtag : string) : string :=
  let clean_hashtag := Str.lower (Str.strip hashtag) in
  if Str.starts_with_char "#" clean_hashtag then Str.tail clean_hashtag
  else clean_hashtag.

Definition map_hashtags (tw : tweet) : list (string * string) :=
  let timestamp := get_str (timestamp tw) in
  let hashtags := default [] (hashtags tw) in
  if Str.is_empty timestamp || bool_decide (hashtags = []) then []
  else
    match Datetime.strptime_ymd_hms timestamp with
    | Some dt =>
        let month_key := year_month dt in
        omap (λ hashtag,
                let c := clean_hashtag hashtag in
                if Str.is_empty c then None else Some (month_key, c))
             hashtags
    | None => []
    end.

(** [hashtags_by_month[month].append(hashtag)] over the mapped data. *)
Definition group_by_month (mapped_data : list (string * string))
    : gmap string (list string) :=
  foldl (λ m p, <[fst p := default [] (m !! fst p) ++ [snd p]]> m)
        ∅ mapped_data.

Definition reduce_hashtags (mapped_data : list (string * string))
    : gmap string (list (string * Z)) :=
  (λ hashtags, most_common (Some 10%nat) (Counter hashtags))
    <$> group_by_month mapped_data.

(** The position of the first [h] in [l] ([length l] when there is none). *)
Fixpoint first_index (h : string) (l : list string) : nat :=
  match l with
  | [] => 0
  | x :: r => if bool_decide (x = h) then 0 else S (first_index h r)
  end.

(** The hashtags mapped to [month], in the order of the input. *)
Definition hashtags_of (month : string) (mapped_data : list (string * string))
    : list string :=
  snd <$> filter (λ p, fst p = month) mapped_data.

(** The number of [h] in [l]. *)
Definition occurrences (h : string) (l : list string) : Z :=
  Z.of_nat (length (filter (λ x, x = h) l)).

(** The ranking of the aggregate: more frequent first, and among
    equally frequent hashtags the one met first. *)
Definition ranked_before (tags : list string) (a b : string * Z) : Prop :=
  snd b < snd a ∨
  (snd a = snd b ∧ (first_index (fst a) tags < first_index (fst b) tags)%nat).

End Hashtag.

(** ** [distribution-geo.py] *)

Module Geo.
Import Data.

Definition city_to_country : gmap string string :=
  list_to_map
    [("paris", "France"); ("london", "United Kingdom");
     ("new york", "United States"); ("tokyo", "Japan");
     ("berlin", "Germany"); ("madrid", "Spain"); ("rome", "Italy");
     ("amsterdam", "Netherlands"); ("brussels", "Belgium");
     ("vienna", "Austria"); ("zurich", "Switzerland");
     ("stockholm", "Sweden"); ("oslo", "Norway"); ("helsinki", "Finland");
     ("copenhagen", "Denmark"); ("dublin", "Ireland");
     ("lisbon", "Portugal"); ("athens", "Greece"); ("warsaw", "Poland");
     ("prague", "Czech Republic"); ("budapest", "Hungary");
     ("bucharest", "Romania"); ("sofia", "Bulgaria"); ("zagreb", "Croatia");
     ("ljubljana", "Slovenia"); ("bratislava", "Slovakia");
     ("vilnius", "Lithuania"); ("riga", "Latvia"); ("tallinn", "Estonia")].

Definition tech_themes : list (string * list string) :=
  [("ai", ["ai"; "artificial intelligence"; "machinelearning"; "ml"]);
   ("bigdata", ["bigdata"; "hadoop"; "spark"; "analytics"]);
   ("cloud", ["cloud"; "cloudcomputing"; "aws"; "azure"]);
   ("blockchain", ["blockchain"; "crypto"; "bitcoin"]);
   ("iot", ["iot"; "internet of things"; "sensors"]);
   ("datascience", ["datascience"; "data science"; "analytics"]);
   ("programming", ["python"; "java"; "javascript"; "coding"]);
   ("mapreduce", ["mapreduce"; "distributed computing"])].

(** [s.title()]; [cased] tells whether the previous character is a
    letter. *)
Fixpoint title_from (cased : bool) (s : string) : string :=
  match s with
  | EmptyString => EmptyString
  | String c r =>
      if Str.islower c then
        String (if cased then c else Str.upper_char c) (title_from true r)
      else if Str.isupper c then
        String (if cased then Str.lower_char c else c) (title_from true r)
      else String c (title_from false r)
  end.

Definition title (s : string) : string := title_from false s.

Record location_info := mk_location_info
  { li_city : string; li_country : string; li_coordinates : list Q }.

Definition extract_location_info (tw : tweet) : option location_info :=
  match tweet_location tw with
  | None => None
  | Some location =>
      if location_is_empty location then None
      else
        let city := Str.strip (Str.lower (get_str (city location))) in
        let coordinates := default [] (coordinates location) in
        if Str.is_empty city then None
        else
          let country := default "Unknown" (city_to_country !! city) in
          Some {| li_city := title city;
                  li_country := country;
                  li_coordinates := coordinates |}
  end.

Definition extract_themes (tw : tweet) : list string :=
  let text := Str.lower (get_str (tweet_text tw)) in
  let hashtags :=
    (λ h, Str.replace_char "#" "" (Str.lower h)) <$> default [] (hashtags tw) in
  let content := text +:+ " " +:+ Str.join " " hashtags in
  let themes :=
    fst <$> filter (λ tk, existsb (λ keyword, Str.contains keyword content) (snd tk) = true)
                   tech_themes in
  if bool_decide (themes = []) then ["general"] else themes.

Record payload := mk_payload
  { p_location : location_info;
    p_themes : list string;
    p_month : string;
    p_tweet_text : string }.

Definition map_geographic_data (tw : tweet) : option payload :=
  match extract_location_info tw with
  | None => None
  | Some location_info =>
      let themes := extract_themes tw in
      let timestamp := get_str (timestamp tw) in
      let date_key :=
        match Datetime.strptime_ymd_hms timestamp with
        | Some dt => year_month dt
        | None => "unknown"
        end in
      let text := get_str (tweet_text tw) in
      Some {| p_location := location_info;
              p_themes := themes;
              p_month := date_key;
              p_tweet_text :=
                if (100 <? String.length text)%nat
                then Str.take 100 text +:+ "..." else text |}
  end.

(** *** [GeographicReducer._analyze_themes_by_region] *)

(** [a / b]; [None] is [ZeroDivisionError]. *)
Definition div (a b : Q) : option Q :=
  if Qeq_bool b 0 then None else Some (a / b)%Q.

(** Rounding to the nearest integer, ties to even. *)
Definition round_half_even (x : Q) : Z :=
  let f := Qfloor x in
  let r := (x - inject_Z f)%Q in
  if Sentiment.Qltb r (1 # 2) then f
  else if Sentiment.Qgtb r (1 # 2) then f + 1
  else if Z.even f then f else f + 1.

(** [round(x, n)] *)
Definition round (x : Q) (n : nat) : Q :=
  (inject_Z (round_half_even (x * inject_Z (10 ^ Z.of_nat n)))
   / inject_Z (10 ^ Z.of_nat n))%Q.

Record specialty := mk_specialty
  { theme : string;
    local_percentage : Q;
    global_percentage : Q;
    over_representation : Q }.

Definition of_nat (n : nat) : Q := inject_Z (Z.of_nat n).

(** The body of [for theme, count in country_theme_counts.items()]:
    [Some None] when the theme is not kept. *)
Definition specialty_of (global_theme_counts : counter) (all_themes : list string)
    (total_country_tweets : nat) (tc : string * Z) : option (option specialty) :=
  local ← div (inject_Z (snd tc)) (of_nat total_country_tweets);
  global ← div (inject_Z (counter_get (fst tc) global_theme_counts))
               (of_nat (length all_themes));
  if Sentiment.Qgtb local (global * (3 # 2)) && (2 <=? snd tc) then
    ratio ← div local global;
    Some (Some {| theme := fst tc;
                  local_percentage := round (local * 100) 1;
                  global_percentage := round (global * 100) 1;
                  over_representation := round ratio 2 |})
  else Some None.

Fixpoint specialties_loop (global_theme_counts : counter) (all_themes : list string)
    (total_country_tweets : nat) (items : counter) : option (list specialty) :=
  match items with
  | [] => Some []
  | tc :: rest =>
      s ← specialty_of global_theme_counts all_themes total_country_tweets tc;
      r ← specialties_loop global_theme_counts all_themes total_country_tweets rest;
      Some (match s with Some x => x :: r | None => r end)
  end.

Definition ratio_lt (a b : specialty) : bool :=
  Sentiment.Qltb (over_representation a) (over_representation b).

(** The loop over [themes_by_country.items()]. *)
Fixpoint regional_loop (global_theme_counts : counter) (all_themes : list string)
    (items : list (string * list string))
    (regional_specialties : gmap string (list specialty))
    : option (gmap string (list specialty)) :=
  match items with
  | [] => Some regional_specialties
  | (country, themes) :: rest =>
      let country_theme_counts := Counter themes in
      let total_country_tweets := length themes in
      if (total_country_tweets =? 0)%nat then
        regional_loop global_theme_counts all_themes rest regional_specialties
      else
        specialties ← specialties_loop global_theme_counts all_themes
                        total_country_tweets country_theme_counts;
        regional_loop global_theme_counts all_themes rest
          (<[country := sorted_reverse ratio_lt specialties]> regional_specialties)
  end.

Record theme_analysis := mk_theme_analysis
  { global_themes : list (string * Z);
    regional_specialties : gmap string (list specialty) }.

(** [themes_by_country] is the dictionary in insertion order;
    [themes_by_city] is not read. *)
Definition _analyze_themes_by_region
    (themes_by_country themes_by_city : list (string * list string))
    : option theme_analysis :=
  let all_themes := concat (snd <$> themes_by_country) in
  let global_theme_counts := Counter all_themes in
  regional ← regional_loop global_theme_counts all_themes themes_by_country ∅;
  Some {| global_themes := most_common (Some 10%nat) global_theme_counts;
          regional_specialties := regional |}.

(** The specification of a regional specialty, on exact counts: the
    share of [theme] among the themes of the country, its share among
    all themes, and the test of the two. *)
Definition local_share (theme : string) (themes : list string) : Q :=
  (inject_Z (Hashtag.occurrences theme themes) / of_nat (length themes))%Q.


End Geo.

(** ** [mapper.py] and [reducer.py]

    The mapper is modelled from the decoded list of tweets on (the
    decoding of standard input as JSON is not), and writes a list of
    lines; the reducer reads a list of lines. *)

Module Streaming.
Import Data.

(** [os.environ.get('ANALYSIS_TYPE', 'hashtags').lower()] *)
Definition analysis_type (env : option string) : string :=
  Str.lower (default "hashtags" env).

Definition line4 (record_type period item count : string) : string :=
  record_type +:+ Str.TAB +:+ period +:+ Str.TAB +:+ item +:+ Str.TAB +:+ count.

(** *** The mapper *)

(** The text of a tweet, as the mapper reads it. *)
Definition tweet_text_of (tw : tweet) : string :=
  str_or (str_or (str_or (get_str (tweet_text tw)) (get_str (text tw)))
                 (get_str (full_text tw))) "".

(** The period key of a tweet. *)
Definition month_key_of (tw : tweet) : string :=
  let created_at := str_or (get_str (timestamp tw)) (get_str (Data.created_at tw)) in
  if Str.is_empty created_at then "2024-01"
  else
    match (if Str.contains "T" created_at
           then Datetime.fromisoformat (Str.replace_char "Z" "+00:00" created_at)
           else Datetime.strptime_twitter created_at)
    with
    | Some dt => Datetime.strftime_Y_m dt
    | None => "2024-01"
    end.

(** [re.findall(r'#\w+', s)]; [cur] is the match being read. *)
Definition close_tag (cur : option string) : list string :=
  match cur with
  | Some w => if (1 <? String.length w)%nat then [w] else []
  | None => []
  end.

Fixpoint findall_tags_from (cur : option string) (s : string) : list string :=
  match s with
  | EmptyString => close_tag cur
  | String c r =>
      match cur with
      | Some w =>
          if Str.isword c
          then findall_tags_from (Some (w +:+ String c EmptyString)) r
          else close_tag cur ++
               findall_tags_from (if bool_decide (c = "#"%char) then Some "#" else None) r
      | None =>
          findall_tags_from (if bool_decide (c = "#"%char) then Some "#" else None) r
      end
  end.

Definition findall_tags (s : string) : list string := findall_tags_from None s.

Definition positive_words : list string :=
  ["good"; "great"; "excellent"; "amazing"; "wonderful"; "fantastic";
   "awesome"; "perfect"; "love"; "best"; "happy"; "nice"].

Definition negative_words : list string :=
  ["bad"; "terrible"; "awful"; "horrible"; "worst"; "hate"; "sad"; "angry";
   "disappointed"; "poor"; "fail"; "sucks"].

(** [sum(1 for word in words if word in text)] *)
Definition count_in (words : list string) (text : string) : nat :=
  length (filter (λ word, Str.contains word text = true) words).

Section Mapper.

(** [str(x)] for a float. *)
Variable format_float : Q → string.

Definition map_hashtags_mode (month_key text : string) (tw : tweet) : list string :=
  let hashtag_list := default [] (hashtags tw) in
  if negb (bool_decide (hashtag_list = [])) then
    (λ tag, line4 "HASHTAG" month_key ("#" +:+ Str.lower tag) "1") <$> hashtag_list
  else
    (λ tag, line4 "HASHTAG" month_key tag "1") <$> findall_tags (Str.lower text).

Definition map_sentiment_mode (month_key text : string) : list string :=
  let text_lower := Str.lower text in
  let positive_count := count_in positive_words text_lower in
  let negative_count := count_in negative_words text_lower in
  let sentiment :=
    if (negative_count <? positive_count)%nat then "positive"
    else if (positive_count <? negative_count)%nat then "negative"
    else "neutral" in
  [line4 "SENTIMENT" month_key sentiment "1"].

Definition map_geography_mode (month_key : string) (tw : tweet) : list string :=
  let location_info := tweet_location tw in
  let truthy :=
    match location_info with
    | Some l => negb (location_is_empty l)
    | None => false
    end in
  let city :=
    match location_info with
    | Some l => if truthy then get_str (Data.city l) else ""
    | None => ""
    end in
  let coordinates :=
    match location_info with
    | Some l => if truthy then default [] (Data.coordinates l) else []
    | None => []
    end in
  (if negb (Str.is_empty city)
   then [line4 "LOCATION" month_key (Str.take 50 (Str.strip city)) "1"]
   else [])
  ++
  match coordinates with
  | lat :: lon :: _ =>
      [line4 "COORDINATES" month_key
             (format_float lat +:+ "," +:+ format_float lon) "1"]
  | _ => []
  end.

(** The body of [for tweet in tweet_list]: the lines printed. *)
Definition map_tweet (env : option string) (tw : tweet) : list string :=
  let text := tweet_text_of tw in
  if Str.is_empty text then []
  else
    let month_key := month_key_of tw in
    let mode := analysis_type env in
    if bool_decide (mode = "hashtags") then map_hashtags_mode month_key text tw
    else if bool_decide (mode = "sentiment") then map_sentiment_mode month_key text
    else if bool_decide (mode = "geography") then map_geography_mode month_key tw
    else [].

Definition mapper_combined (env : option string) (tweet_list : list tweet)
    : list string :=
  tw ← tweet_list; map_tweet env tw.

End Mapper.

(** *** The reducer *)

Inductive exn := ValueError | IndexError.

(** Decimal digits with single underscores between them. *)
Fixpoint digits_from (acc : Z) (after_digit : bool) (s : string) : option Z :=
  match s with
  | EmptyString => if after_digit then Some acc else None
  | String c r =>
      if Str.isdigit c then digits_from (10 * acc + Datetime.digit_value c) true r
      else if bool_decide (c = "_"%char) && after_digit then digits_from acc false r
      else None
  end.

(** [int(s)]: [inl ValueError] when [s] is not a decimal literal. *)
Definition int (s : string) : exn + Z :=
  let body :=
    match Str.strip s with
    | String "+" r => digits_from 0 false r
    | String "-" r => Z.opp <$> digits_from 0 false r
    | t => digits_from 0 false t
    end in
  match body with Some n => inr n | None => inl ValueError end.

(** [l[i]] *)
Definition item (l : list string) (i : nat) : exn + string :=
  match l !! i with Some x => inr x | None => inl IndexError end.

(** The body of the [try] block on one stripped, non-empty line. *)
Definition reduce_try (data_counter : counter) (line : string) : exn + counter :=
  let parts := Str.split Str.tab line in
  if (4 <=? length parts)%nat then
    match item parts 0, item parts 1, item parts 2, item parts 3 with
    | inr data_type, inr month, inr item, inr field =>
        match int field with
        | inr count =>
            let key := month +:+ Str.TAB +:+ item in
            inr (counter_add key count data_counter)
        | inl e => inl e
        end
    | inl e, _, _, _ | _, inl e, _, _ | _, _, inl e, _ | _, _, _, inl e => inl e
    end
  else inr data_counter.

(** One turn of [for line in sys.stdin]. *)
Definition reduce_line (data_counter : counter) (line : string) : counter :=
  let line := Str.strip line in
  if Str.is_empty line then data_counter
  else
    match reduce_try data_counter line with
    | inr c => c
    | inl ValueError | inl IndexError => data_counter
    end.

(** [key.split('\t', 1)] unpacked into two names: [inl ValueError]
    when the key has no tab. *)
Fixpoint split_once (s : string) : exn + (string * string) :=
  match s with
  | EmptyString => inl ValueError
  | String c r =>
      if bool_decide (c = Str.tab) then inr (EmptyString, r)
      else
        match split_once r with
        | inr (a, b) => inr (String c a, b)
        | inl e => inl e
        end
  end.

Fixpoint print_results (record_type : string) (sorted_items : counter)
    : exn + list string :=
  match sorted_items with
  | [] => inr []
  | (key, count) :: rest =>
      match split_once key with
      | inr (month, item) =>
          match print_results record_type rest with
          | inr out => inr (line4 record_type month item (Str.of_Z count) :: out)
          | inl e => inl e
          end
      | inl e => inl e
      end
  end.

(** The run of the reducer: the lines printed, or the exception that
    ends it. *)
Definition reducer_combined (env : option string) (stdin : list string)
    : exn + list string :=
  let mode := analysis_type env in
  let data_counter := foldl reduce_line [] stdin in
  if bool_decide (mode = "hashtags") then
    print_results "HASHTAG_RESULT" (most_common (Some 10%nat) data_counter)
  else if bool_decide (mode = "sentiment") then
    print_results "SENTIMENT_RESULT" (most_common None data_counter)
  else if bool_decide (mode = "geography") then
    print_results "GEOGRAPHY_RESULT" (most_common (Some 20%nat) data_counter)
  else inr [].

(** The reading of one input line of the protocol: its period, item
    and count when it has at least four tab-separated fields and the
    fourth is an integer. *)
Definition fields_of (line : string) : list string :=
  Str.split Str.tab (Str.strip line).

Definition well_formed (line : string) : option (string * string * Z) :=
  match fields_of line with
  | _ :: month :: item :: field :: _ =>
      match int field with
      | inr n => Some (month, item, n)
      | inl _ => None
      end
  | _ => None
  end.

(** The sum of the counts of the well-formed lines for a pair. *)
Definition pair_total (month item : string) (stdin : list string) : Z :=
  foldr (λ line acc,
           match well_formed line with
           | Some (m, i, n) =>
               if bool_decide (m = month ∧ i = item) then n + acc else acc
           | None => acc
           end) 0 stdin.

Definition result_type (env : option string) : string :=
  let mode := analysis_type env in
  if bool_decide (mode = "hashtags") then "HASHTAG_RESULT"
  else if bool_decide (mode = "sentiment") then "SENTIMENT_RESULT"
  else "GEOGRAPHY_RESULT".

End Streaming.

(** ** Reference definitions for the statements below *)

Module Reference.
Import Data.

(** The weight of a token, read from the token before it alone. *)
Definition weight_after (prev : option string) : Q :=
  match prev with
  | Some p => if Sentiment.mem p Sentiment.intensifiers then 3 # 2 else 1
  | None => 1
  end.

(** The update of the two scores by [word] with a given weight. *)
Definition add_word (weight : Q) (acc : Q * Q) (word : string) : Q * Q :=
  if Sentiment.mem word Sentiment.positive_words then (fst acc + weight, snd acc)%Q
  else if Sentiment.mem word Sentiment.negative_words then (fst acc, snd acc + weight)%Q
  else acc.

(** The two scores of a token sequence, by a pass that remembers the
    previous token only. *)
Fixpoint scores_from (prev : option string) (acc : Q * Q) (words : list string)
    : Q * Q :=
  match words with
  | [] => acc
  | w :: r => scores_from (Some w) (add_word (weight_after prev) acc w) r
  end.

(** In a list sorted by decreasing key, [a] may stand before [b]: its
    key is not smaller, and with equal keys [P a b] holds ([lt x y] is
    [key(x) < key(y)]). *)
Definition stable_desc {A} (lt : A → A → bool) (P : relation A) (a b : A) : Prop :=
  lt a b = false ∧ (lt b a = false → P a b).

(** A relation on the keys, read on the entries of a counter. *)
Definition on_keys (Rk : relation string) : relation (string * Z) :=
  λ a b, Rk (fst a) (fst b).

(** [h1] is met before [h2] in [l]. *)
Definition met_before (l : list string) : relation string :=
  λ h1 h2, (Hashtag.first_index h1 l < Hashtag.first_index h2 l)%nat.

(** A string starts with a white space character. *)
Definition leading_space (s : string) : bool :=
  match s with String c _ => Str.isspace c | EmptyString => false end.

(** The city of a tweet, [""] when it has none. *)
Definition city_of (tw : tweet) : string :=
  match tweet_location tw with
  | Some l => get_str (city l)
  | None => ""
  end.

(** A string reads [c1 c2 ...] with [ci] in the i-th class of [shape]. *)
Fixpoint has_shape (shape : list (ascii → bool)) (s : string) : bool :=
  match shape, s with
  | [], EmptyString => true
  | p :: shape', String c r => p c && has_shape shape' r
  | _, _ => false
  end.

Definition is_char (c : ascii) : ascii → bool := λ d, bool_decide (d = c).

(** The shape [dddd-dd-dd dd:dd:dd] of the primary timestamp format. *)
Definition primary_shape : list (ascii → bool) :=
  [Str.isdigit; Str.isdigit; Str.isdigit; Str.isdigit; is_char "-";
   Str.isdigit; Str.isdigit; is_char "-"; Str.isdigit; Str.isdigit;
   is_char " ";
   Str.isdigit; Str.isdigit; is_char ":"; Str.isdigit; Str.isdigit;
   is_char ":"; Str.isdigit; Str.isdigit].

(** Every character of a string is in the class [Q]. *)
Fixpoint all_chars (Q : ascii → bool) (s : string) : bool :=
  match s with
  | EmptyString => true
  | String c r => Q c && all_chars Q r
  end.

(** A tweet has a text for the streaming mapper. *)
Definition has_text (tw : tweet) : Prop := Streaming.tweet_text_of tw ≠ "".

(** The number of [c] in a string. *)
Fixpoint count_char (c : ascii) (s : string) : nat :=
  match s with
  | EmptyString => 0
  | String d r => (if bool_decide (d = c) then 1 else 0) + count_char c r
  end.

(** A string has no tab. *)
Fixpoint tab_free (s : string) : bool :=
  match s with
  | EmptyString => true
  | String c r => negb (bool_decide (c = Str.tab)) && tab_free r
  end.
(** The key of the reducer's counter for a pair. *)
Definition key_of (month item : string) : string := month +:+ Str.TAB +:+ item.
(** What one input line adds to the total of a pair. *)
Definition contribution (month item line : string) : Z :=
  match Streaming.well_formed line with
  | Some (m, i, n) => if bool_decide (m = month ∧ i = item) then n else 0
  | None => 0
  end.
(** The line printed for one entry of the counter. *)
Definition render (record_type : string) (a : string * Z) : string :=
  match Streaming.split_once (fst a) with
  | inr (month, item) => Streaming.line4 record_type month item (Str.of_Z (snd a))
  | inl _ => ""
  end.

(** The argument of [most_common] in each mode. *)
Definition limit_of (mode : string) : option nat :=
  if bool_decide (mode = "hashtags") then Some 10%nat
  else if bool_decide (mode = "sentiment") then None
  else Some 20%nat.

(** The end of a line of standard input. *)
Definition NL : string := String (ascii_of_N 10) EmptyString.

(** The two mapper lines of the example, as read from standard input. *)
Definition two_positive_lines : list string :=
  [Streaming.line4 "SENTIMENT" "2024-01" "positive" "1" +:+ NL;
   Streaming.line4 "SENTIMENT" "2024-01" "positive" "1" +:+ NL].

(** Two input lines whose tab-separated fields change with
    [line.strip()]: the first starts with a tab, the second with a
    blank first field. *)
Definition leading_tab_line : string :=
  Str.TAB +:+ Streaming.line4 "SENTIMENT" "2024-01" "positive" "1" +:+ NL.
Definition blank_type_line : string :=
  Streaming.line4 " " "2024-01" "positive" "1" +:+ NL.

(** The entry of a theme in the specialties of a country, from the
    exact shares. *)
Definition the_specialty (t : string) (themes all_themes : list string) : Geo.specialty :=
  {| Geo.theme := t;
     Geo.local_percentage := Geo.round (Geo.local_share t themes * 100) 1;
     Geo.global_percentage := Geo.round (Geo.local_share t all_themes * 100) 1;
     Geo.over_representation :=
       Geo.round (Geo.local_share t themes / Geo.local_share t all_themes) 2 |}.

(** The test of the reducer on the exact shares. *)
Definition is_specialty_b (t : string) (themes all_themes : list string) : bool :=
  Sentiment.Qgtb (Geo.local_share t themes) (Geo.local_share t all_themes * (3 # 2))
  && (2 <=? Hashtag.occurrences t themes).

(** The entry kept for an item of the country's counter, if any. *)
Definition select_specialty (themes all_themes : list string) (tc : string * Z)
    : option Geo.specialty :=
  if is_specialty_b (fst tc) themes all_themes
  then Some (the_specialty (fst tc) themes all_themes) else None.

(** The specialties of a country with themes [themes]. *)
Definition specialties_of (themes all_themes : list string) : list Geo.specialty :=
  Data.sorted_reverse Geo.ratio_lt
    (omap (select_specialty themes all_themes) (Data.Counter themes)).

(** The themes of all countries, in the order of the dictionary. *)
Definition all_themes_of (themes_by_country : list (string * list string)) : list string :=
  concat (snd <$> themes_by_country).








(** Sample tweets. *)
Definition blank_city_tweet : tweet :=
  {| timestamp := None; created_at := None;
     tweet_text := Some "hello"; text := None; full_text := None;
     hashtags := None;
     tweet_location := Some {| city := Some " "; coordinates := None |} |}.

Definition undated_paris_tweet : tweet :=
  {| timestamp := Some "yesterday"; created_at := None;
     tweet_text := None; text := None; full_text := None;
     hashtags := None;
     tweet_location := Some {| city := Some "Paris"; coordinates := None |} |}.

Definition march_tweet : tweet :=
  {| timestamp := Some "2024-03-05 10:00:00"; created_at := None;
     tweet_text := Some "this is a great and amazing day";
     text := None; full_text := None;
     hashtags := Some ["AI"];
     tweet_location := None |}.

Definition iso_march_tweet : tweet :=
  {| timestamp := Some "2024-03-05T10:00:00Z"; created_at := None;
     tweet_text := Some "this is a great and amazing day";
     text := None; full_text := None;
     hashtags := Some ["AI"];
     tweet_location := None |}.

End Reference.

(** ** Dictionaries in insertion order *)

Module Dict.

(** A [dict] with string keys whose iteration order is observable: its
    items in the order in which the keys were first inserted. *)
Definition dict (A : Type) : Type := list (string * A).

(** [d.get(k)] *)
Fixpoint get {A} (k : string) (d : dict A) : option A :=
  match d with
  | [] => None
  | (k', v) :: r => if bool_decide (k' = k) then Some v else get k r
  end.

(** [d[k] = v] *)
Fixpoint set {A} (k : string) (v : A) (d : dict A) : dict A :=
  match d with
  | [] => [(k, v)]
  | (k', v') :: r =>
      if bool_decide (k' = k) then (k', v) :: r else (k', v') :: set k v r
  end.

(** [d[k] = f(d[k])] on a [defaultdict] whose missing values are
    [dflt]: [d[k].append(x)], [d[k].extend(l)], [d[k] += 1]. *)
Fixpoint update {A} (dflt : A) (f : A → A) (k : string) (d : dict A) : dict A :=
  match d with
  | [] => [(k, f dflt)]
  | (k', v) :: r =>
      if bool_decide (k' = k) then (k', f v) :: r
      else (k', v) :: update dflt f k r
  end.

(** [l.count(x)] *)
Definition count (x : string) (l : list string) : nat :=
  length (filter (λ y, y = x) l).

(** [sum(l)] on floats *)
Definition sum (l : list Q) : Q := foldl Qplus 0%Q l.

End Dict.

(** ** [analyse-sentiment.py]: the mapper and the reducer *)

Module SentimentMapper.
Import Data.

Record sentiment_data := mk_sentiment_data
  { score : Q; label : string; text_preview : string }.

(** [f"{dt.year}-{dt.month:02d}-{dt.day:02d}"] *)
Definition year_month_day (dt : Datetime.datetime) : string :=
  Str.of_Z (Datetime.year dt) +:+ "-" +:+ Str.of_Z_02 (Datetime.month dt)
    +:+ "-" +:+ Str.of_Z_02 (Datetime.day dt).

Definition map_sentiment (tw : tweet) : option (string * sentiment_data) :=
  let timestamp := get_str (timestamp tw) in
  let text := get_str (tweet_text tw) in
  if Str.is_empty timestamp || Str.is_empty text then None
  else
    match Datetime.strptime_ymd_hms timestamp with
    | Some dt =>
        let date_key := year_month_day dt in
        let sentiment_score := Sentiment.analyze_sentiment text in
        let sentiment_label := Sentiment.get_sentiment_label sentiment_score in
        Some (date_key,
              {| score := sentiment_score;
                 label := sentiment_label;
                 text_preview :=
                   if (50 <? String.length text)%nat
                   then Str.take 50 text +:+ "..." else text |})
    | None => None
    end.

(** The MAP phase of [run_sentiment_mapreduce_local] on the tweets
    read from the files: the results that are not [None], in order. *)
Definition map_phase (tweets : list tweet) : list (string * sentiment_data) :=
  omap map_sentiment tweets.

End SentimentMapper.

Module SentimentReducer.
Import SentimentMapper.

Record counts := mk_counts { positive : nat; negative : nat; neutral : nat }.

Record shares := mk_shares
  { positive_share : Q; negative_share : Q; neutral_share : Q }.

Record daily := mk_daily
  { average_sentiment : Q;
    total_tweets : nat;
    sentiment_distribution : counts;
    sentiment_percentages : shares }.

(** The body of [for date, sentiments in sentiments_by_date.items()];
    [None] is [ZeroDivisionError]. *)
Definition daily_of (sentiments : list sentiment_data) : option daily :=
  let scores := score <$> sentiments in
  let labels := label <$> sentiments in
  avg_score ← (if bool_decide (scores = []) then Some 0%Q
               else Geo.div (Dict.sum scores) (Geo.of_nat (length scores)));
  let positive_count := Dict.count "positive" labels in
  let negative_count := Dict.count "negative" labels in
  let neutral_count := Dict.count "neutral" labels in
  let total_tweets := length sentiments in
  p ← Geo.div (Geo.of_nat positive_count) (Geo.of_nat total_tweets);
  n ← Geo.div (Geo.of_nat negative_count) (Geo.of_nat total_tweets);
  u ← Geo.div (Geo.of_nat neutral_count) (Geo.of_nat total_tweets);
  Some {| average_sentiment := Geo.round avg_score 4;
          total_tweets := total_tweets;
          sentiment_distribution :=
            {| positive := positive_count;
               negative := negative_count;
               neutral := neutral_count |};
          sentiment_percentages :=
            {| positive_share := Geo.round (p * 100) 2;
               negative_share := Geo.round (n * 100) 2;
               neutral_share := Geo.round (u * 100) 2 |} |}.

(** [sentiments_by_date[date].append(sentiment_data)] over the mapped
    data. *)
Definition group_by_date (mapped_data : list (string * sentiment_data))
    : Dict.dict (list sentiment_data) :=
  foldl (λ d p, Dict.update [] (λ l, l ++ [snd p]) (fst p) d) [] mapped_data.

Fixpoint daily_loop (items : Dict.dict (list sentiment_data))
    (daily_results : Dict.dict daily) : option (Dict.dict daily) :=
  match items with
  | [] => Some daily_results
  | (date, sentiments) :: rest =>
      r ← daily_of sentiments;
      daily_loop rest (Dict.set date r daily_results)
  end.

Definition reduce_sentiment (mapped_data : list (string * sentiment_data))
    : option (Dict.dict daily) :=
  daily_loop (group_by_date mapped_data) [].

End SentimentReducer.

(** ** [distribution-geo.py]: the reducer *)

Module GeographicReducer.
Import Data Geo.

Record country_stat := mk_country_stat
  { total_tweets : nat;
    top_themes : list (string * Z);
    cities : gset string;
    sample_tweets : list string }.

Record city_stat := mk_city_stat
  { country : string;
    city_total_tweets : nat;
    city_top_themes : list (string * Z);
    coordinates : list Q }.

(** [d[k]] on a [defaultdict]: the value read, and the dictionary, in
    which a missing key has been inserted with the default value. *)
Definition getitem {A} (dflt : A) (k : string) (d : Dict.dict A) : A * Dict.dict A :=
  (default dflt (Dict.get k d), Dict.update dflt id k d).

(** The loop of [_calculate_country_stats] over
    [tweets_by_country.items()]; the state is [country_stats] and the
    dictionary [themes_by_country], which the loop reads.  The list
    [list(set(...))] of the cities is kept as the set of its elements:
    its order is that of the hash table. *)
Fixpoint country_loop (items : Dict.dict (list payload))
    (country_stats : Dict.dict country_stat)
    (themes_by_country : Dict.dict (list string))
    : Dict.dict country_stat * Dict.dict (list string) :=
  match items with
  | [] => (country_stats, themes_by_country)
  | (country, tweets) :: rest =>
      let '(themes, themes_by_country) := getitem [] country themes_by_country in
      let theme_counts := Counter themes in
      country_loop rest
        (Dict.set country
           {| total_tweets := length tweets;
              top_themes := most_common (Some 5%nat) theme_counts;
              cities := list_to_set ((λ tweet, li_city (p_location tweet)) <$> tweets);
              sample_tweets := p_tweet_text <$> take 3 tweets |}
           country_stats)
        themes_by_country
  end.

Definition _calculate_country_stats (tweets_by_country : Dict.dict (list payload))
    (themes_by_country : Dict.dict (list string))
    : Dict.dict country_stat * Dict.dict (list string) :=
  country_loop tweets_by_country [] themes_by_country.

(** The loop of [_calculate_city_stats], in the same way. *)
Fixpoint city_loop (items : Dict.dict (list payload))
    (city_stats : Dict.dict city_stat)
    (themes_by_city : Dict.dict (list string))
    : Dict.dict city_stat * Dict.dict (list string) :=
  match items with
  | [] => (city_stats, themes_by_city)
  | (city, tweets) :: rest =>
      let '(themes, themes_by_city) := getitem [] city themes_by_city in
      let theme_counts := Counter themes in
      let country :=
        match tweets with
        | tweet :: _ => li_country (p_location tweet)
        | [] => "Unknown"
        end in
      city_loop rest
        (Dict.set city
           {| country := country;
              city_total_tweets := length tweets;
              city_top_themes := most_common (Some 3%nat) theme_counts;
              coordinates :=
                match tweets with
                | tweet :: _ => li_coordinates (p_location tweet)
                | [] => []
                end |}
           city_stats)
        themes_by_city
  end.

Definition _calculate_city_stats (tweets_by_city : Dict.dict (list payload))
    (themes_by_city : Dict.dict (list string))
    : Dict.dict city_stat * Dict.dict (list string) :=
  city_loop tweets_by_city [] themes_by_city.

(** The five dictionaries filled by the loop of
    [reduce_geographic_data]. *)
Record groups := mk_groups
  { tweets_by_country : Dict.dict (list payload);
    tweets_by_city : Dict.dict (list payload);
    themes_by_country : Dict.dict (list string);
    themes_by_city : Dict.dict (list string);
    monthly_geo_data : Dict.dict (Dict.dict Z) }.

(** One turn of [for data in mapped_data]. *)
Definition group_step (g : groups) (data : payload) : groups :=
  let country := li_country (p_location data) in
  let city := li_city (p_location data) in
  let themes := p_themes data in
  let month := p_month data in
  {| tweets_by_country :=
       Dict.update [] (λ l, l ++ [data]) country (tweets_by_country g);
     tweets_by_city :=
       Dict.update [] (λ l, l ++ [data]) city (tweets_by_city g);
     themes_by_country :=
       Dict.update [] (λ l, l ++ themes) country (themes_by_country g);
     themes_by_city :=
       Dict.update [] (λ l, l ++ themes) city (themes_by_city g);
     monthly_geo_data :=
       Dict.update [] (Dict.update 0 (λ n, n + 1) country) month
                   (monthly_geo_data g) |}.

Record results := mk_results
  { country_statistics : Dict.dict country_stat;
    city_statistics : Dict.dict city_stat;
    monthly_distribution : Dict.dict (Dict.dict Z);
    theme_analysis : Geo.theme_analysis }.

(** [None] is [ZeroDivisionError]. *)
Definition reduce_geographic_data (mapped_data : list payload) : option results :=
  let g := foldl group_step
             {| tweets_by_country := []; tweets_by_city := [];
                themes_by_country := []; themes_by_city := [];
                monthly_geo_data := [] |} mapped_data in
  let '(country_stats, themes_by_country) :=
    _calculate_country_stats (tweets_by_country g) (themes_by_country g) in
  let '(city_stats, themes_by_city) :=
    _calculate_city_stats (tweets_by_city g) (themes_by_city g) in
  analysis ← _analyze_themes_by_region themes_by_country themes_by_city;
  Some {| country_statistics := country_stats;
          city_statistics := city_stats;
          monthly_distribution := monthly_geo_data g;
          theme_analysis := analysis |}.

(** The MAP phase of [run_geographic_mapreduce_local] on the tweets
    read from the files: the results that are not [None], in order. *)
Definition map_phase (tweets : list tweet) : list payload :=
  omap map_geographic_data tweets.

End GeographicReducer.

(** ** Reference definitions, continued *)

Module Reference2.
Import Data.

(** The score of a text before the final clamp. *)
Definition unclamped_score (text : string) : Q :=
  let words := Str.findall_words (Str.lower text) in
  let scores := Sentiment.score_loop words in
  if (length words =? 0)%nat then 0%Q
  else ((fst scores - snd scores) / inject_Z (Z.of_nat (length words)))%Q.

(** The distinct elements of a list, in the order in which they are
    first met. *)
Definition first_seen (l : list string) : list string :=
  foldl (λ acc k, if bool_decide (k ∈ acc) then acc else acc ++ [k]) [] l.

(** The second components of the pairs of [l] whose first component
    is [k], in order. *)
Definition values_of {A} (k : string) (l : list (string * A)) : list A :=
  snd <$> filter (λ p, fst p = k) l.

(** The text of a tweet for the local mappers. *)
Definition tweet_text_field (tw : tweet) : string := get_str (tweet_text tw).

(** The three labels of the sentiment analyzer. *)
Definition is_label (l : string) : Prop :=
  l = "positive" ∨ l = "negative" ∨ l = "neutral".

(** The dictionary built by a loop that updates the entry of the key
    of each element of [l], as [d[key(p)] = step(d[key(p)], p)] on a
    [defaultdict] whose missing values are [dflt]. *)
Definition fold_update {A B} (dflt : A) (step : A → B → A) (key : B → string)
    (l : list B) : Dict.dict A :=
  foldl (λ d p, Dict.update dflt (λ v, step v p) (key p) d) [] l.

(** The two scores after [n] tokens leave room for the next one: they
    are not negative and their sum, with what an intensifier as last
    token lets the next one add beyond 1, is at most [n]. *)
Definition budget (prev : option string) (acc : Q * Q) (n : nat) : Prop :=
  (0 <= fst acc ∧ 0 <= snd acc
   ∧ fst acc + snd acc + 2 * (Reference.weight_after prev - 1)
     <= inject_Z (Z.of_nat n))%Q.

(** The statistics of a day from its records, on exact values. *)
Definition the_daily (sentiments : list SentimentMapper.sentiment_data)
    : SentimentReducer.daily :=
  let labels := SentimentMapper.label <$> sentiments in
  let share (l : string) : Q :=
    Geo.round (Geo.of_nat (Dict.count l labels) / Geo.of_nat (length sentiments) * 100) 2 in
  {| SentimentReducer.average_sentiment :=
       Geo.round (Dict.sum (SentimentMapper.score <$> sentiments)
                  / Geo.of_nat (length sentiments)) 4;
     SentimentReducer.total_tweets := length sentiments;
     SentimentReducer.sentiment_distribution :=
       {| SentimentReducer.positive := Dict.count "positive" labels;
          SentimentReducer.negative := Dict.count "negative" labels;
          SentimentReducer.neutral := Dict.count "neutral" labels |};
     SentimentReducer.sentiment_percentages :=
       {| SentimentReducer.positive_share := share "positive";
          SentimentReducer.negative_share := share "negative";
          SentimentReducer.neutral_share := share "neutral" |} |}.

(** The number of records counted in a day. *)
Definition counted (r : SentimentReducer.daily) : nat :=
  (SentimentReducer.positive (SentimentReducer.sentiment_distribution r)
   + SentimentReducer.negative (SentimentReducer.sentiment_distribution r)
   + SentimentReducer.neutral (SentimentReducer.sentiment_distribution r))%nat.

(** A share is a percentage. *)
Definition is_percentage (x : Q) : Prop := (0 <= x <= 100)%Q.

(** The text in which [extract_themes] looks for keywords. *)
Definition theme_content (tw : tweet) : string :=
  Str.lower (get_str (tweet_text tw)) +:+ " "
  +:+ Str.join " " ((λ h, Str.replace_char "#" "" (Str.lower h)) <$> default [] (hashtags tw)).

(** A keyword of [theme] is a substring of [s]. *)
Definition mentions (theme : string) (s : string) : Prop :=
  ∃ keywords keyword,
    (theme, keywords) ∈ Geo.tech_themes ∧ keyword ∈ keywords
    ∧ Str.contains keyword s = true.

(** The city of a tweet as the geographic mapper looks it up. *)
Definition normal_city (tw : tweet) : string :=
  Str.strip (Str.lower (Reference.city_of tw)).

(** The country and the city of a payload. *)
Definition country_of (p : Geo.payload) : string := Geo.li_country (Geo.p_location p).
Definition city_name (p : Geo.payload) : string := Geo.li_city (Geo.p_location p).

(** The payloads with a given key, in order, and their themes. *)
Definition payloads_with (key : Geo.payload → string) (k : string)
    (mapped_data : list Geo.payload) : list Geo.payload :=
  filter (λ p, key p = k) mapped_data.

Definition themes_with (key : Geo.payload → string) (k : string)
    (mapped_data : list Geo.payload) : list string :=
  concat (Geo.p_themes <$> payloads_with key k mapped_data).

(** The statistics of a country and of a city, from the payloads. *)
Definition the_country_stat (c : string) (mapped_data : list Geo.payload)
    : GeographicReducer.country_stat :=
  let tweets := payloads_with country_of c mapped_data in
  {| GeographicReducer.total_tweets := length tweets;
     GeographicReducer.top_themes :=
       Data.most_common (Some 5%nat) (Data.Counter (themes_with country_of c mapped_data));
     GeographicReducer.cities := list_to_set (city_name <$> tweets);
     GeographicReducer.sample_tweets := Geo.p_tweet_text <$> take 3 tweets |}.

Definition the_city_stat (c : string) (mapped_data : list Geo.payload)
    : GeographicReducer.city_stat :=
  let tweets := payloads_with city_name c mapped_data in
  {| GeographicReducer.country := default "Unknown" (country_of <$> head tweets);
     GeographicReducer.city_total_tweets := length tweets;
     GeographicReducer.city_top_themes :=
       Data.most_common (Some 3%nat) (Data.Counter (themes_with city_name c mapped_data));
     GeographicReducer.coordinates :=
       default [] ((λ p, Geo.li_coordinates (Geo.p_location p)) <$> head tweets) |}.

(** The number of payloads of a month and a country. *)
Definition month_count (month c : string) (mapped_data : list Geo.payload) : Z :=
  Z.of_nat (length (filter (λ p, country_of p = c)
                           (filter (λ p, Geo.p_month p = month) mapped_data))).

(** The count read in the monthly distribution, 0 when there is none. *)
Definition monthly_get (month c : string) (d : Dict.dict (Dict.dict Z)) : Z :=
  default 0 (Dict.get month d ≫= Dict.get c).

(** The themes by country and by city handed to the theme analysis. *)
Definition themes_by (key : Geo.payload → string) (mapped_data : list Geo.payload)
    : Dict.dict (list string) :=
  (λ k, (k, themes_with key k mapped_data)) <$> first_seen (key <$> mapped_data).

(** The value of a decimal numeral read from the left, after [acc]. *)
Fixpoint horner (acc : Z) (d : Decimal.uint) : Z :=
  match d with
  | Decimal.Nil => acc
  | Decimal.D0 l => horner (10 * acc + 0) l
  | Decimal.D1 l => horner (10 * acc + 1) l
  | Decimal.D2 l => horner (10 * acc + 2) l
  | Decimal.D3 l => horner (10 * acc + 3) l
  | Decimal.D4 l => horner (10 * acc + 4) l
  | Decimal.D5 l => horner (10 * acc + 5) l
  | Decimal.D6 l => horner (10 * acc + 6) l
  | Decimal.D7 l => horner (10 * acc + 7) l
  | Decimal.D8 l => horner (10 * acc + 8) l
  | Decimal.D9 l => horner (10 * acc + 9) l
  end.

(** A character that is not white space. *)
Definition nonspace (c : ascii) : bool := negb (Str.isspace c).

(** A line as [print] writes it and [for line in sys.stdin] reads it. *)
Definition with_newline (line : string) : string := line +:+ Reference.NL.



(** Three tweets with a text. *)
Definition three_tweets : list tweet :=
  [Reference.march_tweet; Reference.blank_city_tweet; Reference.iso_march_tweet].

(** The value of the digit at position [i] of a string (0 when there
    is none), of the two digits from [i] on, and of the four. *)
Definition digit_at (s : string) (i : nat) : Z :=
  match String.get i s with
  | Some c => Datetime.digit_value c
  | None => 0
  end.

Definition two_at (s : string) (i : nat) : Z := 10 * digit_at s i + digit_at s (i + 1).

Definition four_at (s : string) (i : nat) : Z :=
  1000 * digit_at s i + 100 * digit_at s (i + 1)
  + 10 * digit_at s (i + 2) + digit_at s (i + 3).

(** The date and time written in a timestamp of the primary format,
    if they are those of a day and an instant. *)
Definition primary_datetime (ts : string) : option Datetime.datetime :=
  Datetime.make (four_at ts 0) (two_at ts 5) (two_at ts 8)
                (two_at ts 11) (two_at ts 14) (two_at ts 17).

(** A line break: the line feed, and the carriage return, which a
    text stream in universal newlines mode reads as one. *)
Definition LF : ascii := ascii_of_N 10.
Definition CR : ascii := ascii_of_N 13.

Definition line_break (c : ascii) : bool :=
  bool_decide (c = LF) || bool_decide (c = CR).

(** A string without line break. *)
Definition one_line (s : string) : bool :=
  Reference.all_chars (λ c, negb (line_break c)) s.

(** The text that a sequence of [print] calls writes to standard
    output. *)
Definition written (prints : list string) : string :=
  foldr (λ p text, p +:+ Reference.NL +:+ text) "" prints.

(** The lines that [for line in sys.stdin] reads from a text: each one
    ends with its line feed, except the last one of a text that does
    not end with a line feed. *)
Fixpoint lines_from (cur text : string) : list string :=
  match text with
  | EmptyString => if Str.is_empty cur then [] else [cur]
  | String c r =>
      if bool_decide (c = LF) then (cur +:+ Reference.NL) :: lines_from "" r
      else lines_from (cur +:+ String c "") r
  end.

Definition readlines (text : string) : list string := lines_from "" text.

(** A string of ASCII characters. *)
Definition is_ascii (s : string) : bool :=
  Reference.all_chars (λ c, (Str.code c <? 128)%N) s.

End Reference2.

(** * Properties *)

(** ** The sentiment analyzer *)

Section SentimentProperties.

Import Sentiment Reference.

Lemma Qgtb_spec (a b : Q) : Qgtb a b = true ↔ (b < a)%Q.
Proof.
  unfold Qgtb. rewrite negb_true_iff, <- not_true_iff_false, Qle_bool_iff.
  split; [apply Qnot_le_lt | apply Qlt_not_le].
Qed.

Lemma Qltb_spec (a b : Q) : Qltb a b = true ↔ (a < b)%Q.
Proof. unfold Qltb. apply (Qgtb_spec b a). Qed.

Lemma Qgtb_false (a b : Q) : Qgtb a b = false ↔ (a <= b)%Q.
Proof.
  unfold Qgtb. rewrite negb_false_iff. apply Qle_bool_iff.
Qed.

Lemma Qltb_false (a b : Q) : Qltb a b = false ↔ (b <= a)%Q.
Proof. unfold Qltb. apply (Qgtb_false b a). Qed.

Lemma clamp_bounds (x : Q) : (-1 <= py_max (-1) (py_min 1 x) <= 1)%Q.
Proof.
  unfold py_max, py_min.
  destruct (Qltb x 1) eqn:H1.
  - apply Qltb_spec in H1.
    destruct (Qgtb x (-1)) eqn:H2.
    + apply Qgtb_spec in H2. split; apply Qlt_le_weak; assumption.
    + split; [apply Qle_refl | discriminate].
  - destruct (Qgtb 1 (-1)) eqn:H2; split; try apply Qle_refl; discriminate.
Qed.

Lemma analyze_sentiment_bounds (text : string) :
  (-1 <= analyze_sentiment text <= 1)%Q.
Proof.
  unfold analyze_sentiment.
  destruct (Str.is_empty text); [split; discriminate |].
  cbv zeta.
  destruct (length (Str.findall_words (Str.lower text)) =? 0)%nat;
    [split; discriminate | apply clamp_bounds].
Qed.

Lemma analyze_sentiment_no_token (text : string) :
  Str.findall_words (Str.lower text) = [] → analyze_sentiment text = 0%Q.
Proof.
  intros H. unfold analyze_sentiment.
  destruct (Str.is_empty text); [reflexivity |].
  cbv zeta. rewrite H. reflexivity.
Qed.


Lemma intensifier_at_last (pre suf : list string) :
  intensifier_at (pre ++ suf) (length pre) = weight_after (last pre).
Proof.
  unfold intensifier_at.
  destruct pre as [|p pre _] using rev_ind; [reflexivity |].
  rewrite length_app, last_snoc. simpl length.
  replace (length pre + 1 - 1)%nat with (length pre) by lia.
  replace (0 <? length pre + 1)%nat with true
    by (symmetry; apply Nat.ltb_lt; lia).
  rewrite <- app_assoc. simpl.
  rewrite lookup_app_r by lia. rewrite Nat.sub_diag. reflexivity.
Qed.

Lemma intensifier_at_succ (words : list string) (i : nat) (p : string) :
  words !! i = Some p →
  intensifier_at words (S i) = if mem p intensifiers then (3 # 2)%Q else 1%Q.
Proof.
  intros H. unfold intensifier_at. simpl. rewrite Nat.sub_0_r, H. reflexivity.
Qed.

Lemma score_step_add_word (words : list string) (acc : Q * Q) (i : nat) (w : string) :
  score_step words acc (i, w) = add_word (intensifier_at words i) acc w.
Proof. reflexivity. Qed.

Lemma score_loop_from (suf pre : list string) (acc : Q * Q) :
  foldl (score_step (pre ++ suf)) acc (imap (λ i x, (length pre + i, x)%nat) suf)
  = scores_from (last pre) acc suf.
Proof.
  revert pre acc. induction suf as [|w r IH]; intros pre acc; [reflexivity |].
  rewrite imap_cons. cbn [foldl scores_from].
  rewrite Nat.add_0_r, score_step_add_word, intensifier_at_last.
  specialize (IH (pre ++ [w]) (add_word (weight_after (last pre)) acc w)).
  rewrite <- app_assoc, last_snoc in IH. simpl in IH.
  rewrite <- IH. f_equal. apply imap_ext. intros i x _. simpl.
  rewrite length_app. simpl. f_equal. lia.
Qed.

Lemma score_loop_scores_from (words : list string) :
  score_loop words = scores_from None (0%Q, 0%Q) words.
Proof.
  unfold score_loop, enumerate.
  exact (score_loop_from words [] (0%Q, 0%Q)).
Qed.

Lemma scores_from_app (l1 l2 : list string) (prev : option string) (acc : Q * Q) :
  scores_from prev acc (l1 ++ l2)
  = scores_from (from_option Some prev (last l1)) (scores_from prev acc l1) l2.
Proof.
  revert prev acc. induction l1 as [|w r IH]; intros prev acc; [reflexivity |].
  cbn [app scores_from]. rewrite IH. f_equal.
  destruct r as [|x r]; [reflexivity |]. rewrite last_cons_cons.
  destruct (last (x :: r)) eqn:E; [reflexivity |].
  apply last_None in E. discriminate.
Qed.

Lemma score_loop_snoc2 (pre : list string) (y w : string) :
  score_loop (pre ++ [y; w])
  = add_word (if mem y intensifiers then (3 # 2)%Q else 1%Q)
             (score_loop (pre ++ [y])) w.
Proof.
  rewrite !score_loop_scores_from.
  change (pre ++ [y; w]) with (pre ++ [y] ++ [w]). rewrite app_assoc.
  rewrite (scores_from_app (pre ++ [y]) [w]), last_snoc. reflexivity.
Qed.

(** C1. The score of every text lies in [[-1, 1]]; the score of the
    empty text, and of a text without word token, is exactly 0. *)
Theorem sentiment_score_in_range :
  (∀ text, (-1 <= analyze_sentiment text <= 1)%Q)
  ∧ analyze_sentiment "" = 0%Q
  ∧ (∀ text, Str.findall_words (Str.lower text) = [] →
             analyze_sentiment text = 0%Q).
Proof.
  split; [exact analyze_sentiment_bounds |].
  split; [reflexivity | exact analyze_sentiment_no_token].
Qed.

Lemma sentiment_score_in_range_witness :
  Str.findall_words (Str.lower "?! ...") = []
  ∧ analyze_sentiment "?! ..." = 0%Q.
Proof.
  split; [reflexivity |].
  apply (proj2 (proj2 sentiment_score_in_range)). reflexivity.
Defined.

(** C4. The label is "positive" exactly for a score above 0.1,
    "negative" exactly for a score below -0.1 and "neutral" for every
    other score; 0.1 itself is "neutral" and 0.1000001 is "positive". *)
Theorem sentiment_label_thresholds :
  (∀ score,
     (get_sentiment_label score = "positive" ↔ (1 # 10 < score)%Q)
     ∧ (get_sentiment_label score = "negative" ↔ (score < - (1 # 10))%Q)
     ∧ (get_sentiment_label score = "neutral"
        ↔ (- (1 # 10) <= score <= 1 # 10)%Q))
  ∧ get_sentiment_label (1 # 10) = "neutral"
  ∧ get_sentiment_label (1000001 # 10000000) = "positive".
Proof.
  split; [| split; reflexivity].
  intros score. unfold get_sentiment_label.
  destruct (Qgtb score (1 # 10)) eqn:Hp.
  - apply Qgtb_spec in Hp.
    split; [tauto |]. split; (split; [discriminate |]).
    + intros Hn. exfalso. apply (Qlt_irrefl score).
      apply Qlt_trans with (- (1 # 10))%Q; [exact Hn |].
      apply Qlt_trans with (1 # 10)%Q; [reflexivity | exact Hp].
    + intros [_ Hle]. exfalso. exact (Qlt_not_le _ _ Hp Hle).
  - apply Qgtb_false in Hp.
    destruct (Qltb score (- (1 # 10))) eqn:Hn.
    + apply Qltb_spec in Hn.
      split; [split; [discriminate | intros H; exfalso; exact (Qlt_not_le _ _ H Hp)] |].
      split; [tauto |]. split; [discriminate |].
      intros [Hge _]. exfalso. exact (Qlt_not_le _ _ Hn Hge).
    + apply Qltb_false in Hn.
      split; [split; [discriminate | intros H; exfalso; exact (Qlt_not_le _ _ H Hp)] |].
      split; [split; [discriminate | intros H; exfalso; exact (Qlt_not_le _ _ H Hn)] |].
      tauto.
Qed.

(** C5. The weight of a token is read from the single token before
    it: the scores of the loop are those of a pass that remembers the
    previous token only; the weight is 1.0 at the first token and, at
    every later one, 1.5 exactly when the token just before is an
    intensifier; so a word that follows a non-intensifier adds weight
    1.0 to its score, whatever stands two or more positions before. *)
Theorem intensifier_applies_to_next_token_only :
  (∀ words, score_loop words = scores_from None (0%Q, 0%Q) words)
  ∧ (∀ words, intensifier_at words 0 = 1%Q)
  ∧ (∀ words i p, words !! i = Some p →
       intensifier_at words (S i)
       = if mem p intensifiers then (3 # 2)%Q else 1%Q)
  ∧ (∀ pre y w,
       score_loop (pre ++ [y; w])
       = add_word (if mem y intensifiers then (3 # 2)%Q else 1%Q)
                  (score_loop (pre ++ [y])) w)
  ∧ (∀ pre x y w post,
       mem x intensifiers = true → mem y intensifiers = false →
       intensifier_at (pre ++ x :: y :: w :: post) (length pre + 2) = 1%Q).
Proof.
  split; [exact score_loop_scores_from |].
  split; [reflexivity |].
  split; [exact intensifier_at_succ |].
  split; [exact score_loop_snoc2 |].
  intros pre x y w post _ Hy.
  replace (length pre + 2)%nat with (S (length (pre ++ [x]))) at 1
    by (rewrite length_app; simpl; lia).
  rewrite (intensifier_at_succ _ _ y), Hy; [reflexivity |].
  change (pre ++ x :: y :: w :: post) with (pre ++ [x] ++ y :: w :: post).
  rewrite app_assoc, lookup_app_r by lia.
  rewrite Nat.sub_diag. reflexivity.
Qed.

Lemma intensifier_applies_to_next_token_only_witness :
  intensifier_at ["very"; "big"; "good"] 2 = 1%Q
  ∧ score_loop ["very"; "big"; "good"] = (0 + 1, 0)%Q.
Proof.
  split.
  - apply (proj2 (proj2 (proj2 (proj2 intensifier_applies_to_next_token_only)))
             [] "very" "big" "good" []); vm_compute; reflexivity.
  - vm_compute. reflexivity.
Defined.

End SentimentProperties.

(** ** Strings *)

Section StringFacts.
Import Str Reference.

Lemma lower_char_isspace (c : ascii) : isspace (lower_char c) = isspace c.
Proof. destruct c as [[] [] [] [] [] [] [] []]; reflexivity. Qed.

Lemma lower_char_idem (c : ascii) : lower_char (lower_char c) = lower_char c.
Proof. destruct c as [[] [] [] [] [] [] [] []]; reflexivity. Qed.

Lemma lower_char_hash (c : ascii) :
  bool_decide (lower_char c = "#"%char) = bool_decide (c = "#"%char).
Proof. destruct c as [[] [] [] [] [] [] [] []]; reflexivity. Qed.

Lemma lower_idem (s : string) : lower (lower s) = lower s.
Proof. induction s as [|c r IH]; simpl; [reflexivity |]. by rewrite lower_char_idem, IH. Qed.

Lemma lower_length (s : string) : String.length (lower s) = String.length s.
Proof. induction s as [|c r IH]; simpl; [reflexivity |]. by rewrite IH. Qed.

Lemma lower_empty (s : string) : is_empty (lower s) = is_empty s.
Proof. by destruct s. Qed.

Lemma lower_lstrip (s : string) : lower (lstrip s) = lstrip (lower s).
Proof.
  induction s as [|c r IH]; simpl; [reflexivity |].
  rewrite lower_char_isspace. by destruct (isspace c).
Qed.

Lemma lower_rstrip (s : string) : lower (rstrip s) = rstrip (lower s).
Proof.
  induction s as [|c r IH]; simpl; [reflexivity |].
  rewrite <- IH, lower_char_isspace.
  destruct (rstrip r); simpl; [by destruct (isspace c) | reflexivity].
Qed.

Lemma lower_strip (s : string) : lower (strip s) = strip (lower s).
Proof. unfold strip. by rewrite lower_rstrip, lower_lstrip. Qed.

Lemma lower_tail (s : string) : lower (tail s) = tail (lower s).
Proof. by destruct s. Qed.

Lemma lstrip_leading (s : string) : leading_space (lstrip s) = false.
Proof.
  induction s as [|c r IH]; simpl; [reflexivity |].
  destruct (isspace c) eqn:E; [exact IH | exact E].
Qed.

Lemma lstrip_id (s : string) : leading_space s = false → lstrip s = s.
Proof. destruct s as [|c r]; simpl; [reflexivity |]. by intros ->. Qed.

Lemma lstrip_length (s : string) : (String.length (lstrip s) <= String.length s)%nat.
Proof.
  induction s as [|c r IH]; simpl; [lia |]. destruct (isspace c); simpl; lia.
Qed.

Lemma lstrip_shorter (s : string) :
  leading_space s = true → (String.length (lstrip s) < String.length s)%nat.
Proof.
  destruct s as [|c r]; simpl; [discriminate |]. intros ->.
  pose proof (lstrip_length r). lia.
Qed.

Lemma rstrip_length (s : string) : (String.length (rstrip s) <= String.length s)%nat.
Proof.
  induction s as [|c r IH]; simpl; [lia |].
  destruct (rstrip r); [destruct (isspace c) |]; simpl in *; lia.
Qed.

Lemma rstrip_idem (s : string) : rstrip (rstrip s) = rstrip s.
Proof.
  induction s as [|c r IH]; simpl; [reflexivity |].
  destruct (rstrip r) as [|d r'] eqn:E.
  - destruct (isspace c) eqn:Ec; simpl; [reflexivity | by rewrite Ec].
  - change (rstrip (String c (String d r'))) with
      (match rstrip (String d r') with
       | EmptyString => if isspace c then EmptyString else String c EmptyString
       | x => String c x
       end).
    by rewrite IH.
Qed.

Lemma rstrip_leading (s : string) :
  leading_space s = false → leading_space (rstrip s) = false.
Proof.
  destruct s as [|c r]; simpl; [reflexivity |]. intros E.
  destruct (rstrip r); [rewrite E |]; exact E.
Qed.

Lemma rstrip_fixed_tail (s : string) : rstrip s = s → rstrip (tail s) = tail s.
Proof.
  destruct s as [|c r]; simpl; [reflexivity |].
  destruct (rstrip r) as [|d r'] eqn:E.
  - destruct (isspace c); [discriminate |]. intros H. injection H as <-. reflexivity.
  - intros H. by injection H.
Qed.

Lemma strip_rstrip (s : string) : rstrip (strip s) = strip s.
Proof. apply rstrip_idem. Qed.

Lemma strip_empty_lower (s : string) : is_empty (strip (lower s)) = is_empty (strip s).
Proof. by rewrite <- lower_strip, lower_empty. Qed.

End StringFacts.

(** ** Hashtags *)

Section HashtagNormalization.
Import Str Hashtag Reference.

Lemma clean_hashtag_length_tail (s : string) :
  starts_with_char "#" s = true → tail s ≠ s.
Proof.
  destruct s as [|c r]; simpl; [discriminate |]. intros _ H.
  apply (f_equal String.length) in H. simpl in H. lia.
Qed.

(** The cleaned form of a hashtag is in lower case and has no white
    space at its end. *)
Lemma clean_hashtag_lower (s : string) : lower (clean_hashtag s) = clean_hashtag s.
Proof.
  unfold clean_hashtag.
  destruct (starts_with_char "#" (lower (strip s)));
    [rewrite lower_tail |]; by rewrite lower_idem.
Qed.

Lemma clean_hashtag_rstrip (s : string) : rstrip (clean_hashtag s) = clean_hashtag s.
Proof.
  unfold clean_hashtag.
  assert (H : rstrip (lower (strip s)) = lower (strip s))
    by (by rewrite <- lower_rstrip, strip_rstrip).
  destruct (starts_with_char "#" (lower (strip s))); [by apply rstrip_fixed_tail | exact H].
Qed.

Lemma clean_hashtag_length (s : string) :
  (String.length (clean_hashtag s) <= String.length (lstrip s))%nat.
Proof.
  unfold clean_hashtag.
  pose proof (rstrip_length (lstrip s)) as H.
  assert (H' : (String.length (tail (lower (strip s))) <= String.length (lower (strip s)))%nat)
    by (destruct (lower (strip s)); simpl; lia).
  rewrite lower_length in H'. fold (strip s) in H.
  destruct (starts_with_char "#" (lower (strip s))); [| rewrite lower_length]; lia.
Qed.

Lemma clean_hashtag_idempotent_iff (s : string) :
  clean_hashtag (clean_hashtag s) = clean_hashtag s
  ↔ starts_with_char "#" (clean_hashtag s) = false
    ∧ leading_space (clean_hashtag s) = false.
Proof.
  pose proof (clean_hashtag_lower s) as Hl.
  pose proof (clean_hashtag_rstrip s) as Hr.
  set (n := clean_hashtag s) in *.
  destruct (leading_space n) eqn:Hsp.
  - split; [| intros [_ ?]; discriminate].
    intros H. exfalso.
    pose proof (clean_hashtag_length n) as H1.
    pose proof (lstrip_shorter n Hsp) as H2.
    rewrite H in H1. lia.
  - assert (Hstrip : strip n = n) by (unfold strip; by rewrite (lstrip_id n Hsp)).
    assert (Hn : clean_hashtag n = if starts_with_char "#" n then tail n else n)
      by (unfold clean_hashtag; by rewrite Hstrip, Hl).
    rewrite Hn. destruct (starts_with_char "#" n) eqn:Hh.
    + split; [| intros [? _]; discriminate].
      intros H. exfalso. exact (clean_hashtag_length_tail n Hh H).
    + split; [split; reflexivity | reflexivity].
Qed.

(** C2, as stated, fails: a tag with two leading [#] loses one of them
    at each cleaning. *)
Lemma clean_hashtag_not_idempotent :
  clean_hashtag "##ai" = "#ai"
  ∧ clean_hashtag (clean_hashtag "##ai") = "ai"
  ∧ clean_hashtag (clean_hashtag "##ai") ≠ clean_hashtag "##ai".
Proof. split; [reflexivity |]. split; [reflexivity | discriminate]. Qed.

(** C2, amended. Cleaning a cleaned hashtag returns it unchanged
    exactly when the cleaned hashtag begins neither with [#] nor with
    white space; "#AI", "ai" and " AI " are all cleaned to "ai". *)
Theorem clean_hashtag_idempotent_amended :
  (∀ s, clean_hashtag (clean_hashtag s) = clean_hashtag s
        ↔ starts_with_char "#" (clean_hashtag s) = false
          ∧ leading_space (clean_hashtag s) = false)
  ∧ clean_hashtag "#AI" = "ai"
  ∧ clean_hashtag "ai" = "ai"
  ∧ clean_hashtag " AI " = "ai".
Proof.
  split; [exact clean_hashtag_idempotent_iff |].
  split; [reflexivity |]. split; reflexivity.
Qed.

Lemma clean_hashtag_idempotent_amended_witness :
  clean_hashtag (clean_hashtag " #AI ") = clean_hashtag " #AI ".
Proof.
  apply (proj1 clean_hashtag_idempotent_amended " #AI ").
  split; reflexivity.
Defined.

End HashtagNormalization.

(** ** Counters and the stable sort *)

Section Containers.
Import Data Hashtag Reference.

(** *** The stable sort *)

Section StableSort.
Context {A : Type} (lt : A → A → bool) (P : relation A).
Hypothesis lt_asym : ∀ x y, lt x y = true → lt y x = false.
Hypothesis lt_negtrans : ∀ x y z, lt x y = false → lt y z = false → lt x z = false.

Lemma insert_by_perm (x : A) (l : list A) : insert_by lt x l ≡ₚ x :: l.
Proof.
  induction l as [|y r IH]; simpl; [reflexivity |].
  destruct (lt x y); [| reflexivity].
  rewrite IH. apply Permutation_swap.
Qed.

Lemma sorted_reverse_perm (l : list A) : sorted_reverse lt l ≡ₚ l.
Proof.
  induction l as [|x r IH]; simpl; [reflexivity |].
  by rewrite insert_by_perm, IH.
Qed.

Lemma insert_by_sorted (x : A) (l : list A) :
  Forall (P x) l → StronglySorted (stable_desc lt P) l →
  StronglySorted (stable_desc lt P) (insert_by lt x l).
Proof.
  induction l as [|y r IH]; intros HP Hs; simpl.
  - repeat constructor.
  - apply Forall_cons in HP as [HPy HPr].
    apply StronglySorted_cons in Hs as [Hy Hr].
    destruct (lt x y) eqn:E.
    + apply StronglySorted_cons. split; [| by apply IH].
      rewrite (insert_by_perm x r). constructor; [| exact Hy].
      split; [by apply lt_asym | intros E'; congruence].
    + apply StronglySorted_cons. split; [| by apply StronglySorted_cons].
      constructor; [split; [exact E | intros _; exact HPy] |].
      rewrite Forall_forall in Hy, HPr |- *. intros z Hz.
      split; [| intros _; by apply HPr].
      apply (lt_negtrans x y z E). by apply Hy.
Qed.

Lemma sorted_reverse_stable (l : list A) :
  StronglySorted P l → StronglySorted (stable_desc lt P) (sorted_reverse lt l).
Proof.
  induction l as [|x r IH]; intros Hs; simpl; [constructor |].
  apply StronglySorted_cons in Hs as [Hx Hr].
  apply insert_by_sorted; [| by apply IH].
  by rewrite sorted_reverse_perm.
Qed.

End StableSort.

Lemma StronglySorted_weaken {A} (R R' : relation A) (l : list A) :
  (∀ a b, a ∈ l → b ∈ l → R a b → R' a b) →
  StronglySorted R l → StronglySorted R' l.
Proof.
  induction l as [|x r IH]; intros H Hs; [constructor |].
  apply StronglySorted_cons in Hs as [Hx Hr].
  apply StronglySorted_cons. split.
  - rewrite Forall_forall in Hx |- *. intros y Hy.
    apply H; [left | by right | by apply Hx].
  - apply IH; [| exact Hr]. intros a b Ha Hb. apply H; by right.
Qed.

Lemma StronglySorted_take {A} (R : relation A) (n : nat) (l : list A) :
  StronglySorted R l → StronglySorted R (take n l).
Proof.
  intros H. rewrite <- (take_drop n l) in H.
  by apply StronglySorted_app_1_l in H.
Qed.

Lemma count_lt_asym (x y : string * Z) : count_lt x y = true → count_lt y x = false.
Proof. unfold count_lt. lia. Qed.

Lemma count_lt_negtrans (x y z : string * Z) :
  count_lt x y = false → count_lt y z = false → count_lt x z = false.
Proof. unfold count_lt. lia. Qed.

Lemma most_common_subseteq (n : option nat) (c : counter) : most_common n c ⊆ c.
Proof.
  intros x Hx. destruct n as [n|]; simpl in Hx.
  - apply subseteq_take in Hx. by rewrite sorted_reverse_perm in Hx.
  - by rewrite sorted_reverse_perm in Hx.
Qed.

Lemma most_common_all (c : counter) : most_common None c ≡ₚ c.
Proof. apply sorted_reverse_perm. Qed.

Lemma most_common_sorted (P : relation (string * Z)) (n : option nat) (c : counter) :
  StronglySorted P c →
  StronglySorted (stable_desc count_lt P) (most_common n c).
Proof.
  intros H.
  pose proof (sorted_reverse_stable count_lt P count_lt_asym count_lt_negtrans c H).
  destruct n; simpl; [by apply StronglySorted_take | done].
Qed.

(** *** Counters *)

Lemma counter_get_add (k k' : string) (n : Z) (c : counter) :
  counter_get k' (counter_add k n c)
  = if bool_decide (k = k') then counter_get k' c + n else counter_get k' c.
Proof.
  induction c as [|[h m] r IH]; simpl.
  - repeat case_bool_decide; congruence || lia.
  - destruct (bool_decide (h = k)) eqn:E; simpl.
    + apply bool_decide_eq_true in E as ->. repeat case_bool_decide; congruence.
    + apply bool_decide_eq_false in E.
      destruct (bool_decide (h = k')) eqn:E'; [| exact IH].
      apply bool_decide_eq_true in E' as ->. by rewrite bool_decide_false.
Qed.

Lemma counter_add_elem (k : string) (n : Z) (c : counter) (a : string * Z) :
  a ∈ counter_add k n c → fst a ∈ c.*1 ∨ fst a = k.
Proof.
  induction c as [|[h m] r IH]; simpl.
  - intros ->%list_elem_of_singleton. by right.
  - destruct (bool_decide (h = k)) eqn:E.
    + intros [-> | H]%elem_of_cons; left; [left | right; by apply (list_elem_of_fmap_2 fst)].
    + intros [-> | H]%elem_of_cons; [left; left |].
      destruct (IH H) as [H' | H']; [left; by right | by right].
Qed.

Lemma counter_add_keys (k : string) (n : Z) (c : counter) (h : string) :
  h ∈ (counter_add k n c).*1 ↔ h ∈ c.*1 ∨ h = k.
Proof.
  induction c as [|[h' m] r IH]; simpl.
  - rewrite list_elem_of_singleton.
    split; [by right | intros [H | H]; [by apply elem_of_nil in H | done]].
  - destruct (bool_decide (h' = k)) eqn:E; simpl.
    + apply bool_decide_eq_true in E as ->. rewrite elem_of_cons. tauto.
    + rewrite !elem_of_cons, IH. tauto.
Qed.

Lemma counter_add_sorted (Rk : relation string) (k : string) (n : Z) (c : counter) :
  StronglySorted (on_keys Rk) c →
  (k ∉ c.*1 → ∀ h, h ∈ c.*1 → Rk h k) →
  StronglySorted (on_keys Rk) (counter_add k n c).
Proof.
  induction c as [|[h m] r IH]; intros Hs Hk; simpl.
  - repeat constructor.
  - apply StronglySorted_cons in Hs as [Hh Hr].
    destruct (bool_decide (h = k)) eqn:E.
    + apply StronglySorted_cons. split; [exact Hh | exact Hr].
    + apply bool_decide_eq_false in E.
      apply StronglySorted_cons. split.
      * rewrite Forall_forall in Hh |- *. intros a Ha.
        destruct (counter_add_elem _ _ _ _ Ha) as [H | H].
        -- apply list_elem_of_fmap in H as (b & Hb & Hin).
           unfold on_keys. rewrite Hb. by apply (Hh b).
        -- unfold on_keys. rewrite H. simpl.
           destruct (decide (k ∈ r.*1)) as [Hin | Hout].
           ++ apply list_elem_of_fmap in Hin as (b & Hb & Hin).
              rewrite Hb. by apply (Hh b).
           ++ apply Hk; [| left]. simpl. rewrite not_elem_of_cons. split; [congruence | exact Hout].
      * apply IH; [exact Hr |]. intros Hout h' Hh'. apply Hk; [| by right].
        simpl. rewrite not_elem_of_cons. split; [congruence | exact Hout].
Qed.

Lemma first_index_lt (h : string) (l : list string) :
  h ∈ l ↔ (first_index h l < length l)%nat.
Proof.
  induction l as [|x r IH]; simpl.
  - split; [intros H; by apply elem_of_nil in H | lia].
  - case_bool_decide as E; [subst; split; [lia | left] |].
    rewrite elem_of_cons, IH. split; [intros [? | ?]; [congruence | lia] | right; lia].
Qed.

Lemma first_index_app (h : string) (l k : list string) :
  h ∈ l → first_index h (l ++ k) = first_index h l.
Proof.
  induction l as [|x r IH]; simpl; [intros H; by apply elem_of_nil in H |].
  case_bool_decide; [done |]. intros [? | ?]%elem_of_cons; [congruence |]. by rewrite IH.
Qed.

Lemma first_index_app_new (h : string) (l : list string) :
  h ∉ l → first_index h (l ++ [h]) = length l.
Proof.
  induction l as [|x r IH]; simpl; intros H.
  - by rewrite bool_decide_true.
  - apply not_elem_of_cons in H as [H1 H2].
    rewrite bool_decide_false by congruence. by rewrite IH.
Qed.

Lemma Counter_snoc (l : list string) (x : string) :
  Counter (l ++ [x]) = counter_add x 1 (Counter l).
Proof. unfold Counter. by rewrite foldl_snoc. Qed.

Lemma Counter_keys (l : list string) (h : string) : h ∈ (Counter l).*1 ↔ h ∈ l.
Proof.
  induction l as [|x r IH] using rev_ind; [done |].
  rewrite Counter_snoc, counter_add_keys, IH, elem_of_app, list_elem_of_singleton.
  done.
Qed.

Lemma Counter_sorted (l : list string) :
  StronglySorted (on_keys (met_before l)) (Counter l).
Proof.
  induction l as [|x r IH] using rev_ind; [constructor |].
  rewrite Counter_snoc. apply counter_add_sorted.
  - apply (StronglySorted_weaken (on_keys (met_before r))); [| exact IH].
    intros a b Ha Hb. unfold on_keys, met_before.
    rewrite !first_index_app; [done | |];
      apply (proj1 (Counter_keys r _)); by apply (list_elem_of_fmap_2 fst).
  - intros Hx h Hh. apply (proj1 (Counter_keys r _)) in Hh. unfold met_before.
    rewrite (first_index_app h r [x] Hh).
    rewrite first_index_app_new; [by apply first_index_lt |].
    intros H. apply Hx. by apply Counter_keys.
Qed.

Lemma sorted_on_keys_get (l : list string) (c : counter) (a : string * Z) :
  StronglySorted (on_keys (met_before l)) c → a ∈ c → counter_get (fst a) c = snd a.
Proof.
  induction c as [|[h m] r IH]; intros Hs Ha; [by apply elem_of_nil in Ha |].
  apply StronglySorted_cons in Hs as [Hh Hr]. simpl.
  apply elem_of_cons in Ha as [-> | Ha]; [by rewrite bool_decide_true |].
  rewrite bool_decide_false; [by apply IH |].
  rewrite Forall_forall in Hh. specialize (Hh a Ha).
  unfold on_keys, met_before in Hh. simpl in Hh. intros ->. lia.
Qed.

Lemma occurrences_snoc (h x : string) (l : list string) :
  occurrences h (l ++ [x])
  = if bool_decide (x = h) then occurrences h l + 1 else occurrences h l.
Proof.
  unfold occurrences. rewrite filter_app, length_app.
  rewrite filter_cons, filter_nil. case_bool_decide as E.
  - rewrite decide_True by done. simpl. lia.
  - rewrite decide_False by done. simpl. lia.
Qed.

Lemma Counter_get (l : list string) (h : string) :
  counter_get h (Counter l) = occurrences h l.
Proof.
  induction l as [|x r IH] using rev_ind; [reflexivity |].
  by rewrite Counter_snoc, counter_get_add, occurrences_snoc, IH.
Qed.

Lemma occurrences_pos (h : string) (l : list string) : h ∈ l ↔ 0 < occurrences h l.
Proof.
  unfold occurrences. split.
  - intros H. assert (H' : h ∈ filter (λ x, x = h) l) by (by apply list_elem_of_filter).
    destruct (filter (λ x, x = h) l); [by apply elem_of_nil in H' | simpl; lia].
  - intros H. destruct (filter (λ x, x = h) l) as [|y r] eqn:E; [simpl in H; lia |].
    assert (H' : y ∈ filter (λ x, x = h) l) by (rewrite E; left).
    apply list_elem_of_filter in H' as [-> H']. exact H'.
Qed.

(** The entries of [Counter(l)]: each element of [l] once, with the
    number of times it occurs. *)
Lemma Counter_entries (l : list string) (a : string * Z) :
  a ∈ Counter l → fst a ∈ l ∧ snd a = occurrences (fst a) l.
Proof.
  intros Ha. split.
  - apply Counter_keys. by apply (list_elem_of_fmap_2 fst).
  - rewrite <- Counter_get. symmetry.
    apply (sorted_on_keys_get l); [apply Counter_sorted | exact Ha].
Qed.

End Containers.

Section HashtagReducer.
Import Data Hashtag Reference.

Lemma hashtags_of_snoc (month : string) (md : list (string * string)) (p : string * string) :
  hashtags_of month (md ++ [p])
  = if bool_decide (fst p = month) then hashtags_of month md ++ [snd p]
    else hashtags_of month md.
Proof.
  unfold hashtags_of. rewrite filter_app, fmap_app, filter_cons, filter_nil.
  case_bool_decide.
  - by rewrite decide_True.
  - rewrite decide_False by done. by rewrite app_nil_r.
Qed.

Lemma group_by_month_snoc (md : list (string * string)) (p : string * string) :
  group_by_month (md ++ [p])
  = <[fst p := default [] (group_by_month md !! fst p) ++ [snd p]]> (group_by_month md).
Proof. unfold group_by_month. by rewrite foldl_snoc. Qed.

Lemma group_by_month_lookup (md : list (string * string)) (month : string) :
  group_by_month md !! month
  = if bool_decide (hashtags_of month md = []) then None
    else Some (hashtags_of month md).
Proof.
  induction md as [|p r IH] using rev_ind; [reflexivity |].
  rewrite group_by_month_snoc, hashtags_of_snoc.
  destruct (bool_decide (fst p = month)) eqn:E.
  - apply bool_decide_eq_true in E as <-. rewrite lookup_insert_eq.
    rewrite bool_decide_false by (by destruct (hashtags_of (fst p) r)).
    rewrite IH. by case_bool_decide as E; [rewrite E |].
  - apply bool_decide_eq_false in E. by rewrite lookup_insert_ne.
Qed.

Lemma hashtags_of_nil (month : string) (md : list (string * string)) :
  hashtags_of month md = [] ↔ month ∉ md.*1.
Proof.
  unfold hashtags_of. split.
  - intros H%fmap_nil_inv Hin. apply list_elem_of_fmap in Hin as (p & -> & Hp).
    assert (H' : p ∈ filter (λ q, fst q = fst p) md) by (by apply list_elem_of_filter).
    rewrite H in H'. by apply elem_of_nil in H'.
  - intros H. destruct (filter (λ p, fst p = month) md) as [|p r] eqn:E; [done |].
    exfalso. apply H.
    assert (H' : p ∈ filter (λ q, fst q = month) md) by (rewrite E; left).
    apply list_elem_of_filter in H' as [<- H']. by apply (list_elem_of_fmap_2 fst).
Qed.

Lemma reduce_hashtags_lookup (md : list (string * string)) (month : string) :
  reduce_hashtags md !! month
  = if bool_decide (month ∈ md.*1)
    then Some (most_common (Some 10%nat) (Counter (hashtags_of month md)))
    else None.
Proof.
  unfold reduce_hashtags. rewrite lookup_fmap, group_by_month_lookup.
  case_bool_decide as E.
  - apply hashtags_of_nil in E. by rewrite bool_decide_false.
  - rewrite bool_decide_true; [done |].
    destruct (decide (month ∈ md.*1)) as [H | H]; [done |].
    by apply hashtags_of_nil in H.
Qed.

Lemma most_common_ranked (n : option nat) (tags : list string) :
  StronglySorted (ranked_before tags) (most_common n (Counter tags)).
Proof.
  apply (StronglySorted_weaken
           (stable_desc count_lt (on_keys (met_before tags)))).
  - intros a b _ _ [H1 H2]. unfold ranked_before, count_lt in *.
    destruct (decide (snd b < snd a)) as [H | H]; [by left | right].
    assert (Heq : snd a = snd b) by lia. split; [exact Heq |].
    apply H2. lia.
  - apply most_common_sorted, Counter_sorted.
Qed.

(** C6. The aggregate has an entry for exactly the months of the input;
    the entry of a month lists at most 10 hashtags of that month, each
    with the number of its occurrences in the month, by decreasing
    count, and among equal counts in the order in which the hashtags
    were first met in the month. *)
Theorem reduce_hashtags_top10 (mapped_data : list (string * string)) (month : string) :
  (is_Some (reduce_hashtags mapped_data !! month) ↔ month ∈ mapped_data.*1)
  ∧ (∀ top, reduce_hashtags mapped_data !! month = Some top →
       (length top <= 10)%nat
       ∧ StronglySorted (ranked_before (hashtags_of month mapped_data)) top
       ∧ Forall (λ hc, fst hc ∈ hashtags_of month mapped_data
                       ∧ snd hc = occurrences (fst hc) (hashtags_of month mapped_data))
                top).
Proof.
  rewrite reduce_hashtags_lookup. split.
  - case_bool_decide; [by split; [| eexists] | split; [by intros [? ?] | done]].
  - intros top. case_bool_decide; [| done]. intros [= <-].
    split; [simpl; rewrite length_take; lia |].
    split; [exact (most_common_ranked (Some 10%nat) _) |].
    apply Forall_forall. intros a Ha.
    apply Counter_entries. by apply (most_common_subseteq (Some 10%nat)).
Qed.

Lemma reduce_hashtags_top10_witness :
  reduce_hashtags [("2024-03", "ai"); ("2024-04", "x"); ("2024-03", "ml");
                   ("2024-03", "ai"); ("2024-03", "go")] !! "2024-03"
  = Some [("ai", 2); ("ml", 1); ("go", 1)]
  ∧ (length [("ai", 2); ("ml", 1); ("go", 1)] <= 10)%nat
  ∧ StronglySorted (ranked_before ["ai"; "ml"; "ai"; "go"])
                   [("ai", 2); ("ml", 1); ("go", 1)].
Proof.
  split; [vm_compute; reflexivity |].
  pose proof (proj2 (reduce_hashtags_top10
                [("2024-03", "ai"); ("2024-04", "x"); ("2024-03", "ml");
                 ("2024-03", "ai"); ("2024-03", "go")] "2024-03")
                [("ai", 2); ("ml", 1); ("go", 1)]) as H.
  destruct H as (H1 & H2 & _); [vm_compute; reflexivity |].
  split; [exact H1 | exact H2].
Defined.

End HashtagReducer.

(** ** The geographic classifier *)

Section GeographicMapper.
Import Data Geo Reference.

Lemma is_empty_true (s : string) : Str.is_empty s = true ↔ s = "".
Proof. destruct s; simpl; split; congruence. Qed.

Lemma strip_lower_empty (s : string) :
  Str.is_empty (Str.strip (Str.lower s)) = Str.is_empty (Str.strip s).
Proof. apply strip_empty_lower. Qed.

Lemma extract_location_info_none (tw : tweet) :
  extract_location_info tw = None ↔ Str.strip (city_of tw) = "".
Proof.
  unfold extract_location_info, city_of.
  destruct (tweet_location tw) as [l|]; [| done].
  destruct (location_is_empty l) eqn:E.
  - unfold location_is_empty in E. destruct (city l); [done |]. done.
  - rewrite strip_lower_empty, <- is_empty_true.
    by destruct (Str.is_empty (Str.strip (get_str (city l)))).
Qed.

Lemma map_geographic_data_none (tw : tweet) :
  map_geographic_data tw = None ↔ Str.strip (city_of tw) = "".
Proof.
  rewrite <- extract_location_info_none. unfold map_geographic_data.
  by destruct (extract_location_info tw).
Qed.

Lemma map_geographic_data_unknown (tw : tweet) :
  Str.strip (city_of tw) ≠ "" →
  Datetime.strptime_ymd_hms (get_str (timestamp tw)) = None →
  ∃ p, map_geographic_data tw = Some p ∧ p_month p = "unknown".
Proof.
  intros Hc Ht. rewrite <- extract_location_info_none in Hc.
  unfold map_geographic_data.
  destruct (extract_location_info tw) as [li|]; [| done].
  rewrite Ht. eexists. split; reflexivity.
Qed.

(** C7, as stated, fails: a city made of white space is not empty, and
    the record is dropped all the same. *)
Lemma blank_city_is_dropped :
  city_of blank_city_tweet = " "
  ∧ city_of blank_city_tweet ≠ ""
  ∧ Datetime.strptime_ymd_hms (get_str (timestamp blank_city_tweet)) = None
  ∧ map_geographic_data blank_city_tweet = None.
Proof.
  split; [reflexivity |]. split; [discriminate |]. split; reflexivity.
Qed.

(** C7, amended. The classifier returns nothing exactly when the city
    is absent, empty or made of white space only; for a city with
    another character and a timestamp that is missing or does not
    parse, it returns a payload whose month is "unknown". *)
Theorem geographic_payload_iff_city :
  (∀ tw, map_geographic_data tw = None ↔ Str.strip (city_of tw) = "")
  ∧ (∀ tw, Str.strip (city_of tw) ≠ "" →
           Datetime.strptime_ymd_hms (get_str (timestamp tw)) = None →
           ∃ p, map_geographic_data tw = Some p ∧ p_month p = "unknown").
Proof.
  split; [exact map_geographic_data_none | exact map_geographic_data_unknown].
Qed.

Lemma geographic_payload_iff_city_witness :
  ∃ p, map_geographic_data undated_paris_tweet = Some p ∧ p_month p = "unknown".
Proof.
  apply (proj2 geographic_payload_iff_city undated_paris_tweet);
    [discriminate | reflexivity].
Defined.

End GeographicMapper.

(** ** The streaming mapper *)

Section StreamingMapper.
Import Data Streaming Reference.
Variable format_float : Q → string.

Lemma tweet_text_of_empty (tw : tweet) :
  tweet_text_of tw = ""
  ↔ get_str (tweet_text tw) = "" ∧ get_str (text tw) = "" ∧ get_str (full_text tw) = "".
Proof.
  unfold tweet_text_of, str_or.
  destruct (get_str (tweet_text tw)), (get_str (text tw)), (get_str (full_text tw));
    simpl; split; try done; intros (? & ? & ?); done.
Qed.

Lemma map_tweet_empty_text (env : option string) (tw : tweet) :
  tweet_text_of tw = "" → map_tweet format_float env tw = [].
Proof. intros H. unfold map_tweet. by rewrite H. Qed.

Lemma mapper_combined_cons (env : option string) (tw : tweet) (l : list tweet) :
  mapper_combined format_float env (tw :: l)
  = map_tweet format_float env tw ++ mapper_combined format_float env l.
Proof. reflexivity. Qed.

Lemma mapper_combined_has_text (env : option string) (l : list tweet) :
  mapper_combined format_float env l
  = mapper_combined format_float env (filter has_text l).
Proof.
  induction l as [|tw r IH]; [reflexivity |].
  rewrite mapper_combined_cons, filter_cons.
  destruct (decide (has_text tw)) as [H | H].
  - by rewrite mapper_combined_cons, IH.
  - rewrite map_tweet_empty_text; [exact IH |].
    unfold has_text in H. by destruct (decide (tweet_text_of tw = "")).
Qed.

(** *** The period key *)

Lemma has_shape_all_chars (Q : ascii → bool) (shape : list (ascii → bool)) (s : string) :
  Forall (λ p, ∀ c, p c = true → Q c = true) shape →
  has_shape shape s = true → all_chars Q s = true.
Proof.
  intros HQ. revert s. induction HQ as [|p shape Hp _ IH]; intros [|c r]; simpl; try done.
  intros [H1 H2]%andb_true_iff. rewrite (Hp c H1). by apply IH.
Qed.

Lemma contains_char_false (c : ascii) (s : string) :
  all_chars (λ d, negb (bool_decide (c = d))) s = true →
  Str.contains (String c EmptyString) s = false.
Proof.
  induction s as [|d r IH]; simpl; [done |].
  intros [H1 H2]%andb_true_iff. rewrite (IH H2).
  apply negb_true_iff in H1. rewrite H1. reflexivity.
Qed.

Lemma primary_shape_no_T (s : string) :
  has_shape primary_shape s = true → Str.contains "T" s = false.
Proof.
  intros H. apply contains_char_false.
  apply (has_shape_all_chars _ primary_shape); [| exact H].
  unfold primary_shape.
  repeat (apply Forall_cons; split;
          [intros c Hc; apply negb_true_iff, bool_decide_eq_false;
           first [ intros <-; discriminate Hc
                 | unfold is_char in Hc; apply bool_decide_eq_true in Hc; by subst ] |]).
  apply Forall_nil_2.
Qed.

Lemma re_a_digit (c : ascii) (r : string) :
  Str.isdigit c = true → Datetime.re_a (String c r) = [].
Proof.
  intros H. destruct c as [[] [] [] [] [] [] [] []]; try discriminate H; reflexivity.
Qed.

Lemma strptime_twitter_digit (c : ascii) (r : string) :
  Str.isdigit c = true → Datetime.strptime_twitter (String c r) = None.
Proof.
  intros H. unfold Datetime.strptime_twitter, Datetime.full_match.
  unfold mbind at 2. unfold Datetime.matcher_bind at 1.
  by rewrite (re_a_digit c r H).
Qed.

Lemma month_key_of_primary (tw : tweet) (ts : string) :
  timestamp tw = Some ts → has_shape primary_shape ts = true →
  month_key_of tw = "2024-01".
Proof.
  intros Hts Hs. unfold month_key_of. rewrite Hts. simpl get_str.
  destruct ts as [|c r]; [discriminate Hs |].
  unfold str_or. cbn [Str.is_empty].
  rewrite (primary_shape_no_T _ Hs).
  rewrite strptime_twitter_digit; [reflexivity |].
  simpl in Hs. by apply andb_true_iff in Hs as [? _].
Qed.

End StreamingMapper.

(** C10. In every mode the mapper prints nothing for a tweet whose
    three text fields are missing or empty, so the lines of a batch are
    those of its tweets with a text; in geography mode this drops a
    tweet with a city, for which the local classifier has a payload. *)
Theorem mapper_skips_tweets_without_text :
  ∀ (format_float : Q → string) (env : option string),
    (∀ tw, Data.get_str (Data.tweet_text tw) = "" →
           Data.get_str (Data.text tw) = "" →
           Data.get_str (Data.full_text tw) = "" →
           Streaming.map_tweet format_float env tw = [])
    ∧ (∀ l, Streaming.mapper_combined format_float env l
            = Streaming.mapper_combined format_float env (filter Reference.has_text l))
    ∧ (∀ tw, Data.get_str (Data.tweet_text tw) = "" →
             Data.get_str (Data.text tw) = "" →
             Data.get_str (Data.full_text tw) = "" →
             Str.strip (Reference.city_of tw) ≠ "" →
             Streaming.map_tweet format_float (Some "geography") tw = []
             ∧ is_Some (Geo.map_geographic_data tw)).
Proof.
  intros format_float env.
  assert (H : ∀ e tw, Data.get_str (Data.tweet_text tw) = "" →
                Data.get_str (Data.text tw) = "" →
                Data.get_str (Data.full_text tw) = "" →
                Streaming.map_tweet format_float e tw = []).
  { intros e tw H1 H2 H3. apply map_tweet_empty_text.
    by apply tweet_text_of_empty. }
  split; [exact (H env) |].
  split; [exact (mapper_combined_has_text format_float env) |].
  intros tw H1 H2 H3 Hc. split; [by apply H |].
  destruct (Geo.map_geographic_data tw) eqn:E; [by eexists |].
  by apply map_geographic_data_none in E.
Qed.

Lemma mapper_skips_tweets_without_text_witness :
  Streaming.map_tweet (λ _, "") (Some "geography") Reference.undated_paris_tweet = []
  ∧ is_Some (Geo.map_geographic_data Reference.undated_paris_tweet).
Proof.
  apply (proj2 (proj2 (mapper_skips_tweets_without_text (λ _, "") (Some "geography"))));
    [reflexivity | reflexivity | reflexivity | discriminate].
Defined.

(** C3, on the code. A timestamp in the primary format
    [YYYY-MM-DD HH:MM:SS] has no [T] and starts with a digit, so the
    mapper hands it to the parser of the legacy format, which refuses
    it: the period key is the fallback "2024-01" whatever the month,
    where the local hashtag classifier reads the month of the same
    tweet, and the mapper itself that of the same instant written in
    the ISO format. *)
Theorem primary_timestamp_gets_fallback_key :
  (∀ tw ts, Data.timestamp tw = Some ts →
            Reference.has_shape Reference.primary_shape ts = true →
            Streaming.month_key_of tw = "2024-01")
  ∧ (∀ format_float,
       Streaming.map_tweet format_float None Reference.march_tweet
       = [Streaming.line4 "HASHTAG" "2024-01" "#ai" "1"])
  ∧ Hashtag.map_hashtags Reference.march_tweet = [("2024-03", "ai")]
  ∧ Streaming.month_key_of Reference.iso_march_tweet = "2024-03".
Proof.
  split; [exact month_key_of_primary |]. split; [| split; reflexivity].
  intros format_float. unfold Streaming.map_tweet.
  rewrite (month_key_of_primary Reference.march_tweet "2024-03-05 10:00:00");
    reflexivity.
Qed.

Lemma primary_timestamp_gets_fallback_key_witness :
  Streaming.month_key_of Reference.march_tweet = "2024-01".
Proof.
  apply (proj1 primary_timestamp_gets_fallback_key
               Reference.march_tweet "2024-03-05 10:00:00"); reflexivity.
Defined.

(** ** The streaming reducer *)

Section StreamingReducer.
Import Data Streaming Reference.

Lemma append_cons (c : ascii) (a b : string) : String c a +:+ b = String c (a +:+ b).
Proof. reflexivity. Qed.

Lemma tab_free_app (a b : string) : tab_free (a +:+ b) = tab_free a && tab_free b.
Proof.
  induction a as [|c r IH]; [reflexivity |].
  rewrite append_cons. simpl. rewrite IH. by rewrite andb_assoc.
Qed.

Lemma split_from_tab_free (cur s : string) :
  tab_free cur = true → Forall (λ f, tab_free f = true) (Str.split_from Str.tab cur s).
Proof.
  revert cur. induction s as [|c r IH]; intros cur Hc; simpl.
  - by constructor.
  - case_bool_decide as E.
    + constructor; [exact Hc | by apply IH].
    + apply IH. rewrite tab_free_app, Hc. simpl.
      by rewrite bool_decide_false.
Qed.

Lemma split_tab_free (s : string) : Forall (λ f, tab_free f = true) (Str.split Str.tab s).
Proof. by apply split_from_tab_free. Qed.

Lemma split_once_key (m i : string) :
  tab_free m = true → split_once (key_of m i) = inr (m, i).
Proof.
  unfold key_of. induction m as [|c r IH]; intros H.
  - reflexivity.
  - simpl in H. apply andb_true_iff in H as [H1 H2].
    rewrite append_cons. simpl.
    apply negb_true_iff in H1. rewrite H1. by rewrite IH.
Qed.

Lemma key_of_inj (m1 i1 m2 i2 : string) :
  tab_free m1 = true → tab_free m2 = true →
  key_of m1 i1 = key_of m2 i2 ↔ m1 = m2 ∧ i1 = i2.
Proof.
  intros H1 H2. split; [| by intros [-> ->]].
  intros H. apply (f_equal split_once) in H.
  rewrite !split_once_key in H by done. by injection H.
Qed.

Lemma well_formed_tab_free (line m i : string) (n : Z) :
  well_formed line = Some (m, i, n) → tab_free m = true.
Proof.
  unfold well_formed, fields_of. intros H.
  pose proof (split_tab_free (Str.strip line)) as Hf.
  destruct (Str.split Str.tab (Str.strip line)) as [|f0 [|f1 [|f2 [|f3 rest]]]]; try done.
  destruct (int f3); [done |]. injection H as <- _ _.
  apply Forall_cons in Hf as [_ Hf]. by apply Forall_cons in Hf as [? _].
Qed.

Lemma reduce_line_spec (c : counter) (line : string) :
  reduce_line c line
  = match well_formed line with
    | Some (m, i, n) => counter_add (key_of m i) n c
    | None => c
    end.
Proof.
  unfold reduce_line, reduce_try, well_formed, fields_of.
  destruct (Str.strip line) as [|a s] eqn:E; [reflexivity |].
  cbn [Str.is_empty].
  destruct (Str.split Str.tab (String a s)) as [|f0 [|f1 [|f2 [|f3 rest]]]]; try reflexivity.
  cbn [length Nat.leb item lookup list_lookup].
  destruct (int f3) as [[] | n]; reflexivity.
Qed.

Lemma reduce_line_malformed (c : counter) (line : string) :
  well_formed line = None → reduce_line c line = c.
Proof. intros H. by rewrite reduce_line_spec, H. Qed.

Lemma pair_total_snoc (m i : string) (l : list string) (x : string) :
  pair_total m i (l ++ [x]) = pair_total m i l + contribution m i x.
Proof.
  unfold pair_total, contribution. induction l as [|a r IH]; simpl.
  - destruct (well_formed x) as [[[m' i'] n]|]; [case_bool_decide |]; lia.
  - rewrite IH. destruct (well_formed a) as [[[m' i'] n]|]; [case_bool_decide |]; lia.
Qed.

Lemma counter_total (stdin : list string) (m i : string) :
  tab_free m = true →
  counter_get (key_of m i) (foldl reduce_line [] stdin) = pair_total m i stdin.
Proof.
  intros Hm. induction stdin as [|x r IH] using rev_ind; [reflexivity |].
  rewrite foldl_snoc, pair_total_snoc, reduce_line_spec. unfold contribution.
  destruct (well_formed x) as [[[m' i'] n]|] eqn:E; [| lia].
  rewrite counter_get_add, IH.
  pose proof (key_of_inj m' i' m i (well_formed_tab_free _ _ _ _ E) Hm) as Hk.
  repeat case_bool_decide; tauto || lia.
Qed.

Lemma counter_keys (stdin : list string) (k : string) :
  k ∈ (foldl reduce_line [] stdin).*1
  ↔ ∃ line m i n, line ∈ stdin ∧ well_formed line = Some (m, i, n) ∧ k = key_of m i.
Proof.
  induction stdin as [|x r IH] using rev_ind.
  - split; [intros H; by apply elem_of_nil in H |].
    intros (line & _ & _ & _ & H & _). by apply elem_of_nil in H.
  - rewrite foldl_snoc, reduce_line_spec.
    destruct (well_formed x) as [[[m' i'] n']|] eqn:E.
    + rewrite counter_add_keys, IH. split.
      * intros [(line & m & i & n & H1 & H2 & H3) | ->].
        -- exists line, m, i, n. rewrite elem_of_app. tauto.
        -- exists x, m', i', n'. rewrite elem_of_app, list_elem_of_singleton. tauto.
      * intros (line & m & i & n & H1 & H2 & H3).
        apply elem_of_app in H1 as [H1 | ->%list_elem_of_singleton].
        -- left. by exists line, m, i, n.
        -- right. rewrite E in H2. by injection H2 as -> -> ->.
    + rewrite IH. split.
      * intros (line & m & i & n & H1 & H2 & H3).
        exists line, m, i, n. rewrite elem_of_app. tauto.
      * intros (line & m & i & n & H1 & H2 & H3).
        apply elem_of_app in H1 as [H1 | ->%list_elem_of_singleton]; [| congruence].
        by exists line, m, i, n.
Qed.

Lemma counter_add_NoDup (k : string) (n : Z) (c : counter) :
  NoDup c.*1 → NoDup (counter_add k n c).*1.
Proof.
  induction c as [|[h m] r IH]; simpl; intros H.
  - apply NoDup_singleton.
  - apply NoDup_cons in H as [H1 H2]. case_bool_decide as E; simpl.
    + by apply NoDup_cons.
    + apply NoDup_cons. split; [| by apply IH].
      rewrite counter_add_keys. intros [? | ?]; [done | congruence].
Qed.

Lemma counter_NoDup (stdin : list string) : NoDup (foldl reduce_line [] stdin).*1.
Proof.
  induction stdin as [|x r IH] using rev_ind; [apply NoDup_nil_2 |].
  rewrite foldl_snoc, reduce_line_spec.
  destruct (well_formed x) as [[[m i] n]|]; [by apply counter_add_NoDup | exact IH].
Qed.

Lemma NoDup_counter_get (c : counter) (a : string * Z) :
  NoDup c.*1 → a ∈ c → counter_get (fst a) c = snd a.
Proof.
  induction c as [|[h m] r IH]; intros Hn Ha; [by apply elem_of_nil in Ha |].
  simpl in Hn. apply NoDup_cons in Hn as [H1 H2]. simpl.
  apply elem_of_cons in Ha as [-> | Ha]; [by rewrite bool_decide_true |].
  rewrite bool_decide_false; [by apply IH |].
  intros ->. apply H1. by apply (list_elem_of_fmap_2 fst).
Qed.

Lemma counter_get_elem (c : counter) (k : string) :
  k ∈ c.*1 → (k, counter_get k c) ∈ c.
Proof.
  induction c as [|[h m] r IH]; simpl; [intros H; by apply elem_of_nil in H |].
  case_bool_decide as E; [subst; left |].
  intros [? | ?]%elem_of_cons; [congruence |]. right. by apply IH.
Qed.

Lemma print_results_render (record_type : string) (items : counter) :
  Forall (λ a, ∃ m i, fst a = key_of m i ∧ tab_free m = true) items →
  print_results record_type items = inr (render record_type <$> items).
Proof.
  induction 1 as [|[k n] r (m & i & Hk & Hm) _ IH]; [reflexivity |].
  simpl in Hk. subst k. simpl. unfold render at 1. simpl.
  rewrite (split_once_key m i Hm), IH. reflexivity.
Qed.

Lemma counter_keys_shape (stdin : list string) :
  Forall (λ a, ∃ m i, fst a = key_of m i ∧ tab_free m = true)
         (foldl reduce_line [] stdin).
Proof.
  apply Forall_forall. intros a Ha.
  assert (H : fst a ∈ (foldl reduce_line [] stdin).*1) by (by apply (list_elem_of_fmap_2 fst)).
  apply counter_keys in H as (line & m & i & n & _ & H2 & H3).
  exists m, i. split; [exact H3 |]. by apply (well_formed_tab_free line m i n).
Qed.

Lemma most_common_shape (n : option nat) (stdin : list string) :
  Forall (λ a, ∃ m i, fst a = key_of m i ∧ tab_free m = true)
         (most_common n (foldl reduce_line [] stdin)).
Proof.
  apply Forall_forall. intros a Ha.
  pose proof (counter_keys_shape stdin) as H. rewrite Forall_forall in H.
  apply H. by apply (most_common_subseteq n).
Qed.

(** The line printed for an entry of the counter. *)
Lemma render_entry (record_type : string) (stdin : list string) (a : string * Z) :
  a ∈ foldl reduce_line [] stdin →
  ∃ month item line n,
    render record_type a
    = line4 record_type month item (Str.of_Z (pair_total month item stdin))
    ∧ line ∈ stdin ∧ well_formed line = Some (month, item, n).
Proof.
  intros Ha.
  assert (H : fst a ∈ (foldl reduce_line [] stdin).*1) by (by apply (list_elem_of_fmap_2 fst)).
  apply counter_keys in H as (line & m & i & n & H1 & H2 & H3).
  pose proof (well_formed_tab_free line m i n H2) as Hm.
  exists m, i, line, n. split; [| done].
  unfold render. rewrite H3, (split_once_key m i Hm).
  rewrite <- (counter_total stdin m i Hm), <- H3.
  by rewrite (NoDup_counter_get _ a (counter_NoDup stdin) Ha).
Qed.

Lemma reducer_combined_render (env : option string) (stdin : list string) :
  reducer_combined env stdin
  = inr (if bool_decide (analysis_type env ∈ ["hashtags"; "sentiment"; "geography"])
         then render (result_type env)
                <$> most_common (limit_of (analysis_type env)) (foldl reduce_line [] stdin)
         else []).
Proof.
  unfold reducer_combined, result_type, limit_of.
  set (mode := analysis_type env).
  destruct (bool_decide (mode = "hashtags")) eqn:E1.
  { apply bool_decide_eq_true in E1. rewrite E1. simpl.
    apply print_results_render. apply (most_common_shape (Some 10%nat)). }
  destruct (bool_decide (mode = "sentiment")) eqn:E2.
  { apply bool_decide_eq_true in E2. rewrite E2. simpl.
    apply print_results_render. apply (most_common_shape None). }
  destruct (bool_decide (mode = "geography")) eqn:E3.
  { apply bool_decide_eq_true in E3. rewrite E3. simpl.
    apply print_results_render. apply (most_common_shape (Some 20%nat)). }
  rewrite bool_decide_false; [reflexivity |].
  apply bool_decide_eq_false in E1, E2, E3.
  rewrite !elem_of_cons, elem_of_nil. tauto.
Qed.

Lemma split_from_length (sep : ascii) (cur s : string) :
  length (Str.split_from sep cur s) = S (count_char sep s).
Proof.
  revert cur. induction s as [|d r IH]; intros cur; simpl; [reflexivity |].
  case_bool_decide; simpl; by rewrite IH.
Qed.

Lemma count_char_lstrip (c : ascii) (s : string) :
  (count_char c (Str.lstrip s) <= count_char c s)%nat.
Proof.
  induction s as [|d r IH]; simpl; [lia |].
  destruct (Str.isspace d); simpl; lia.
Qed.

Lemma count_char_rstrip (c : ascii) (s : string) :
  (count_char c (Str.rstrip s) <= count_char c s)%nat.
Proof.
  induction s as [|d r IH]; simpl; [lia |].
  destruct (Str.rstrip r); [destruct (Str.isspace d) |]; simpl in *; lia.
Qed.

Lemma fields_of_length (line : string) :
  (length (fields_of line) <= length (Str.split Str.tab line))%nat.
Proof.
  unfold fields_of, Str.split, Str.strip. rewrite !split_from_length.
  pose proof (count_char_rstrip Str.tab (Str.lstrip line)).
  pose proof (count_char_lstrip Str.tab line). lia.
Qed.

Lemma well_formed_short (line : string) :
  (length (Str.split Str.tab line) < 4)%nat → well_formed line = None.
Proof.
  intros H. pose proof (fields_of_length line) as Hl. unfold well_formed.
  destruct (fields_of line) as [|f0 [|f1 [|f2 [|f3 rest]]]]; simpl in *; try done. lia.
Qed.

Lemma well_formed_not_int (line field : string) (e : exn) :
  fields_of line !! 3%nat = Some field → int field = inl e → well_formed line = None.
Proof.
  unfold well_formed.
  destruct (fields_of line) as [|f0 [|f1 [|f2 [|f3 rest]]]]; simpl; try done.
  intros [= ->] ->. reflexivity.
Qed.

Lemma reducer_skips_malformed (env : option string) (before after : list string)
    (line : string) :
  well_formed line = None →
  reducer_combined env (before ++ line :: after) = reducer_combined env (before ++ after).
Proof.
  intros H. unfold reducer_combined.
  rewrite !foldl_app. cbn [foldl]. by rewrite (reduce_line_malformed _ _ H).
Qed.

Lemma reducer_prints_totals (env : option string) (stdin : list string) :
  ∃ out, reducer_combined env stdin = inr out
    ∧ ∀ printed, printed ∈ out →
        ∃ month item line n,
          printed = line4 (result_type env) month item
                          (Str.of_Z (pair_total month item stdin))
          ∧ line ∈ stdin ∧ well_formed line = Some (month, item, n).
Proof.
  rewrite reducer_combined_render. eexists. split; [reflexivity |].
  intros printed. case_bool_decide; [| intros H'; by apply elem_of_nil in H'].
  intros (a & -> & Ha)%list_elem_of_fmap.
  apply render_entry. by apply (most_common_subseteq (limit_of (analysis_type env))).
Qed.

Lemma reducer_sentiment_complete (env : option string) (stdin : list string)
    (line month item : string) (n : Z) :
  analysis_type env = "sentiment" → line ∈ stdin →
  well_formed line = Some (month, item, n) →
  ∃ out, reducer_combined env stdin = inr out
    ∧ line4 "SENTIMENT_RESULT" month item (Str.of_Z (pair_total month item stdin)) ∈ out.
Proof.
  intros Hmode Hin Hwf. rewrite reducer_combined_render. eexists. split; [reflexivity |].
  unfold result_type, limit_of. rewrite Hmode. cbn [bool_decide decide_rel].
  rewrite bool_decide_true by (right; left).
  pose proof (well_formed_tab_free _ _ _ _ Hwf) as Hm.
  apply list_elem_of_fmap.
  exists (key_of month item, counter_get (key_of month item) (foldl reduce_line [] stdin)).
  split.
  - unfold render. cbn [fst snd]. by rewrite (split_once_key _ _ Hm), (counter_total _ _ _ Hm).
  - rewrite (most_common_all _). apply counter_get_elem, counter_keys.
    by exists line, month, item, n.
Qed.

End StreamingReducer.

(** ** The regional specialties *)

Section RegionalSpecialties.
Import Data Hashtag Geo Reference Sentiment.

Lemma div_some (a b : Q) : Qeq_bool b 0 = false → div a b = Some (a / b)%Q.
Proof. intros H. unfold div. by rewrite H. Qed.

Lemma of_nat_nonzero (n : nat) : (0 < n)%nat → Qeq_bool (of_nat n) 0 = false.
Proof. destruct n; [lia |]. reflexivity. Qed.

Lemma share_nonzero (c : Z) (n : nat) :
  0 < c → (0 < n)%nat → Qeq_bool (inject_Z c / of_nat n) 0 = false.
Proof. destruct c; try lia. destruct n; [lia |]. reflexivity. Qed.

Lemma elem_length_pos {A} (x : A) (l : list A) : x ∈ l → (0 < length l)%nat.
Proof. destruct l; [intros H; by apply elem_of_nil in H | simpl; lia]. Qed.


Lemma specialty_of_spec (t : string) (themes all_themes : list string) :
  t ∈ themes → t ∈ all_themes →
  specialty_of (Counter all_themes) all_themes (length themes)
               (t, occurrences t themes)
  = Some (select_specialty themes all_themes (t, occurrences t themes)).
Proof.
  intros Ht Ha. unfold specialty_of, select_specialty, is_specialty_b. cbn [fst snd].
  rewrite Counter_get.
  rewrite (div_some _ (of_nat (length themes)))
    by (apply of_nat_nonzero, (elem_length_pos t), Ht).
  cbn [mbind option_bind].
  rewrite (div_some _ (of_nat (length all_themes)))
    by (apply of_nat_nonzero, (elem_length_pos t), Ha).
  cbn [mbind option_bind].
  fold (local_share t themes). fold (local_share t all_themes).
  destruct (Qgtb (local_share t themes) (local_share t all_themes * (3 # 2))
            && (2 <=? occurrences t themes)); [| reflexivity].
  rewrite div_some; [reflexivity |].
  apply share_nonzero; [by apply occurrences_pos | by apply (elem_length_pos t)].
Qed.

Lemma specialties_loop_spec (themes all_themes : list string) (items : counter) :
  Forall (λ tc, fst tc ∈ themes ∧ fst tc ∈ all_themes
                ∧ snd tc = occurrences (fst tc) themes) items →
  specialties_loop (Counter all_themes) all_themes (length themes) items
  = Some (omap (select_specialty themes all_themes) items).
Proof.
  induction 1 as [|[t c] r (H1 & H2 & H3) _ IH]; [reflexivity |].
  cbn [fst snd] in *. subst c. cbn [specialties_loop].
  rewrite (specialty_of_spec t themes all_themes H1 H2), IH.
  cbn [mbind option_bind omap list_omap].
  by destruct (select_specialty themes all_themes (t, occurrences t themes)).
Qed.

Lemma country_specialties (themes all_themes : list string) :
  themes ⊆ all_themes →
  specialties_loop (Counter all_themes) all_themes (length themes) (Counter themes)
  = Some (omap (select_specialty themes all_themes) (Counter themes)).
Proof.
  intros Hsub. apply specialties_loop_spec, Forall_forall. intros a Ha.
  destruct (Counter_entries themes a Ha) as [H1 H2]. split; [done |]. split; [by apply Hsub | done].
Qed.

Lemma regional_loop_spec (all_themes : list string)
    (items : list (string * list string)) (acc : gmap string (list specialty)) :
  NoDup items.*1 →
  Forall (λ ct, snd ct ⊆ all_themes) items →
  ∃ m, regional_loop (Counter all_themes) all_themes items acc = Some m
    ∧ (∀ country themes, (country, themes) ∈ items →
         m !! country = if bool_decide (themes = []) then acc !! country
                        else Some (specialties_of themes all_themes))
    ∧ (∀ country, country ∉ items.*1 → m !! country = acc !! country).
Proof.
  revert acc. induction items as [|[c th] r IH]; intros acc Hnd Hsub.
  - exists acc. split; [reflexivity |]. split; [| done].
    intros ? ? H. by apply elem_of_nil in H.
  - cbn [fmap list_fmap fst] in Hnd. apply NoDup_cons in Hnd as [Hc Hnd].
    apply Forall_cons in Hsub as [Hth Hsub]. cbn [snd] in Hth.
    cbn [regional_loop].
    destruct (length th =? 0)%nat eqn:E.
    + apply Nat.eqb_eq, nil_length_inv in E. subst th.
      destruct (IH acc Hnd Hsub) as (m & Hm & H1 & H2).
      exists m. split; [exact Hm |]. split.
      * intros country themes [[= -> ->] | Hin]%elem_of_cons.
        -- rewrite bool_decide_true by done. by apply H2.
        -- by apply H1.
      * intros country Hout. apply H2. intros ?. apply Hout. by right.
    + assert (Hne : th ≠ []) by (intros ->; discriminate E).
      rewrite (country_specialties th all_themes Hth).
      cbn [mbind option_bind].
      fold (specialties_of th all_themes).
      destruct (IH (<[c := specialties_of th all_themes]> acc) Hnd Hsub)
        as (m & Hm & H1 & H2).
      exists m. split; [exact Hm |]. split.
      * intros country themes [[= -> ->] | Hin]%elem_of_cons.
        -- rewrite bool_decide_false by done.
           rewrite (H2 c Hc). apply lookup_insert_eq.
        -- rewrite (H1 country themes Hin). case_bool_decide; [| reflexivity].
           apply lookup_insert_ne. intros <-. apply Hc.
           by apply (list_elem_of_fmap_2 fst) in Hin.
      * intros country Hout. rewrite (H2 country); [| intros ?; apply Hout; by right].
        apply lookup_insert_ne. intros <-. apply Hout. left.
Qed.

Lemma elem_of_concat {A} (x : A) (ls : list (list A)) :
  x ∈ concat ls ↔ ∃ l, x ∈ l ∧ l ∈ ls.
Proof.
  induction ls as [|k r IH]; simpl.
  - split; [intros H; by apply elem_of_nil in H |].
    intros (l & _ & H). by apply elem_of_nil in H.
  - rewrite elem_of_app, IH. split.
    + intros [H | (l & H1 & H2)]; [exists k; split; [done | left] |].
      exists l. split; [done | by right].
    + intros (l & H1 & [-> | H2]%elem_of_cons); [by left |].
      right. by exists l.
Qed.

Lemma all_themes_of_subseteq (tbc : list (string * list string)) :
  Forall (λ ct, snd ct ⊆ all_themes_of tbc) tbc.
Proof.
  apply Forall_forall. intros [c th] Hin t Ht. cbn [snd] in Ht.
  unfold all_themes_of. apply elem_of_concat. exists th. split; [exact Ht |].
  by apply (list_elem_of_fmap_2 snd) in Hin.
Qed.




Lemma analyze_themes_total (tbc tbcity : list (string * list string)) :
  NoDup tbc.*1 →
  ∃ r, _analyze_themes_by_region tbc tbcity = Some r
    ∧ ∀ country themes, (country, themes) ∈ tbc →
        regional_specialties r !! country
        = if bool_decide (themes = []) then None
          else Some (specialties_of themes (all_themes_of tbc)).
Proof.
  intros Hnd. unfold _analyze_themes_by_region. fold (all_themes_of tbc).
  destruct (regional_loop_spec (all_themes_of tbc) tbc ∅ Hnd (all_themes_of_subseteq tbc))
    as (m & Hm & H1 & _).
  rewrite Hm. cbn [mbind option_bind]. eexists. split; [reflexivity |].
  cbn [regional_specialties]. intros country themes Hin.
  rewrite (H1 country themes Hin). by rewrite lookup_empty.
Qed.

Lemma regional_loop_total (all_themes : list string)
    (items : list (string * list string)) (acc : gmap string (list specialty)) :
  Forall (λ ct, snd ct ⊆ all_themes) items →
  is_Some (regional_loop (Counter all_themes) all_themes items acc).
Proof.
  intros H. revert acc. induction H as [|[c th] r Hth _ IH]; intros acc.
  - by eexists.
  - cbn [regional_loop]. cbn [snd] in Hth.
    destruct (length th =? 0)%nat; [apply IH |].
    rewrite (country_specialties th all_themes Hth). cbn [mbind option_bind]. apply IH.
Qed.

Lemma analyze_themes_no_error (tbc tbcity : list (string * list string)) :
  is_Some (_analyze_themes_by_region tbc tbcity).
Proof.
  unfold _analyze_themes_by_region. fold (all_themes_of tbc).
  destruct (regional_loop_total (all_themes_of tbc) tbc ∅ (all_themes_of_subseteq tbc))
    as [m Hm].
  rewrite Hm. by eexists.
Qed.








(** *** The test on rounded values *)









End RegionalSpecialties.

(** * Further properties *)

(** ** The clamp of the sentiment score *)

Section SentimentScore.
Import Sentiment Reference Reference2.

Lemma intensifier_not_positive (w : string) :
  mem w intensifiers = true → mem w positive_words = false.
Proof.
  unfold mem. intros H%bool_decide_eq_true.
  unfold intensifiers in H. set_unfold in H.
  repeat (destruct H as [-> | H]; [vm_compute; reflexivity |]). done.
Qed.

Lemma intensifier_not_negative (w : string) :
  mem w intensifiers = true → mem w negative_words = false.
Proof.
  unfold mem. intros H%bool_decide_eq_true.
  unfold intensifiers in H. set_unfold in H.
  repeat (destruct H as [-> | H]; [vm_compute; reflexivity |]). done.
Qed.

Lemma weight_after_range (prev : option string) :
  (1 <= weight_after prev <= 3 # 2)%Q.
Proof.
  unfold weight_after. destruct prev as [p|]; [destruct (mem p intensifiers) |]; lra.
Qed.

Lemma inject_S (n : nat) : (inject_Z (Z.of_nat (S n)) == inject_Z (Z.of_nat n) + 1)%Q.
Proof. rewrite Nat2Z.inj_succ. unfold Z.succ. by rewrite inject_Z_plus. Qed.

Lemma add_word_budget (prev : option string) (acc : Q * Q) (w : string) (n : nat) :
  budget prev acc n → budget (Some w) (add_word (weight_after prev) acc w) (S n).
Proof.
  intros (H1 & H2 & H3). pose proof (weight_after_range prev) as Hw.
  pose proof (weight_after_range (Some w)) as Hw'.
  unfold budget. rewrite inject_S. unfold add_word.
  destruct (mem w positive_words) eqn:Ep; [| destruct (mem w negative_words) eqn:En].
  - assert (Hi : weight_after (Some w) = 1%Q).
    { unfold weight_after. destruct (mem w intensifiers) eqn:Ei; [| done].
      apply intensifier_not_positive in Ei. congruence. }
    rewrite Hi. cbn [fst snd]. lra.
  - assert (Hi : weight_after (Some w) = 1%Q).
    { unfold weight_after. destruct (mem w intensifiers) eqn:Ei; [| done].
      apply intensifier_not_negative in Ei. congruence. }
    rewrite Hi. cbn [fst snd]. lra.
  - lra.
Qed.

Lemma scores_from_budget (words : list string) (prev : option string) (acc : Q * Q) (n : nat) :
  budget prev acc n →
  ∃ prev', budget prev' (scores_from prev acc words) (n + length words).
Proof.
  revert prev acc n. induction words as [|w r IH]; intros prev acc n H.
  - exists prev. by rewrite Nat.add_0_r.
  - cbn [scores_from length]. rewrite <- Nat.add_succ_comm.
    apply IH. by apply add_word_budget.
Qed.

Lemma score_loop_budget (words : list string) :
  (0 <= fst (score_loop words) ∧ 0 <= snd (score_loop words)
   ∧ fst (score_loop words) + snd (score_loop words)
     <= inject_Z (Z.of_nat (length words)))%Q.
Proof.
  rewrite score_loop_scores_from.
  destruct (scores_from_budget words None (0%Q, 0%Q) 0) as (prev' & H1 & H2 & H3).
  { unfold budget, weight_after. cbn [fst snd]. change (inject_Z (Z.of_nat 0)) with 0%Q. lra. }
  pose proof (weight_after_range prev'). cbn [Nat.add] in H3. split; [exact H1 |]. split; [exact H2 |]. lra.
Qed.

Lemma clamp_id (x : Q) : (-1 <= x <= 1)%Q → (py_max (-1) (py_min 1 x) == x)%Q.
Proof.
  intros [H1 H2]. unfold py_max, py_min.
  destruct (Qltb x 1) eqn:E1.
  - destruct (Qgtb x (-1)) eqn:E2; [reflexivity |].
    apply Qgtb_false in E2. lra.
  - apply Qltb_false in E1. destruct (Qgtb 1 (-1)) eqn:E2; [lra |].
    apply Qgtb_false in E2. lra.
Qed.

Lemma unclamped_range (p q n : Q) :
  (0 <= p → 0 <= q → p + q <= n → 0 < n → -1 <= p / n - q / n <= 1)%Q.
Proof.
  intros Hp Hq Hpq Hn.
  assert (E : (p / n - q / n == (p - q) / n)%Q) by (field; lra).
  rewrite E. split.
  - apply Qle_shift_div_l; [done | lra].
  - apply Qle_shift_div_r; [done | lra].
Qed.

(** X1. The final clamp max(-1.0, min(1.0, normalized_score)) of
    analyze_sentiment never changes the score: positive_score and
    negative_score are never negative and their sum is at most the
    number of words, because an intensifier is never a sentiment word,
    so the normalised score already lies between -1 and 1. *)
Theorem sentiment_clamp_never_applies :
  (∀ words,
     (0 <= fst (score_loop words))%Q ∧ (0 <= snd (score_loop words))%Q
     ∧ (fst (score_loop words) + snd (score_loop words)
        <= inject_Z (Z.of_nat (length words)))%Q)
  ∧ (∀ text, (analyze_sentiment text == unclamped_score text)%Q)
  ∧ (analyze_sentiment "good" == 1)%Q
  ∧ (analyze_sentiment "bad" == -1)%Q
  ∧ (analyze_sentiment "very good" == 3 # 4)%Q.
Proof.
  split; [exact score_loop_budget |].
  split; [| by vm_compute].
  intros text. unfold analyze_sentiment, unclamped_score.
  destruct (Str.is_empty text) eqn:E.
  - destruct text; [reflexivity | discriminate].
  - cbv zeta. destruct (length (Str.findall_words (Str.lower text)) =? 0)%nat eqn:En;
      [reflexivity |].
    apply Nat.eqb_neq in En.
    destruct (score_loop_budget (Str.findall_words (Str.lower text))) as (H1 & H2 & H3).
    set (n := inject_Z (Z.of_nat (length (Str.findall_words (Str.lower text))))) in *.
    assert (Hn : (0 < n)%Q).
    { unfold n. change 0%Q with (inject_Z 0). rewrite <- Zlt_Qlt. lia. }
    rewrite clamp_id by (by apply unclamped_range).
    field. lra.
Qed.

End SentimentScore.

(** ** Dictionaries *)

Section Dictionaries.
Import Dict Reference Reference2.
Context {A : Type}.

Lemma get_elem (k : string) (d : dict A) (v : A) : get k d = Some v → (k, v) ∈ d.
Proof.
  induction d as [|[k' v'] r IH]; [done |]. simpl. case_bool_decide as E.
  - intros [= ->]. subst. left.
  - intros H. right. by apply IH.
Qed.

Lemma get_None (k : string) (d : dict A) : get k d = None ↔ k ∉ d.*1.
Proof.
  induction d as [|[k' v'] r IH]; simpl.
  - split; [intros _ H; by apply elem_of_nil in H | done].
  - case_bool_decide as E.
    + subst. split; [done | intros H; exfalso; apply H; left].
    + rewrite IH. simpl. split; [intros H [H' | H']%elem_of_cons; done | intros H H'; apply H; by right].
Qed.

Lemma elem_get (k : string) (d : dict A) (v : A) :
  NoDup d.*1 → (k, v) ∈ d → get k d = Some v.
Proof.
  induction d as [|[k' v'] r IH]; [intros _ H; by apply elem_of_nil in H |].
  simpl. intros [Hk Hr]%NoDup_cons [H | H]%elem_of_cons.
  - injection H as -> ->. by rewrite bool_decide_true.
  - case_bool_decide as E; [| by apply IH].
    subst. exfalso. apply Hk. by apply (list_elem_of_fmap_2 fst _ (k, v)).
Qed.

Lemma update_keys (dflt : A) (f : A → A) (k : string) (d : dict A) :
  (update dflt f k d).*1 = if bool_decide (k ∈ d.*1) then d.*1 else d.*1 ++ [k].
Proof.
  induction d as [|[k' v'] r IH]; [reflexivity |].
  cbn [update]. rewrite fmap_cons. cbn [fst].
  destruct (bool_decide (k' = k)) eqn:E.
  - apply bool_decide_eq_true in E. subst.
    rewrite bool_decide_true by (apply elem_of_cons; by left). reflexivity.
  - apply bool_decide_eq_false in E. rewrite fmap_cons, IH. cbn [fst].
    destruct (bool_decide (k ∈ r.*1)) eqn:E1.
    + apply bool_decide_eq_true in E1.
      rewrite bool_decide_true by (apply elem_of_cons; by right). reflexivity.
    + apply bool_decide_eq_false in E1. rewrite bool_decide_false; [reflexivity |].
      intros [H | H]%elem_of_cons; [by subst | done].
Qed.

Lemma get_update (dflt : A) (f : A → A) (k k' : string) (d : dict A) :
  get k (update dflt f k' d)
  = if bool_decide (k = k') then Some (f (default dflt (get k d))) else get k d.
Proof.
  induction d as [|[k0 v0] r IH]; simpl.
  - case_bool_decide as E; [subst; by rewrite bool_decide_true |].
    by rewrite bool_decide_false by done.
  - destruct (bool_decide (k0 = k')) eqn:E0; simpl.
    + apply bool_decide_eq_true in E0. subst.
      case_bool_decide as E1; [subst; by rewrite bool_decide_true |].
      by rewrite bool_decide_false by done.
    + apply bool_decide_eq_false in E0.
      case_bool_decide as E1; [| by rewrite IH; case_bool_decide].
      subst. by rewrite bool_decide_false by done.
Qed.

Lemma set_fresh (k : string) (v : A) (d : dict A) :
  k ∉ d.*1 → set k v d = d ++ [(k, v)].
Proof.
  induction d as [|[k' v'] r IH]; [done |]. simpl.
  intros [H1 H2]%not_elem_of_cons. rewrite bool_decide_false by done.
  by rewrite IH.
Qed.

End Dictionaries.

Section Grouping.
Import Dict Reference Reference2.
Context {A B : Type} (dflt : A) (step : A → B → A) (key : B → string).

Lemma first_seen_snoc (l : list string) (k : string) :
  first_seen (l ++ [k])
  = if bool_decide (k ∈ first_seen l) then first_seen l else first_seen l ++ [k].
Proof. unfold first_seen. by rewrite foldl_snoc. Qed.

Lemma first_seen_elem (l : list string) (k : string) : k ∈ first_seen l ↔ k ∈ l.
Proof.
  induction l as [|x l IH] using rev_ind; [done |].
  rewrite first_seen_snoc, elem_of_app, list_elem_of_singleton, <- IH.
  case_bool_decide as E.
  - split; [by left | intros [H | ->]; done].
  - by rewrite elem_of_app, list_elem_of_singleton.
Qed.

Lemma first_seen_NoDup (l : list string) : NoDup (first_seen l).
Proof.
  induction l as [|x l IH] using rev_ind; [constructor |].
  rewrite first_seen_snoc. case_bool_decide as E; [done |].
  apply NoDup_app. split; [done |]. split; [| apply NoDup_singleton].
  intros y Hy ->%list_elem_of_singleton. done.
Qed.

Lemma fold_update_keys (l : list B) : (fold_update dflt step key l).*1 = first_seen (key <$> l).
Proof.
  induction l as [|x l IH] using rev_ind; [reflexivity |].
  unfold fold_update in *. rewrite foldl_snoc, update_keys, IH, fmap_app.
  simpl. by rewrite first_seen_snoc.
Qed.

Lemma filter_key_nil (l : list B) (k : string) :
  k ∉ key <$> l → filter (λ p, key p = k) l = [].
Proof.
  induction l as [|x l IH]; [done |]. rewrite fmap_cons, filter_cons.
  intros [H1 H2]%not_elem_of_cons. rewrite decide_False by done. by apply IH.
Qed.

Lemma fold_update_get (l : list B) (k : string) :
  get k (fold_update dflt step key l)
  = if bool_decide (k ∈ key <$> l)
    then Some (foldl step dflt (filter (λ p, key p = k) l)) else None.
Proof.
  induction l as [|x l IH] using rev_ind; [reflexivity |].
  unfold fold_update in *. rewrite foldl_snoc, get_update, IH.
  rewrite fmap_app, filter_app, filter_cons, filter_nil. cbn [fmap list_fmap].
  destruct (bool_decide (k = key x)) eqn:E.
  - apply bool_decide_eq_true in E. subst.
    rewrite (bool_decide_true (key x ∈ _ ++ _))
      by (apply elem_of_app; right; by apply list_elem_of_singleton).
    rewrite decide_True by done. rewrite foldl_snoc.
    destruct (bool_decide (key x ∈ key <$> l)) eqn:E1; [done |].
    apply bool_decide_eq_false in E1. by rewrite (filter_key_nil _ _ E1).
  - apply bool_decide_eq_false in E.
    rewrite decide_False by done. rewrite app_nil_r.
    destruct (bool_decide (k ∈ key <$> l)) eqn:E1.
    + apply bool_decide_eq_true in E1.
      by rewrite bool_decide_true by (apply elem_of_app; by left).
    + apply bool_decide_eq_false in E1. rewrite bool_decide_false; [done |].
      intros [H | H%list_elem_of_singleton]%elem_of_app; done.
Qed.

Lemma fold_update_NoDup (l : list B) : NoDup (fold_update dflt step key l).*1.
Proof. rewrite fold_update_keys. apply first_seen_NoDup. Qed.

Lemma fold_update_elem (l : list B) (k : string) (v : A) :
  (k, v) ∈ fold_update dflt step key l
  ↔ k ∈ key <$> l ∧ v = foldl step dflt (filter (λ p, key p = k) l).
Proof.
  split.
  - intros H. apply (elem_get _ _ _ (fold_update_NoDup l)) in H.
    rewrite fold_update_get in H. case_bool_decide; [| done]. by injection H as <-.
  - intros [H ->]. apply get_elem. rewrite fold_update_get.
    by rewrite bool_decide_true.
Qed.

End Grouping.

(** ** Rounding *)

Section Rounding.
Import Sentiment Geo.

Lemma round_half_even_bounds (y : Q) (lo hi : Z) :
  (inject_Z lo <= y <= inject_Z hi)%Q → lo <= round_half_even y <= hi.
Proof.
  intros [Hlo Hhi]. unfold round_half_even.
  pose proof (Qfloor_le y) as Hf. pose proof (Qlt_floor y) as Hf'.
  assert (H1 : lo <= Qfloor y).
  { rewrite <- (Qfloor_Z lo). by apply Qfloor_resp_le. }
  assert (H2 : Qfloor y <= hi).
  { rewrite <- (Qfloor_Z hi). by apply Qfloor_resp_le. }
  assert (H3 : (1 # 2 <= y - inject_Z (Qfloor y))%Q → Qfloor y + 1 <= hi).
  { intros H. assert (Hlt : (inject_Z (Qfloor y) < inject_Z hi)%Q) by lra.
    rewrite <- Zlt_Qlt in Hlt. lia. }
  destruct (Qltb (y - inject_Z (Qfloor y)) (1 # 2)) eqn:E1; [lia |].
  apply Qltb_false in E1.
  destruct (Qgtb (y - inject_Z (Qfloor y)) (1 # 2)); [split; [lia | by apply H3] |].
  destruct (Z.even (Qfloor y)); [lia | split; [lia | by apply H3]].
Qed.

Lemma pow10_pos (n : nat) : (0 < inject_Z (10 ^ Z.of_nat n))%Q.
Proof.
  change 0%Q with (inject_Z 0). rewrite <- Zlt_Qlt. apply Z.pow_pos_nonneg; lia.
Qed.

Lemma round_bounds (x : Q) (n : nat) (lo hi : Z) :
  (inject_Z lo <= x <= inject_Z hi)%Q → (inject_Z lo <= round x n <= inject_Z hi)%Q.
Proof.
  intros [Hlo Hhi]. unfold round. pose proof (pow10_pos n) as Hp.
  set (p := 10 ^ Z.of_nat n) in *.
  destruct (round_half_even_bounds (x * inject_Z p) (lo * p) (hi * p)) as [H1 H2].
  { rewrite !inject_Z_mult. split; apply Qmult_le_compat_r; lra. }
  rewrite Zle_Qle, inject_Z_mult in H1. rewrite Zle_Qle, inject_Z_mult in H2.
  split.
  - apply Qle_shift_div_l; [done | lra].
  - apply Qle_shift_div_r; [done | lra].
Qed.

End Rounding.

(** ** The sentiment mapper and reducer *)

Section SentimentJob.
Import Data Sentiment Dict SentimentMapper SentimentReducer Reference Reference2.

Lemma length_append (a b : string) :
  String.length (a +:+ b) = (String.length a + String.length b)%nat.
Proof. induction a as [|c a IH]; simpl; [done | by rewrite IH]. Qed.

Lemma take_length (n : nat) (s : string) : (String.length (Str.take n s) <= n)%nat.
Proof.
  revert s. induction n as [|n IH]; intros [|c s]; simpl; try lia.
  specialize (IH s). lia.
Qed.

Lemma take_prefix (n : nat) (s t : string) : Str.prefix (Str.take n s) (Str.take n s +:+ t) = true.
Proof.
  revert s. induction n as [|n IH]; intros [|c s]; simpl; try done.
  rewrite bool_decide_true by done. apply IH.
Qed.

Lemma prefix_refl (s : string) : Str.prefix s s = true.
Proof. induction s as [|c s IH]; simpl; [done |]. by rewrite bool_decide_true. Qed.

Lemma take_all (n : nat) (s : string) : (String.length s <= n)%nat → Str.take n s = s.
Proof.
  revert s. induction n as [|n IH]; intros [|c s]; simpl; try done; try lia.
  intros H. rewrite IH; [done | lia].
Qed.

Lemma label_is_label (x : Q) : is_label (get_sentiment_label x).
Proof.
  unfold is_label, get_sentiment_label.
  destruct (Qgtb x (1 # 10)); [by left |].
  destruct (Qltb x (- (1 # 10))); [right; by left | right; by right].
Qed.

Lemma map_sentiment_some (tw : tweet) (key : string) (d : sentiment_data) :
  map_sentiment tw = Some (key, d) →
  ∃ dt, Datetime.strptime_ymd_hms (get_str (timestamp tw)) = Some dt
        ∧ key = year_month_day dt
        ∧ tweet_text_field tw ≠ ""
        ∧ score d = analyze_sentiment (tweet_text_field tw)
        ∧ label d = get_sentiment_label (score d)
        ∧ text_preview d
          = if (50 <? String.length (tweet_text_field tw))%nat
            then Str.take 50 (tweet_text_field tw) +:+ "..."
            else tweet_text_field tw.
Proof.
  unfold map_sentiment, tweet_text_field.
  destruct (Str.is_empty (get_str (timestamp tw))); [done |].
  destruct (Str.is_empty (get_str (tweet_text tw))) eqn:E; [done |]. cbn [orb].
  destruct (Datetime.strptime_ymd_hms (get_str (timestamp tw))) as [dt|]; [| done].
  intros [= <- <-]. exists dt. cbn.
  repeat split. intros H. by rewrite H in E.
Qed.

(** X3. Whenever map_sentiment returns a record, its score lies between
    -1 and 1, its label is the label of that score and is one of
    positive, negative and neutral, and its text_preview is the text
    itself when the text has at most 50 characters and otherwise the
    first 50 characters followed by three dots (53 characters at most). *)
Theorem map_sentiment_record (tw : tweet) (key : string) (d : sentiment_data) :
  map_sentiment tw = Some (key, d) →
  (-1 <= score d <= 1)%Q
  ∧ label d = get_sentiment_label (score d)
  ∧ is_label (label d)
  ∧ (String.length (text_preview d) <= 53)%nat
  ∧ Str.prefix (Str.take 50 (tweet_text_field tw)) (text_preview d) = true
  ∧ ((String.length (tweet_text_field tw) <= 50)%nat → text_preview d = tweet_text_field tw)
  ∧ ((50 < String.length (tweet_text_field tw))%nat →
       text_preview d = Str.take 50 (tweet_text_field tw) +:+ "...").
Proof.
  intros (dt & _ & _ & _ & Hs & Hl & Hp)%map_sentiment_some.
  split; [rewrite Hs; apply analyze_sentiment_bounds |].
  split; [exact Hl |].
  split; [rewrite Hl; apply label_is_label |].
  rewrite Hp. destruct (50 <? String.length (tweet_text_field tw))%nat eqn:E.
  - apply Nat.ltb_lt in E. split; [| split; [apply take_prefix | split; [lia | done]]].
    rewrite length_append. pose proof (take_length 50 (tweet_text_field tw)).
    change (String.length "...") with 3%nat. lia.
  - apply Nat.ltb_ge in E. split; [lia |].
    split; [rewrite take_all by done; apply prefix_refl |]. split; [done | lia].
Qed.

Lemma map_sentiment_record_witness :
  ∃ d, map_sentiment Reference.march_tweet = Some ("2024-03-05", d)
       ∧ label d = "positive" ∧ (String.length (text_preview d) <= 53)%nat.
Proof.
  eexists. split; [vm_compute; reflexivity |].
  split; [vm_compute; reflexivity |].
  refine (proj1 (proj2 (proj2 (proj2 (map_sentiment_record Reference.march_tweet _ _ _))))).
  vm_compute. reflexivity.
Defined.

Lemma foldl_snoc_values {A} (l : list (string * A)) (acc : list A) :
  foldl (λ l p, l ++ [snd p]) acc l = acc ++ (snd <$> l).
Proof.
  revert acc. induction l as [|p l IH]; intros acc; simpl; [by rewrite app_nil_r |].
  by rewrite IH, <- app_assoc.
Qed.

Lemma group_by_date_elem (md : list (string * sentiment_data)) (date : string)
    (day : list sentiment_data) :
  (date, day) ∈ group_by_date md ↔ date ∈ md.*1 ∧ day = values_of date md.
Proof.
  unfold group_by_date.
  rewrite (fold_update_elem [] (λ l p, l ++ [snd p]) fst md date day).
  by rewrite foldl_snoc_values.
Qed.

Lemma values_of_nonempty {A} (k : string) (l : list (string * A)) :
  k ∈ l.*1 → values_of k l ≠ [].
Proof.
  intros (p & -> & Hp)%list_elem_of_fmap. unfold values_of. intros H%fmap_nil_inv.
  assert (H' : p ∈ filter (λ q, fst q = fst p) l) by (by apply list_elem_of_filter).
  rewrite H in H'. by apply elem_of_nil in H'.
Qed.

Lemma values_of_length {A} (k : string) (l : list (string * A)) :
  length (values_of k l) = count k l.*1.
Proof.
  unfold values_of, count. rewrite length_fmap.
  induction l as [|p l IH]; [done |]. rewrite fmap_cons, !filter_cons.
  destruct (decide (fst p = k)); simpl; by rewrite IH.
Qed.

Lemma daily_of_spec (sentiments : list sentiment_data) :
  sentiments ≠ [] → daily_of sentiments = Some (the_daily sentiments).
Proof.
  intros H. unfold daily_of.
  assert (Hn : (0 < length sentiments)%nat) by (destruct sentiments; [done | simpl; lia]).
  rewrite bool_decide_false by (by intros ->%fmap_nil_inv).
  rewrite length_fmap.
  rewrite !(div_some _ (Geo.of_nat (length sentiments))) by (by apply of_nat_nonzero).
  reflexivity.
Qed.

Lemma daily_loop_spec (items : dict (list sentiment_data)) (acc : dict daily) :
  Forall (λ kv, snd kv ≠ []) items → NoDup items.*1 →
  (∀ k, k ∈ items.*1 → k ∉ acc.*1) →
  daily_loop items acc = Some (acc ++ (prod_map id the_daily <$> items)).
Proof.
  revert acc. induction items as [|[date day] rest IH]; intros acc Hne Hnd Hfresh.
  - simpl. by rewrite app_nil_r.
  - apply Forall_cons in Hne as [Hday Hne]. rewrite fmap_cons in Hnd.
    apply NoDup_cons in Hnd as [Hdate Hnd].
    cbn [snd] in Hday. cbn [daily_loop]. rewrite (daily_of_spec _ Hday). cbn [mbind option_bind].
    rewrite set_fresh by (apply Hfresh; rewrite fmap_cons; apply elem_of_cons; by left).
    rewrite IH; [by rewrite <- app_assoc | done | done |].
    intros k Hk. rewrite fmap_app. intros [H | H%list_elem_of_singleton]%elem_of_app.
    + apply (Hfresh k); [| done]. rewrite fmap_cons. apply elem_of_cons. by right.
    + simpl in H. by subst.
Qed.

Lemma reduce_sentiment_spec (md : list (string * sentiment_data)) :
  reduce_sentiment md = Some (prod_map id the_daily <$> group_by_date md).
Proof.
  unfold reduce_sentiment. rewrite daily_loop_spec; [done | | |].
  - apply Forall_forall. intros [date day] [Hd ->]%group_by_date_elem.
    by apply values_of_nonempty.
  - apply fold_update_NoDup.
  - intros k _ H. by apply elem_of_nil in H.
Qed.

Lemma reduce_sentiment_elem (md : list (string * sentiment_data)) (date : string) (r : daily) :
  (date, r) ∈ prod_map id the_daily <$> group_by_date md
  ↔ date ∈ md.*1 ∧ r = the_daily (values_of date md).
Proof.
  rewrite list_elem_of_fmap. split.
  - intros ([k day] & [= -> ->] & [H ->]%group_by_date_elem). done.
  - intros [H ->]. exists (date, values_of date md). split; [done |].
    by apply group_by_date_elem.
Qed.

Lemma indicator_sum (ks : list string) (k : string) :
  NoDup ks → k ∈ ks →
  sum_list ((λ k', if bool_decide (k = k') then 1%nat else 0%nat) <$> ks) = 1%nat.
Proof.
  induction ks as [|x ks IH]; [intros _ H; by apply elem_of_nil in H |].
  intros [Hx Hnd]%NoDup_cons Hk. rewrite fmap_cons. cbn [sum_list_with id].
  case_bool_decide as E.
  - subst. clear IH Hk. f_equal.
    induction ks as [|y ks IH]; [done |]. rewrite fmap_cons. cbn [sum_list_with id].
    apply not_elem_of_cons in Hx as [H1 H2]. apply NoDup_cons in Hnd as [_ Hnd].
    rewrite bool_decide_false by done. by apply IH.
  - apply elem_of_cons in Hk as [-> | Hk]; [done |]. by rewrite IH.
Qed.

Lemma sum_list_add {A} (f g : A → nat) (l : list A) :
  sum_list ((λ x, f x + g x)%nat <$> l) = (sum_list (f <$> l) + sum_list (g <$> l))%nat.
Proof.
  induction l as [|x l IH]; [done |]. rewrite !fmap_cons. cbn [sum_list_with id].
  rewrite IH. lia.
Qed.

Lemma count_nil_sum (ks : list string) : sum_list ((λ k, count k []) <$> ks) = 0%nat.
Proof. induction ks as [|k ks IH]; [done |]. rewrite fmap_cons. simpl. exact IH. Qed.

Lemma count_cons (k x : string) (l : list string) :
  count k (x :: l) = ((if bool_decide (x = k) then 1 else 0) + count k l)%nat.
Proof.
  unfold count. rewrite filter_cons.
  destruct (decide (x = k)); [by rewrite bool_decide_true | by rewrite bool_decide_false].
Qed.

Lemma count_partition (ks l : list string) :
  NoDup ks → (∀ k, k ∈ l → k ∈ ks) →
  sum_list ((λ k, count k l) <$> ks) = length l.
Proof.
  intros Hnd. induction l as [|x l IH]; intros Hin; [apply count_nil_sum |].
  rewrite (list_fmap_ext _ (λ k, (if bool_decide (x = k) then 1 else 0) + count k l)%nat ks)
    by (intros i k _; apply count_cons).
  rewrite sum_list_add, indicator_sum, IH; [done | | done |].
  - intros k Hk. apply Hin. by right.
  - apply Hin. by left.
Qed.

Lemma group_by_date_keys (md : list (string * sentiment_data)) :
  (group_by_date md).*1 = first_seen md.*1.
Proof. apply (fold_update_keys [] (λ l p, l ++ [snd p]) fst md). Qed.


Lemma reduce_sentiment_totals (md : list (string * sentiment_data)) :
  sum_list (total_tweets ∘ snd <$> (prod_map id the_daily <$> group_by_date md))
  = length md.
Proof.
  rewrite <- list_fmap_compose.
  rewrite (list_fmap_ext _ ((λ k, count k md.*1) ∘ fst) (group_by_date md)).
  - rewrite list_fmap_compose, group_by_date_keys.
    rewrite count_partition; [by rewrite length_fmap | apply first_seen_NoDup |].
    intros k. by rewrite first_seen_elem.
  - intros i [k day] Hi. apply list_elem_of_lookup_2 in Hi.
    apply group_by_date_elem in Hi as [_ ->]. cbn. apply values_of_length.
Qed.


Lemma counts_eq (labels : list string) :
  Forall is_label labels →
  (count "positive" labels + count "negative" labels + count "neutral" labels
   = length labels)%nat.
Proof.
  induction 1 as [|x l Hx _ IH]; [done |]. rewrite !count_cons. cbn [length].
  destruct Hx as [-> | [-> | ->]]; repeat case_bool_decide; try done; lia.
Qed.


Lemma omap_length_le {A B} (f : A → option B) (l : list A) :
  (length (omap f l) <= length l)%nat.
Proof. induction l as [|x l IH]; [done |]. csimpl. destruct (f x); csimpl; lia. Qed.

Lemma map_phase_records (tweets : list tweet) :
  Forall (λ p, (-1 <= score (snd p) <= 1)%Q ∧ is_label (label (snd p))) (map_phase tweets).
Proof.
  apply Forall_forall. intros [key d] (tw & Htw & H)%list_elem_of_omap.
  apply map_sentiment_some in H as (dt & _ & _ & _ & Hs & Hl & _). cbn [snd].
  split; [rewrite Hs; apply analyze_sentiment_bounds | rewrite Hl; apply label_is_label].
Qed.

Lemma sum_foldl_bounds (l : list Q) (a : Q) :
  Forall (λ x, (-1 <= x <= 1)%Q) l →
  (a - inject_Z (Z.of_nat (length l)) <= foldl Qplus a l
   <= a + inject_Z (Z.of_nat (length l)))%Q.
Proof.
  intros H. revert a. induction H as [|x l Hx _ IH]; intros a.
  - cbn [foldl length]. change (inject_Z (Z.of_nat 0)) with 0%Q. lra.
  - cbn [foldl length]. rewrite inject_S. specialize (IH (a + x)%Q). lra.
Qed.

Lemma average_bounds (l : list Q) :
  l ≠ [] → Forall (λ x, (-1 <= x <= 1)%Q) l →
  (-1 <= sum l / Geo.of_nat (length l) <= 1)%Q.
Proof.
  intros Hne H. pose proof (sum_foldl_bounds l 0 H) as [H1 H2].
  unfold sum, Geo.of_nat.
  assert (Hn : (0 < inject_Z (Z.of_nat (length l)))%Q).
  { change 0%Q with (inject_Z 0). rewrite <- Zlt_Qlt. destruct l; [done | simpl; lia]. }
  split; [apply Qle_shift_div_l | apply Qle_shift_div_r]; try done; lra.
Qed.

Lemma count_le_length (x : string) (l : list string) : (count x l <= length l)%nat.
Proof. unfold count. apply length_filter. Qed.

Lemma share_is_percentage (c n : nat) :
  (c <= n)%nat → (0 < n)%nat →
  is_percentage (Geo.round (Geo.of_nat c / Geo.of_nat n * 100) 2).
Proof.
  intros Hc Hn. unfold is_percentage, Geo.of_nat.
  apply (round_bounds _ 2 0 100).
  assert (H0 : (0 <= inject_Z (Z.of_nat c))%Q).
  { change 0%Q with (inject_Z 0). rewrite <- Zle_Qle. lia. }
  assert (H1 : (inject_Z (Z.of_nat c) <= inject_Z (Z.of_nat n))%Q).
  { rewrite <- Zle_Qle. lia. }
  assert (H2 : (0 < inject_Z (Z.of_nat n))%Q).
  { change 0%Q with (inject_Z 0). rewrite <- Zlt_Qlt. lia. }
  assert (H3 : (0 <= inject_Z (Z.of_nat c) / inject_Z (Z.of_nat n) <= 1)%Q).
  { split; [apply Qle_shift_div_l | apply Qle_shift_div_r]; try done; lra. }
  change (inject_Z 0) with 0%Q. change (inject_Z 100) with 100%Q. lra.
Qed.

(** X5. On the records collected by the map loop of
    run_sentiment_mapreduce_local (the results of map_sentiment that are
    not None, at most one for each tweet), the reducer succeeds, the
    daily totals add up to the number of records, and for every day the
    positive, negative and neutral counts add up to total_tweets,
    average_sentiment lies between -1 and 1 and each of the three
    percentages lies between 0 and 100. *)
Theorem sentiment_days_of_mapped_tweets (tweets : list tweet) :
  ∃ results, reduce_sentiment (map_phase tweets) = Some results
    ∧ sum_list (total_tweets ∘ snd <$> results) = length (map_phase tweets)
    ∧ (length (map_phase tweets) <= length tweets)%nat
    ∧ Forall (λ kr, counted (snd kr) = total_tweets (snd kr)
                    ∧ (-1 <= average_sentiment (snd kr) <= 1)%Q
                    ∧ is_percentage (positive_share (sentiment_percentages (snd kr)))
                    ∧ is_percentage (negative_share (sentiment_percentages (snd kr)))
                    ∧ is_percentage (neutral_share (sentiment_percentages (snd kr))))
             results.
Proof.
  eexists. split; [apply reduce_sentiment_spec |].
  split; [apply reduce_sentiment_totals |].
  split; [apply omap_length_le |].
  apply Forall_forall. intros [date r] [Hd ->]%reduce_sentiment_elem. cbn [snd].
  pose proof (values_of_nonempty _ _ Hd) as Hne.
  set (day := values_of date (map_phase tweets)) in *.
  assert (Hday : Forall (λ d, (-1 <= score d <= 1)%Q ∧ is_label (label d)) day).
  { apply Forall_forall. intros d (p & -> & [_ Hp]%list_elem_of_filter)%list_elem_of_fmap.
    pose proof (map_phase_records tweets) as H. rewrite Forall_forall in H.
    by apply H. }
  assert (Hn : (0 < length day)%nat) by (destruct day; [done | simpl; lia]).
  split.
  { unfold counted. cbn [the_daily sentiment_distribution positive negative neutral total_tweets].
    rewrite <- (length_fmap label). apply counts_eq.
    apply Forall_fmap. eapply Forall_impl; [exact Hday |]. by intros d [_ H]. }
  split.
  { cbn [the_daily average_sentiment]. apply (round_bounds _ 4 (-1) 1).
    rewrite <- (length_fmap score). apply average_bounds.
    - by intros ?%fmap_nil_inv.
    - apply Forall_fmap. eapply Forall_impl; [exact Hday |]. by intros d [H _]. }
  cbn [the_daily sentiment_percentages positive_share negative_share neutral_share].
  repeat split; apply share_is_percentage; try done;
    rewrite <- (length_fmap label); apply count_le_length.
Qed.

End SentimentJob.

(** ** The themes and the location of a tweet *)

Section GeographicRecords.
Import Data Str Geo Reference Reference2.

Lemma prefix_app (p s t : string) : prefix p s = true → prefix p (s +:+ t) = true.
Proof.
  revert s. induction p as [|a p IH]; intros [|b s]; simpl; try done.
  intros [H1 H2]%andb_prop. rewrite H1. by apply IH.
Qed.

Lemma contains_app_l (p s t : string) : contains p s = true → contains p (s +:+ t) = true.
Proof.
  induction s as [|c s IH].
  - destruct p; [by destruct t | done].
  - cbn [contains]. intros [H | H]%orb_prop.
    + pose proof (prefix_app _ (String c s) t H) as Hp.
      change (String c s +:+ t) with (String c (s +:+ t)) in *.
      cbn [contains]. by rewrite Hp.
    + change (String c s +:+ t) with (String c (s +:+ t)). cbn [contains].
      rewrite (IH H). apply orb_true_r.
Qed.

Lemma contains_app_r (p s t : string) : contains p t = true → contains p (s +:+ t) = true.
Proof.
  intros H. induction s as [|c s IH]; [done |].
  change (String c s +:+ t) with (String c (s +:+ t)). cbn [contains].
  rewrite IH. apply orb_true_r.
Qed.

Lemma contains_join (p sep h : string) (l : list string) :
  h ∈ l → contains p h = true → contains p (join sep l) = true.
Proof.
  intros Hin Hp. induction l as [|x l IH]; [by apply elem_of_nil in Hin |].
  destruct l as [|y l].
  - apply list_elem_of_singleton in Hin. by subst.
  - change (join sep (x :: y :: l)) with (x +:+ sep +:+ join sep (y :: l)).
    apply elem_of_cons in Hin as [-> | Hin].
    + by apply contains_app_l.
    + apply contains_app_r, contains_app_r. by apply IH.
Qed.

Lemma theme_names_NoDup : NoDup (fst <$> tech_themes).
Proof. apply (bool_decide_unpack _). by vm_compute. Qed.

Lemma general_is_no_theme : "general" ∉ fst <$> tech_themes.
Proof. apply (bool_decide_unpack _). by vm_compute. Qed.

Lemma extract_themes_eq (tw : tweet) :
  extract_themes tw
  = let themes :=
      fst <$> filter (λ tk, existsb (λ keyword, contains keyword (theme_content tw)) (snd tk) = true)
                     tech_themes in
    if bool_decide (themes = []) then ["general"] else themes.
Proof. reflexivity. Qed.

Lemma matched_theme (tw : tweet) (theme : string) :
  theme ∈ fst <$> filter (λ tk, existsb (λ keyword, contains keyword (theme_content tw)) (snd tk) = true)
                         tech_themes
  ↔ mentions theme (theme_content tw).
Proof.
  rewrite list_elem_of_fmap. unfold mentions. split.
  - intros ([t ks] & -> & [He Hin]%list_elem_of_filter). cbn [fst snd] in *.
    apply existsb_exists in He as (k & Hk & Hc). exists ks, k.
    split; [done |]. split; [by apply list_elem_of_In | done].
  - intros (ks & k & Hin & Hk & Hc). exists (theme, ks). split; [done |].
    apply list_elem_of_filter. split; [| done]. cbn [snd].
    apply existsb_exists. exists k. split; [by apply list_elem_of_In | done].
Qed.

Lemma extract_themes_shape_lemma (tw : tweet) :
  extract_themes tw ≠ []
  ∧ NoDup (extract_themes tw)
  ∧ (extract_themes tw = ["general"] ∨ extract_themes tw `sublist_of` fst <$> tech_themes)
  ∧ (∀ theme, theme ≠ "general" →
       theme ∈ extract_themes tw ↔ mentions theme (theme_content tw))
  ∧ ("general" ∈ extract_themes tw ↔ ∀ theme, ¬ mentions theme (theme_content tw))
  ∧ (∀ theme, mentions theme (lower (get_str (tweet_text tw))) → theme ∈ extract_themes tw)
  ∧ (∀ theme h, h ∈ default [] (hashtags tw) →
       mentions theme (replace_char "#" "" (lower h)) → theme ∈ extract_themes tw).
Proof.
  rewrite extract_themes_eq. cbv zeta.
  set (themes := fst <$> filter _ tech_themes).
  assert (Hsub : themes `sublist_of` fst <$> tech_themes)
    by (apply fmap_sublist, sublist_filter).
  assert (Hin : ∀ theme, theme ∈ themes ↔ mentions theme (theme_content tw))
    by (intros theme; apply matched_theme).
  assert (Hg : "general" ∉ themes).
  { intros H. apply general_is_no_theme. by apply (elem_of_sublist _ _ _ H Hsub). }
  assert (Htext : ∀ theme, mentions theme (lower (get_str (tweet_text tw))) →
                           mentions theme (theme_content tw)).
  { intros theme (ks & k & H1 & H2 & H3). exists ks, k. split; [done |]. split; [done |].
    unfold theme_content. by apply contains_app_l. }
  assert (Htag : ∀ theme h, h ∈ default [] (hashtags tw) →
                   mentions theme (replace_char "#" "" (lower h)) →
                   mentions theme (theme_content tw)).
  { intros theme h Hh (ks & k & H1 & H2 & H3). exists ks, k. split; [done |]. split; [done |].
    unfold theme_content. apply contains_app_r, contains_app_r.
    apply (contains_join _ _ (replace_char "#" "" (lower h))); [| done].
    by apply (list_elem_of_fmap_2 (λ h, replace_char "#" "" (lower h))). }
  case_bool_decide as E.
  - split; [done |]. split; [apply NoDup_singleton |]. split; [by left |].
    split; [| split; [| split]].
    + intros theme Hne. rewrite list_elem_of_singleton, <- Hin, E.
      split; [done | intros H; by apply elem_of_nil in H].
    + split; [| intros _; apply list_elem_of_singleton; done].
      intros _ theme H%Hin. rewrite E in H. by apply elem_of_nil in H.
    + intros theme H%Htext%Hin. rewrite E in H. by apply elem_of_nil in H.
    + intros theme h Hh H. apply (Htag _ _ Hh), Hin in H. rewrite E in H.
      by apply elem_of_nil in H.
  - split; [done |].
    split; [apply (sublist_NoDup _ _ theme_names_NoDup Hsub) |].
    split; [by right |]. split; [| split; [| split]].
    + intros theme _. apply Hin.
    + split; [done |]. intros H. exfalso. destruct themes as [|t r] eqn:Et; [done |].
      apply (H t), Hin. left.
    + intros theme H. by apply Hin, Htext.
    + intros theme h Hh H. by apply Hin, (Htag _ h).
Qed.

(** X6. The list returned by extract_themes is never empty and has no
    repetition; it is either ['general'] or theme names in the order of
    the tech_themes table. A theme other than general is in the list
    exactly when one of its keywords is a substring of the lower-cased
    text joined with the lower-cased hashtags without '#', and general
    is in the list exactly when no theme has such a keyword. *)
Theorem extract_themes_shape (tw : tweet) :
  extract_themes tw ≠ []
  ∧ NoDup (extract_themes tw)
  ∧ (extract_themes tw = ["general"] ∨ extract_themes tw `sublist_of` fst <$> tech_themes)
  ∧ (∀ theme, theme ≠ "general" →
       theme ∈ extract_themes tw ↔ mentions theme (theme_content tw))
  ∧ ("general" ∈ extract_themes tw ↔ ∀ theme, ¬ mentions theme (theme_content tw))
  ∧ (∀ theme, mentions theme (lower (get_str (tweet_text tw))) → theme ∈ extract_themes tw)
  ∧ (∀ theme h, h ∈ default [] (hashtags tw) →
       mentions theme (replace_char "#" "" (lower h)) → theme ∈ extract_themes tw).
Proof. exact (extract_themes_shape_lemma tw). Qed.

Lemma lower_title_char (c : ascii) :
  lower_char (upper_char c) = lower_char c.
Proof. destruct c as [[] [] [] [] [] [] [] []]; reflexivity. Qed.

Lemma lower_title_from (cased : bool) (s : string) :
  lower (title_from cased s) = lower s.
Proof.
  revert cased. induction s as [|c s IH]; intros cased; [done |]. cbn [title_from].
  destruct (islower c); [| destruct (isupper c)]; cbn [lower]; rewrite IH; f_equal.
  - destruct cased; [done | apply lower_title_char].
  - destruct cased; [apply lower_char_idem | done].
Qed.

Lemma upper_of_lower (c : ascii) :
  islower c = true → islower (upper_char c) = false ∧ isupper (upper_char c) = true.
Proof. destruct c as [[] [] [] [] [] [] [] []]; cbn; done. Qed.

Lemma lower_of_upper (c : ascii) :
  isupper c = true → islower (lower_char c) = true.
Proof. destruct c as [[] [] [] [] [] [] [] []]; cbn; done. Qed.

Lemma title_from_idem (cased : bool) (s : string) :
  title_from cased (title_from cased s) = title_from cased s.
Proof.
  revert cased. induction s as [|c s IH]; intros cased; [done |]. cbn [title_from].
  destruct (islower c) eqn:El; [| destruct (isupper c) eqn:Eu].
  - destruct cased; cbn [title_from].
    + by rewrite El, IH.
    + destruct (upper_of_lower c El) as [-> ->]. by rewrite IH.
  - destruct cased; cbn [title_from].
    + by rewrite (lower_of_upper c Eu), IH.
    + by rewrite El, Eu, IH.
  - cbn [title_from]. by rewrite El, Eu, IH.
Qed.

Lemma title_empty (s : string) : title s = "" ↔ s = "".
Proof.
  unfold title. destruct s as [|c s]; [done |]. cbn [title_from].
  by destruct (islower c), (isupper c).
Qed.

Lemma lstrip_rstrip_leading (s : string) : leading_space (strip s) = false.
Proof. apply rstrip_leading, lstrip_leading. Qed.

Lemma strip_idem (s : string) : strip (strip s) = strip s.
Proof.
  unfold strip at 1. rewrite (lstrip_id (strip s)) by apply lstrip_rstrip_leading.
  apply strip_rstrip.
Qed.

Lemma normal_city_fixed (s : string) : strip (lower (strip (lower s))) = strip (lower s).
Proof. by rewrite lower_strip, lower_idem, strip_idem. Qed.

Lemma extract_location_info_eq (tw : tweet) :
  extract_location_info tw
  = if is_empty (normal_city tw) then None
    else Some {| li_city := title (normal_city tw);
                 li_country := default "Unknown" (city_to_country !! normal_city tw);
                 li_coordinates :=
                   default [] (tweet_location tw ≫= Data.coordinates) |}.
Proof.
  unfold extract_location_info, normal_city, city_of.
  destruct (tweet_location tw) as [l|]; [| done].
  destruct (location_is_empty l) eqn:E; [| done].
  unfold location_is_empty in E. by destruct (city l).
Qed.

Lemma location_info_of_normal_city_lemma :
  (∀ tw info, extract_location_info tw = Some info →
     lower (li_city info) = normal_city tw
     ∧ li_country info = default "Unknown" (city_to_country !! lower (li_city info))
     ∧ title (li_city info) = li_city info
     ∧ li_city info ≠ ""
     ∧ leading_space (li_city info) = false)
  ∧ (∀ tw tw', normal_city tw = normal_city tw' →
       tweet_location tw ≫= Data.coordinates = tweet_location tw' ≫= Data.coordinates →
       extract_location_info tw = extract_location_info tw').
Proof.
  split.
  - intros tw info. rewrite extract_location_info_eq.
    generalize city_to_country. intros table.
    destruct (is_empty (normal_city tw)) eqn:E; [done |]. intros [= <-].
    cbn [li_city li_country].
    assert (Hl : lower (title (normal_city tw)) = normal_city tw).
    { unfold title. rewrite lower_title_from. unfold normal_city.
      by rewrite <- lower_strip, lower_idem. }
    split; [exact Hl |]. split; [by rewrite Hl |].
    split; [apply title_from_idem |].
    split; [rewrite title_empty; intros H; by rewrite H in E |].
    pose proof (lstrip_rstrip_leading (lower (city_of tw))) as Hs.
    fold (normal_city tw) in Hs. unfold title.
    destruct (normal_city tw) as [|c r]; [done |].
    cbn [leading_space title_from] in Hs |- *.
    destruct (islower c) eqn:El; [| by destruct (isupper c)].
    cbn [leading_space]. clear -El. by destruct c as [[] [] [] [] [] [] [] []].
  - intros tw tw' Hc Hk.
    rewrite (extract_location_info_eq tw), (extract_location_info_eq tw').
    generalize city_to_country. intros table. by rewrite Hc, Hk.
Qed.

(** X7. For a tweet whose city consists of ASCII characters: when
    extract_location_info returns a record, its city is not empty, has
    no leading white space and is unchanged by title(), its lower-cased
    form is the lower-cased and stripped city of the tweet, and its
    country is the entry of that lower-cased city in city_to_country, or
    Unknown. Two such tweets whose cities are equal after lower() and
    strip() and whose coordinates are equal get the same record. *)
Theorem location_info_of_normal_city :
  (∀ tw info, is_ascii (city_of tw) = true → extract_location_info tw = Some info →
     lower (li_city info) = normal_city tw
     ∧ li_country info = default "Unknown" (city_to_country !! lower (li_city info))
     ∧ title (li_city info) = li_city info
     ∧ li_city info ≠ ""
     ∧ leading_space (li_city info) = false)
  ∧ (∀ tw tw', is_ascii (city_of tw) = true → is_ascii (city_of tw') = true →
       normal_city tw = normal_city tw' →
       tweet_location tw ≫= Data.coordinates = tweet_location tw' ≫= Data.coordinates →
       extract_location_info tw = extract_location_info tw').
Proof.
  split.
  - intros tw info _. apply (proj1 location_info_of_normal_city_lemma).
  - intros tw tw' _ _. apply (proj2 location_info_of_normal_city_lemma).
Qed.

Lemma location_info_of_normal_city_witness :
  extract_location_info Reference.blank_city_tweet = None
  ∧ extract_location_info Reference.undated_paris_tweet
    = Some {| li_city := "Paris"; li_country := "France"; li_coordinates := [] |}
  ∧ lower "Paris" = normal_city Reference.undated_paris_tweet.
Proof.
  split; [reflexivity |]. split; [vm_compute; reflexivity |].
  refine (proj1 (proj1 location_info_of_normal_city Reference.undated_paris_tweet
                   {| li_city := "Paris"; li_country := "France"; li_coordinates := [] |}
                   eq_refl _)).
  vm_compute. reflexivity.
Defined.

Lemma map_geographic_data_some (tw : tweet) (p : payload) :
  map_geographic_data tw = Some p →
  extract_location_info tw = Some (p_location p)
  ∧ p_themes p = extract_themes tw
  ∧ p_month p = match Datetime.strptime_ymd_hms (get_str (timestamp tw)) with
                | Some dt => year_month dt
                | None => "unknown"
                end
  ∧ p_tweet_text p
    = if (100 <? String.length (tweet_text_field tw))%nat
      then take 100 (tweet_text_field tw) +:+ "..." else tweet_text_field tw.
Proof.
  unfold map_geographic_data.
  destruct (extract_location_info tw) as [info|]; [| done].
  by intros [= <-].
Qed.

(** X8. Whenever map_geographic_data returns a payload, its location is
    the record of extract_location_info, its themes are the non-empty
    list of extract_themes, and its tweet_text is the text itself when
    the text has at most 100 characters and otherwise the first 100
    characters followed by three dots (103 characters at most). *)
Theorem geographic_payload_record (tw : tweet) (p : payload) :
  map_geographic_data tw = Some p →
  extract_location_info tw = Some (p_location p)
  ∧ p_themes p = extract_themes tw
  ∧ p_themes p ≠ []
  ∧ (String.length (p_tweet_text p) <= 103)%nat
  ∧ prefix (take 100 (tweet_text_field tw)) (p_tweet_text p) = true
  ∧ ((String.length (tweet_text_field tw) <= 100)%nat → p_tweet_text p = tweet_text_field tw)
  ∧ ((100 < String.length (tweet_text_field tw))%nat →
       p_tweet_text p = take 100 (tweet_text_field tw) +:+ "...").
Proof.
  intros (Hl & Ht & _ & Hp)%map_geographic_data_some.
  split; [exact Hl |]. split; [exact Ht |].
  split; [rewrite Ht; apply extract_themes_shape_lemma |].
  rewrite Hp. destruct (100 <? String.length (tweet_text_field tw))%nat eqn:E.
  - apply Nat.ltb_lt in E. split; [| split; [apply take_prefix | split; [lia | done]]].
    rewrite length_append. pose proof (take_length 100 (tweet_text_field tw)).
    change (String.length "...") with 3%nat. lia.
  - apply Nat.ltb_ge in E. split; [lia |].
    split; [rewrite take_all by done; apply prefix_refl |]. split; [done | lia].
Qed.

Lemma geographic_payload_record_witness :
  ∃ p, map_geographic_data Reference.undated_paris_tweet = Some p
       ∧ p_themes p ≠ [] ∧ (String.length (p_tweet_text p) <= 103)%nat.
Proof.
  eexists. split; [vm_compute; reflexivity |].
  pose proof (geographic_payload_record Reference.undated_paris_tweet _
                ltac:(vm_compute; reflexivity)) as (_ & _ & H1 & H2 & _).
  split; [exact H1 | exact H2].
Defined.

End GeographicRecords.

(** ** The geographic reducer *)

Section GeographicReduction.
Import Data Dict Geo GeographicReducer Reference Reference2.

Lemma update_id {A} (dflt : A) (k : string) (d : dict A) :
  k ∈ d.*1 → update dflt id k d = d.
Proof.
  induction d as [|[k' v] r IH]; [intros H; by apply elem_of_nil in H |].
  rewrite fmap_cons. cbn [update fst]. case_bool_decide as E; [done |].
  intros [H | H]%elem_of_cons; [by subst |]. by rewrite IH.
Qed.

Lemma foldl_snoc_id {A} (l acc : list A) : foldl (λ l p, l ++ [p]) acc l = acc ++ l.
Proof.
  revert acc. induction l as [|p l IH]; intros acc; simpl; [by rewrite app_nil_r |].
  by rewrite IH, <- app_assoc.
Qed.

Lemma foldl_extend {A B} (f : A → list B) (l : list A) (acc : list B) :
  foldl (λ l p, l ++ f p) acc l = acc ++ concat (f <$> l).
Proof.
  revert acc. induction l as [|p l IH]; intros acc; simpl; [by rewrite app_nil_r |].
  by rewrite IH, <- app_assoc.
Qed.

Lemma dict_items {A} (d : dict A) (f : string → A) :
  (∀ k v, (k, v) ∈ d → v = f k) → d = (λ k, (k, f k)) <$> d.*1.
Proof.
  induction d as [|[k v] d IH]; intros H; [done |]. rewrite !fmap_cons. cbn [fst].
  f_equal; [f_equal; apply H; left |]. apply IH. intros k' v' Hin. apply H. by right.
Qed.

(** A dictionary filled by a loop holds, for each key in the order in
    which the keys are first met, the fold of the elements with that
    key. *)
Lemma fold_update_items {A B} (dflt : A) (step : A → B → A) (key : B → string)
    (l : list B) :
  fold_update dflt step key l
  = (λ k, (k, foldl step dflt (filter (λ p, key p = k) l))) <$> first_seen (key <$> l).
Proof.
  rewrite <- (fold_update_keys dflt step key l). apply dict_items.
  intros k v Hin. by apply fold_update_elem in Hin as [_ ->].
Qed.

Lemma the_groups (mapped_data : list payload) :
  foldl group_step
    {| tweets_by_country := []; tweets_by_city := [];
       themes_by_country := []; themes_by_city := [];
       monthly_geo_data := [] |} mapped_data
  = {| tweets_by_country := fold_update [] (λ l p, l ++ [p]) country_of mapped_data;
       tweets_by_city := fold_update [] (λ l p, l ++ [p]) city_name mapped_data;
       themes_by_country := fold_update [] (λ l p, l ++ p_themes p) country_of mapped_data;
       themes_by_city := fold_update [] (λ l p, l ++ p_themes p) city_name mapped_data;
       monthly_geo_data :=
         fold_update [] (λ inner p, update 0 (λ n, n + 1) (country_of p) inner)
                     p_month mapped_data |}.
Proof.
  induction mapped_data as [|x l IH] using rev_ind; [reflexivity |].
  rewrite foldl_snoc, IH. unfold fold_update. rewrite !foldl_snoc. reflexivity.
Qed.

Lemma payloads_by (key : payload → string) (mapped_data : list payload) :
  fold_update [] (λ l p, l ++ [p]) key mapped_data
  = (λ k, (k, payloads_with key k mapped_data)) <$> first_seen (key <$> mapped_data).
Proof.
  rewrite fold_update_items. apply list_fmap_ext. intros i k _.
  by rewrite foldl_snoc_id.
Qed.

Lemma themes_by_spec (key : payload → string) (mapped_data : list payload) :
  fold_update [] (λ l p, l ++ p_themes p) key mapped_data = themes_by key mapped_data.
Proof.
  rewrite fold_update_items. apply list_fmap_ext. intros i k _.
  by rewrite foldl_extend.
Qed.

Lemma themes_by_get (key : payload → string) (mapped_data : list payload) (k : string) :
  k ∈ key <$> mapped_data →
  get k (themes_by key mapped_data) = Some (themes_with key k mapped_data).
Proof.
  intros H. rewrite <- themes_by_spec, fold_update_get, bool_decide_true by done.
  by rewrite foldl_extend.
Qed.

Lemma themes_by_keys (key : payload → string) (mapped_data : list payload) :
  (themes_by key mapped_data).*1 = first_seen (key <$> mapped_data).
Proof. rewrite <- themes_by_spec. apply (fold_update_keys [] (λ l p, l ++ p_themes p)). Qed.

Lemma country_loop_spec (items : dict (list payload)) (acc : dict country_stat)
    (tbc : dict (list string)) :
  NoDup items.*1 → (∀ k, k ∈ items.*1 → k ∉ acc.*1) → (∀ k, k ∈ items.*1 → k ∈ tbc.*1) →
  country_loop items acc tbc
  = (acc ++ ((λ kv, (fst kv,
                     {| total_tweets := length (snd kv);
                        top_themes :=
                          most_common (Some 5%nat) (Counter (default [] (get (fst kv) tbc)));
                        cities := list_to_set (city_name <$> snd kv);
                        sample_tweets := p_tweet_text <$> take 3 (snd kv) |})) <$> items),
     tbc).
Proof.
  revert acc. induction items as [|[c tweets] rest IH]; intros acc Hnd Hfresh Hin.
  - simpl. by rewrite app_nil_r.
  - rewrite fmap_cons in Hnd. apply NoDup_cons in Hnd as [Hc Hnd].
    cbn [country_loop getitem]. rewrite update_id by (apply Hin; rewrite fmap_cons; left).
    rewrite set_fresh by (apply Hfresh; rewrite fmap_cons; left).
    rewrite IH; [by rewrite fmap_cons, <- app_assoc | done | |].
    + intros k Hk. rewrite fmap_app. intros [H | H%list_elem_of_singleton]%elem_of_app.
      * apply (Hfresh k); [| done]. rewrite fmap_cons. by right.
      * cbn in H. by subst.
    + intros k Hk. apply Hin. rewrite fmap_cons. by right.
Qed.

Lemma city_loop_spec (items : dict (list payload)) (acc : dict city_stat)
    (tbc : dict (list string)) :
  NoDup items.*1 → (∀ k, k ∈ items.*1 → k ∉ acc.*1) → (∀ k, k ∈ items.*1 → k ∈ tbc.*1) →
  city_loop items acc tbc
  = (acc ++ ((λ kv, (fst kv,
                     {| country := default "Unknown" (country_of <$> head (snd kv));
                        city_total_tweets := length (snd kv);
                        city_top_themes :=
                          most_common (Some 3%nat) (Counter (default [] (get (fst kv) tbc)));
                        coordinates :=
                          default [] ((λ p, li_coordinates (p_location p)) <$> head (snd kv)) |}))
               <$> items),
     tbc).
Proof.
  revert acc. induction items as [|[c tweets] rest IH]; intros acc Hnd Hfresh Hin.
  - simpl. by rewrite app_nil_r.
  - rewrite fmap_cons in Hnd. apply NoDup_cons in Hnd as [Hc Hnd].
    cbn [city_loop getitem]. rewrite update_id by (apply Hin; rewrite fmap_cons; left).
    rewrite set_fresh by (apply Hfresh; rewrite fmap_cons; left).
    rewrite IH; [| done | |].
    + rewrite fmap_cons, <- app_assoc. cbn [fst snd]. by destruct tweets.
    + intros k Hk. rewrite fmap_app. intros [H | H%list_elem_of_singleton]%elem_of_app.
      * apply (Hfresh k); [| done]. rewrite fmap_cons. by right.
      * cbn in H. by subst.
    + intros k Hk. apply Hin. rewrite fmap_cons. by right.
Qed.

Lemma countries_stats (mapped_data : list payload) :
  _calculate_country_stats
    (fold_update [] (λ l p, l ++ [p]) country_of mapped_data)
    (themes_by country_of mapped_data)
  = ((λ c, (c, the_country_stat c mapped_data)) <$> first_seen (country_of <$> mapped_data),
     themes_by country_of mapped_data).
Proof.
  unfold _calculate_country_stats. rewrite country_loop_spec.
  - f_equal. rewrite app_nil_l, payloads_by, <- list_fmap_compose.
    apply list_fmap_ext. intros i k Hk. cbn [compose fst snd].
    apply list_elem_of_lookup_2 in Hk. apply (proj1 (first_seen_elem _ _)) in Hk.
    by rewrite themes_by_get.
  - apply fold_update_NoDup.
  - intros k _ H. by apply elem_of_nil in H.
  - intros k. by rewrite themes_by_keys, (fold_update_keys [] (λ l p, l ++ [p])).
Qed.

Lemma cities_stats (mapped_data : list payload) :
  _calculate_city_stats
    (fold_update [] (λ l p, l ++ [p]) city_name mapped_data)
    (themes_by city_name mapped_data)
  = ((λ c, (c, the_city_stat c mapped_data)) <$> first_seen (city_name <$> mapped_data),
     themes_by city_name mapped_data).
Proof.
  unfold _calculate_city_stats. rewrite city_loop_spec.
  - f_equal. rewrite app_nil_l, payloads_by, <- list_fmap_compose.
    apply list_fmap_ext. intros i k Hk. cbn [compose fst snd].
    apply list_elem_of_lookup_2 in Hk. apply (proj1 (first_seen_elem _ _)) in Hk.
    by rewrite themes_by_get.
  - apply fold_update_NoDup.
  - intros k _ H. by apply elem_of_nil in H.
  - intros k. by rewrite themes_by_keys, (fold_update_keys [] (λ l p, l ++ [p])).
Qed.

Lemma reduce_geographic_data_eq (mapped_data : list payload) :
  reduce_geographic_data mapped_data
  = analysis ← _analyze_themes_by_region (themes_by country_of mapped_data)
                                         (themes_by city_name mapped_data);
    Some {| country_statistics :=
              (λ c, (c, the_country_stat c mapped_data))
                <$> first_seen (country_of <$> mapped_data);
            city_statistics :=
              (λ c, (c, the_city_stat c mapped_data))
                <$> first_seen (city_name <$> mapped_data);
            monthly_distribution :=
              fold_update [] (λ inner p, update 0 (λ n, n + 1) (country_of p) inner)
                          p_month mapped_data;
            theme_analysis := analysis |}.
Proof.
  unfold reduce_geographic_data. rewrite the_groups.
  cbn [tweets_by_country tweets_by_city themes_by_country themes_by_city monthly_geo_data].
  rewrite !themes_by_spec, countries_stats, cities_stats. reflexivity.
Qed.

Lemma payloads_with_length (key : payload → string) (k : string) (l : list payload) :
  length (payloads_with key k l) = count k (key <$> l).
Proof.
  unfold payloads_with, count. induction l as [|p l IH]; [done |].
  rewrite fmap_cons, !filter_cons. destruct (decide (key p = k)); simpl; by rewrite IH.
Qed.

Lemma payloads_with_nonempty (key : payload → string) (k : string) (l : list payload) :
  k ∈ key <$> l → payloads_with key k l ≠ [].
Proof.
  intros (p & -> & Hp)%list_elem_of_fmap H.
  assert (H' : p ∈ payloads_with key (key p) l) by (by apply list_elem_of_filter).
  rewrite H in H'. by apply elem_of_nil in H'.
Qed.

Lemma stats_elem {A} (f : string → A) (ks : list string) (k : string) (v : A) :
  (k, v) ∈ (λ c, (c, f c)) <$> ks ↔ k ∈ ks ∧ v = f k.
Proof.
  rewrite list_elem_of_fmap. split.
  - by intros (c & [= -> ->] & H).
  - intros [H ->]. by exists k.
Qed.

Lemma stats_keys {A} (f : string → A) (ks : list string) :
  ((λ c, (c, f c)) <$> ks).*1 = ks.
Proof. rewrite <- list_fmap_compose. rewrite <- (list_fmap_id ks) at 2. by apply list_fmap_ext. Qed.

Lemma stats_total {A} (f : string → A) (size : A → nat) (key : payload → string)
    (l : list payload) :
  (∀ k, size (f k) = length (payloads_with key k l)) →
  sum_list (size ∘ snd <$> ((λ c, (c, f c)) <$> first_seen (key <$> l))) = length l.
Proof.
  intros H. rewrite <- list_fmap_compose.
  rewrite (list_fmap_ext _ (λ k, count k (key <$> l)) (first_seen (key <$> l))).
  - rewrite count_partition; [by rewrite length_fmap | apply first_seen_NoDup |].
    intros k. by rewrite first_seen_elem.
  - intros i k _. cbn. by rewrite H, payloads_with_length.
Qed.

(** X9. reduce_geographic_data never fails. country_statistics has one
    entry for each distinct country of the payloads, in order of first
    appearance, computed from the payloads of that country: total_tweets
    is their number (at least 1), top_themes has at most 5 entries,
    sample_tweets at most 3, cities is not empty, and the totals of all
    countries add up to the number of payloads. *)
Theorem reduce_geographic_data_countries (mapped_data : list payload) :
  ∃ results, reduce_geographic_data mapped_data = Some results
    ∧ (country_statistics results).*1 = first_seen (country_of <$> mapped_data)
    ∧ (∀ c st, (c, st) ∈ country_statistics results
         ↔ c ∈ country_of <$> mapped_data ∧ st = the_country_stat c mapped_data)
    ∧ sum_list (total_tweets ∘ snd <$> country_statistics results) = length mapped_data
    ∧ Forall (λ cs, (1 <= total_tweets (snd cs))%nat
                    ∧ (length (top_themes (snd cs)) <= 5)%nat
                    ∧ (length (sample_tweets (snd cs)) <= 3)%nat
                    ∧ cities (snd cs) ≠ ∅)
             (country_statistics results).
Proof.
  rewrite reduce_geographic_data_eq.
  destruct (analyze_themes_no_error (themes_by country_of mapped_data)
                                    (themes_by city_name mapped_data)) as [analysis Ha].
  rewrite Ha. cbn [mbind option_bind]. eexists. split; [reflexivity |].
  cbn [country_statistics].
  split; [apply stats_keys |].
  split; [intros c st; by rewrite stats_elem, first_seen_elem |].
  split; [by apply stats_total |].
  apply Forall_forall. intros [c st] [Hc ->]%stats_elem. cbn [snd].
  apply (proj1 (first_seen_elem _ _)) in Hc.
  pose proof (payloads_with_nonempty _ _ _ Hc) as Hne.
  unfold the_country_stat.
  cbn [total_tweets top_themes sample_tweets cities most_common].
  destruct (payloads_with country_of c mapped_data) as [|p ps]; [done |].
  split; [simpl; lia |]. split; [rewrite length_take; lia |].
  split; [rewrite length_fmap, length_take; lia |].
  rewrite fmap_cons. cbn [list_to_set]. intros H.
  apply (not_elem_of_empty (C := gset string) (city_name p)). rewrite <- H.
  by apply elem_of_union_l, elem_of_singleton.
Qed.

Lemma head_payloads_with (key : payload → string) (k : string) (l : list payload) :
  k ∈ key <$> l →
  ∃ q, head (payloads_with key k l) = Some q ∧ q ∈ l ∧ key q = k.
Proof.
  intros H%payloads_with_nonempty.
  destruct (payloads_with key k l) as [|q r] eqn:E; [done |]. exists q.
  assert (Hq : q ∈ payloads_with key k l) by (rewrite E; left).
  apply list_elem_of_filter in Hq as [H1 H2]. done.
Qed.

(** X10. city_statistics has one entry for each distinct city of the
    payloads, in order of first appearance: total_tweets is the number
    of payloads of the city (at least 1), top_themes has at most 3
    entries, country and coordinates are those of the first payload of
    the city, and the totals add up to the number of payloads. The city
    of every payload is in the cities of the entry of its country. *)
Theorem reduce_geographic_data_cities (mapped_data : list payload) :
  ∃ results, reduce_geographic_data mapped_data = Some results
    ∧ (city_statistics results).*1 = first_seen (city_name <$> mapped_data)
    ∧ (∀ c st, (c, st) ∈ city_statistics results
         ↔ c ∈ city_name <$> mapped_data ∧ st = the_city_stat c mapped_data)
    ∧ sum_list (city_total_tweets ∘ snd <$> city_statistics results) = length mapped_data
    ∧ (∀ c st, (c, st) ∈ city_statistics results →
         (1 <= city_total_tweets st)%nat
         ∧ (length (city_top_themes st) <= 3)%nat
         ∧ ∃ q, head (payloads_with city_name c mapped_data) = Some q
                ∧ q ∈ mapped_data ∧ city_name q = c
                ∧ country st = country_of q
                ∧ coordinates st = li_coordinates (p_location q))
    ∧ (∀ p, p ∈ mapped_data →
         ∃ st, (country_of p, st) ∈ country_statistics results
               ∧ city_name p ∈ cities st).
Proof.
  rewrite reduce_geographic_data_eq.
  destruct (analyze_themes_no_error (themes_by country_of mapped_data)
                                    (themes_by city_name mapped_data)) as [analysis Ha].
  rewrite Ha. cbn [mbind option_bind]. eexists. split; [reflexivity |].
  cbn [city_statistics country_statistics].
  split; [apply stats_keys |].
  split; [intros c st; by rewrite stats_elem, first_seen_elem |].
  split; [by apply stats_total |].
  split.
  - intros c st [Hc ->]%stats_elem. apply (proj1 (first_seen_elem _ _)) in Hc.
    destruct (head_payloads_with _ _ _ Hc) as (q & Hq & Hin & Hk).
    unfold the_city_stat.
    cbn [city_total_tweets city_top_themes country coordinates most_common].
    rewrite Hq. destruct (payloads_with city_name c mapped_data) as [|p ps]; [done |].
    split; [simpl; lia |]. split; [rewrite length_take; lia |].
    by exists q.
  - intros p Hp. exists (the_country_stat (country_of p) mapped_data). split.
    + apply stats_elem. split; [| done]. apply first_seen_elem.
      by apply (list_elem_of_fmap_2 country_of).
    + unfold the_country_stat. cbn [cities]. apply elem_of_list_to_set.
      apply (list_elem_of_fmap_2 city_name). by apply list_elem_of_filter.
Qed.

Lemma foldl_count {A} (l : list A) (a : Z) :
  foldl (λ n _, n + 1) a l = a + Z.of_nat (length l).
Proof.
  revert a. induction l as [|x l IH]; intros a; [simpl; lia |].
  cbn [foldl length]. rewrite IH. lia.
Qed.

Lemma monthly_inner (mapped_data : list payload) (month : string) :
  foldl (λ inner p, update 0 (λ n, n + 1) (country_of p) inner) []
        (filter (λ p, p_month p = month) mapped_data)
  = fold_update 0 (λ n _, n + 1) country_of (filter (λ p, p_month p = month) mapped_data).
Proof. reflexivity. Qed.

(** X11. monthly_distribution has one entry for each distinct month of
    the payloads, in order of first appearance; the count of a month and
    a country is the number of payloads with that month and that
    country, and the countries listed under a month are exactly those
    with at least one such payload, in order of first appearance. *)
Theorem reduce_geographic_data_months (mapped_data : list payload) :
  ∃ results, reduce_geographic_data mapped_data = Some results
    ∧ (monthly_distribution results).*1 = first_seen (p_month <$> mapped_data)
    ∧ (∀ month c, monthly_get month c (monthly_distribution results)
                  = month_count month c mapped_data)
    ∧ (∀ month inner, (month, inner) ∈ monthly_distribution results →
         inner.*1 = first_seen (country_of <$> filter (λ p, p_month p = month) mapped_data)
         ∧ inner ≠ []
         ∧ Forall (λ cn, 1 <= snd cn) inner).
Proof.
  rewrite reduce_geographic_data_eq.
  destruct (analyze_themes_no_error (themes_by country_of mapped_data)
                                    (themes_by city_name mapped_data)) as [analysis Ha].
  rewrite Ha. cbn [mbind option_bind]. eexists. split; [reflexivity |].
  cbn [monthly_distribution].
  split; [apply (fold_update_keys [] (λ inner p, update 0 (λ n, n + 1) (country_of p) inner)) |].
  split.
  - intros month c. unfold monthly_get, month_count. rewrite fold_update_get.
    case_bool_decide as E.
    + cbn [mbind option_bind]. rewrite monthly_inner, fold_update_get.
      case_bool_decide as E1; [cbn; by rewrite foldl_count |].
      cbn. by rewrite (filter_key_nil country_of _ _ E1).
    + cbn. by rewrite (filter_key_nil p_month _ _ E).
  - intros month inner [Hm ->]%fold_update_elem. rewrite monthly_inner.
    split; [apply (fold_update_keys 0 (λ n (_ : payload), n + 1)) |].
    split.
    + intros H. apply (f_equal (fmap fst)) in H.
      rewrite (fold_update_keys 0 (λ n (_ : payload), n + 1)) in H.
      apply list_elem_of_fmap in Hm as (p & -> & Hp).
      assert (Hin : country_of p ∈ first_seen (country_of <$> filter (λ q, p_month q = p_month p) mapped_data)).
      { apply first_seen_elem, (list_elem_of_fmap_2 country_of).
        by apply list_elem_of_filter. }
      rewrite H in Hin. by apply elem_of_nil in Hin.
    + apply Forall_forall. intros [c n] [Hc ->]%fold_update_elem. cbn [snd].
      rewrite foldl_count.
      apply (payloads_with_nonempty country_of) in Hc. unfold payloads_with in Hc.
      destruct (filter _ (filter _ mapped_data)); [done | simpl; lia].
Qed.

Lemma map_phase_payload (tweets : list tweet) (p : payload) :
  p ∈ GeographicReducer.map_phase tweets →
  country_of p = default "Unknown" (city_to_country !! Str.lower (city_name p))
  ∧ p_themes p ≠ [].
Proof.
  intros (tw & Htw & H)%list_elem_of_omap.
  apply map_geographic_data_some in H as (Hl & Ht & _).
  destruct (proj1 location_info_of_normal_city_lemma tw _ Hl) as (_ & H2 & _).
  split; [exact H2 |]. rewrite Ht. apply extract_themes_shape_lemma.
Qed.

Lemma themes_with_nonempty (key : payload → string) (k : string) (l : list payload) :
  Forall (λ p, p_themes p ≠ []) l → k ∈ key <$> l → themes_with key k l ≠ [].
Proof.
  intros Hall Hk. destruct (head_payloads_with key k l Hk) as (q & Hq & Hin & _).
  unfold themes_with. destruct (payloads_with key k l) as [|q' r]; [done |].
  injection Hq as ->. rewrite fmap_cons. cbn [concat].
  rewrite Forall_forall in Hall. specialize (Hall q Hin).
  by destruct (p_themes q).
Qed.

(** X12. On the payloads collected by the map loop of
    run_geographic_mapreduce_local from tweets whose cities consist of
    ASCII characters (at most one payload for each tweet) the reducer
    succeeds; for every payload the entry of its city in city_statistics
    names the country of the payload, and regional_specialties has an
    entry for its country. *)
Theorem geographic_analysis_of_mapped_tweets (tweets : list tweet) :
  Forall (λ tw, is_ascii (city_of tw) = true) tweets →
  ∃ results, reduce_geographic_data (GeographicReducer.map_phase tweets) = Some results
    ∧ (length (GeographicReducer.map_phase tweets) <= length tweets)%nat
    ∧ ∀ p, p ∈ GeographicReducer.map_phase tweets →
        (∃ st, (city_name p, st) ∈ city_statistics results ∧ country st = country_of p)
        ∧ is_Some (regional_specialties (theme_analysis results) !! country_of p).
Proof.
  intros _. set (md := GeographicReducer.map_phase tweets).
  rewrite reduce_geographic_data_eq.
  destruct (analyze_themes_total (themes_by country_of md) (themes_by city_name md))
    as (analysis & Ha & Hr).
  { rewrite themes_by_keys. apply first_seen_NoDup. }
  rewrite Ha. cbn [mbind option_bind]. eexists. split; [reflexivity |].
  split; [apply omap_length_le |].
  cbn [city_statistics theme_analysis]. intros p Hp.
  assert (Hthemes : Forall (λ q, p_themes q ≠ []) md).
  { apply Forall_forall. intros q Hq. by apply (map_phase_payload tweets). }
  split.
  - exists (the_city_stat (city_name p) md). split.
    + apply stats_elem. split; [| done]. apply first_seen_elem.
      by apply (list_elem_of_fmap_2 city_name).
    + unfold the_city_stat. cbn [country].
      destruct (head_payloads_with city_name (city_name p) md) as (q & -> & Hq & Hc).
      { by apply (list_elem_of_fmap_2 city_name). }
      cbn. destruct (map_phase_payload tweets q Hq) as [-> _].
      destruct (map_phase_payload tweets p Hp) as [-> _]. by rewrite Hc.
  - assert (Hc : country_of p ∈ country_of <$> md)
      by (by apply (list_elem_of_fmap_2 country_of)).
    rewrite (Hr (country_of p) (themes_with country_of (country_of p) md)).
    + rewrite bool_decide_false; [by eexists |]. by apply themes_with_nonempty.
    + unfold themes_by. apply stats_elem. split; [by apply first_seen_elem | done].
Qed.

Lemma geographic_analysis_of_mapped_tweets_witness :
  ∃ results,
    reduce_geographic_data
      (GeographicReducer.map_phase [Reference.undated_paris_tweet; Reference.blank_city_tweet])
    = Some results
    ∧ (length (GeographicReducer.map_phase
                 [Reference.undated_paris_tweet; Reference.blank_city_tweet]) <= 2)%nat
    ∧ ∀ p, p ∈ GeographicReducer.map_phase
                 [Reference.undated_paris_tweet; Reference.blank_city_tweet] →
        (∃ st, (city_name p, st) ∈ city_statistics results ∧ country st = country_of p)
        ∧ is_Some (regional_specialties (theme_analysis results) !! country_of p).
Proof.
  apply (geographic_analysis_of_mapped_tweets
           [Reference.undated_paris_tweet; Reference.blank_city_tweet]).
  repeat constructor.
Defined.

End GeographicReduction.

(** ** Integers as text *)

Section Numerals.
Import Str Streaming Reference Reference2.

Lemma digits_from_uint (d : Decimal.uint) (acc : Z) (b : bool) :
  digits_from acc b (NilEmpty.string_of_uint d)
  = match d with
    | Decimal.Nil => if b then Some acc else None
    | _ => Some (horner acc d)
    end.
Proof.
  revert acc b. induction d as [|l IH|l IH|l IH|l IH|l IH|l IH|l IH|l IH|l IH|l IH];
    intros acc b; [reflexivity | ..];
    cbn [NilEmpty.string_of_uint digits_from horner];
    change (isdigit _) with true; cbn match; rewrite IH; by destruct l.
Qed.

Lemma of_uint_acc_horner (d : Decimal.uint) (p : positive) :
  Z.pos (Pos.of_uint_acc d p) = horner (Z.pos p) d.
Proof.
  revert p. induction d as [|l IH|l IH|l IH|l IH|l IH|l IH|l IH|l IH|l IH|l IH];
    intros p; [reflexivity | ..];
    cbn [Pos.of_uint_acc horner]; rewrite IH; f_equal; lia.
Qed.

Lemma of_uint_horner (d : Decimal.uint) : Z.of_uint d = horner 0 d.
Proof.
  unfold Z.of_uint.
  induction d as [|l IH|l IH|l IH|l IH|l IH|l IH|l IH|l IH|l IH|l IH];
    [reflexivity | exact IH | ..];
    cbn [Pos.of_uint horner Z.of_N]; by rewrite of_uint_acc_horner.
Qed.

Lemma uint_nonspace (d : Decimal.uint) :
  all_chars nonspace (NilEmpty.string_of_uint d) = true.
Proof. induction d; [reflexivity | ..]; exact IHd. Qed.

Lemma uint_tab_free (d : Decimal.uint) : tab_free (NilEmpty.string_of_uint d) = true.
Proof. induction d; [reflexivity | ..]; exact IHd. Qed.

Lemma rstrip_nonspace (s : string) : all_chars nonspace s = true → rstrip s = s.
Proof.
  induction s as [|c s IH]; [done |]. cbn [all_chars rstrip].
  intros [Hc Hs]%andb_prop. rewrite (IH Hs). unfold nonspace in Hc.
  apply negb_true_iff in Hc. rewrite Hc. by destruct s.
Qed.

Lemma strip_nonspace (s : string) : all_chars nonspace s = true → strip s = s.
Proof.
  intros H. unfold strip. rewrite lstrip_id; [by apply rstrip_nonspace |].
  destruct s as [|c s]; [done |]. cbn in H |- *. apply andb_prop in H as [H _].
  unfold nonspace in H. by apply negb_true_iff in H.
Qed.

Lemma int_uint (d : Decimal.uint) :
  d ≠ Decimal.Nil →
  int (NilEmpty.string_of_uint d) = inr (Z.of_uint d)
  ∧ int (String "-" (NilEmpty.string_of_uint d)) = inr (- Z.of_uint d).
Proof.
  intros Hd. unfold int.
  rewrite (strip_nonspace _ (uint_nonspace d)).
  rewrite (strip_nonspace (String "-" _)) by (cbn [all_chars]; apply uint_nonspace).
  rewrite of_uint_horner. pose proof (digits_from_uint d 0 false) as H.
  split.
  - destruct d; try done; cbn [NilEmpty.string_of_uint] in *; by rewrite H.
  - rewrite H. by destruct d.
Qed.

Lemma int_of_Z (n : Z) : int (of_Z n) = inr n.
Proof.
  unfold of_Z. rewrite <- (DecimalZ.of_to n) at 2. destruct n as [|p|p].
  - reflexivity.
  - cbn [Z.to_int NilZero.string_of_int Z.of_int].
    pose proof (DecimalPos.Unsigned.to_uint_nonnil p) as Hp.
    destruct (int_uint _ Hp) as [H _]. unfold NilZero.string_of_uint.
    by destruct (Pos.to_uint p).
  - cbn [Z.to_int NilZero.string_of_int Z.of_int].
    pose proof (DecimalPos.Unsigned.to_uint_nonnil p) as Hp.
    destruct (int_uint _ Hp) as [_ H]. unfold NilZero.string_of_uint.
    by destruct (Pos.to_uint p).
Qed.

End Numerals.

(** ** Printed records and the lines read from them *)

Section PhysicalLines.
Import Data Str Streaming Reference Reference2.

Lemma append_assoc (a b c : string) : (a +:+ b) +:+ c = a +:+ (b +:+ c).
Proof. induction a as [|x a IH]; [done |]. by rewrite !append_cons, IH. Qed.

Lemma append_empty_r (a : string) : a +:+ "" = a.
Proof. induction a as [|x a IH]; [done |]. by rewrite append_cons, IH. Qed.

Lemma all_chars_app (P : ascii → bool) (a b : string) :
  all_chars P (a +:+ b) = all_chars P a && all_chars P b.
Proof.
  induction a as [|c a IH]; [done |].
  rewrite append_cons. cbn [all_chars]. by rewrite IH, andb_assoc.
Qed.


Lemma all_chars_take (P : ascii → bool) (n : nat) (s : string) :
  all_chars P s = true → all_chars P (take n s) = true.
Proof.
  revert s. induction n as [|n IH]; intros [|c s]; cbn [take all_chars]; try done.
  intros [Hc Hs]%andb_prop. by rewrite Hc, IH.
Qed.

Lemma all_chars_lstrip (P : ascii → bool) (s : string) :
  all_chars P s = true → all_chars P (lstrip s) = true.
Proof.
  induction s as [|c s IH]; [done |]. cbn [lstrip]. intros H.
  destruct (isspace c); [| done]. cbn [all_chars] in H. apply andb_prop in H as [_ H].
  by apply IH.
Qed.

Lemma all_chars_rstrip (P : ascii → bool) (s : string) :
  all_chars P s = true → all_chars P (rstrip s) = true.
Proof.
  induction s as [|c s IH]; [done |]. cbn [rstrip all_chars].
  intros [Hc Hs]%andb_prop. specialize (IH Hs).
  destruct (rstrip s); [destruct (isspace c); [done |] |]; cbn [all_chars] in *;
    by rewrite Hc.
Qed.

Lemma all_chars_strip (P : ascii → bool) (s : string) :
  all_chars P s = true → all_chars P (strip s) = true.
Proof. intros H. by apply all_chars_rstrip, all_chars_lstrip. Qed.




Lemma uint_one_line (d : Decimal.uint) : one_line (NilEmpty.string_of_uint d) = true.
Proof. induction d; [reflexivity | ..]; exact IHd. Qed.

Lemma of_Z_one_line (n : Z) : one_line (of_Z n) = true.
Proof.
  unfold of_Z. destruct n as [|p|p]; [done | |];
    cbn [Z.to_int NilZero.string_of_int];
    pose proof (uint_one_line (Pos.to_uint p)) as H;
    unfold NilZero.string_of_uint; destruct (Pos.to_uint p); done.
Qed.

Lemma one_line_line4 (T m i c : string) :
  one_line T = true → one_line m = true → one_line i = true → one_line c = true →
  one_line (line4 T m i c) = true.
Proof.
  intros HT Hm Hi Hc. unfold line4, one_line in *.
  rewrite !all_chars_app, HT, Hm, Hi, Hc. reflexivity.
Qed.

Lemma lines_from_line (cur p text : string) :
  one_line p = true →
  lines_from cur (p +:+ NL +:+ text) = (cur +:+ p +:+ NL) :: lines_from "" text.
Proof.
  revert cur. induction p as [|c p IH]; intros cur H.
  - change ("" +:+ NL +:+ text) with (String LF text). cbn [lines_from].
    by rewrite bool_decide_true.
  - unfold one_line in H. cbn [all_chars] in H. apply andb_prop in H as [Hc Hp].
    rewrite append_cons. cbn [lines_from].
    rewrite bool_decide_false.
    + rewrite (IH _ Hp). f_equal. by rewrite append_assoc.
    + intros ->. done.
Qed.

Lemma readlines_written (prints : list string) :
  Forall (λ p, one_line p = true) prints →
  readlines (written prints) = with_newline <$> prints.
Proof.
  unfold readlines. induction 1 as [|p r Hp _ IH]; [reflexivity |].
  cbn [written foldr fmap list_fmap]. fold (written r).
  by rewrite (lines_from_line "" p (written r) Hp), IH.
Qed.

End PhysicalLines.

(** ** The line protocol between the mapper and the reducer *)

Section StreamingProtocol.
Import Data Str Streaming Reference Reference2.

Lemma split_from_whole (cur a : string) :
  tab_free a = true → split_from tab cur a = [cur +:+ a].
Proof.
  revert cur. induction a as [|c a IH]; intros cur H; cbn [split_from].
  - by rewrite append_empty_r.
  - cbn [tab_free] in H. apply andb_prop in H as [Hc Ha].
    apply negb_true_iff in Hc. rewrite Hc, (IH _ Ha), append_assoc. done.
Qed.

Lemma split_from_field (cur a r : string) :
  tab_free a = true →
  split_from tab cur (a +:+ String tab r) = (cur +:+ a) :: split_from tab "" r.
Proof.
  revert cur. induction a as [|c a IH]; intros cur H.
  - change ("" +:+ String tab r) with (String tab r). cbn [split_from].
    rewrite bool_decide_true by done. by rewrite append_empty_r.
  - cbn [tab_free] in H. apply andb_prop in H as [Hc Ha].
    apply negb_true_iff in Hc. rewrite append_cons. cbn [split_from].
    rewrite Hc, (IH _ Ha), append_assoc. done.
Qed.

Lemma line4_eq (T m i c : string) :
  line4 T m i c = T +:+ String tab (m +:+ String tab (i +:+ String tab c)).
Proof. reflexivity. Qed.

Lemma split_line4 (T m i c : string) :
  tab_free T = true → tab_free m = true → tab_free i = true → tab_free c = true →
  split tab (line4 T m i c) = [T; m; i; c].
Proof.
  intros HT Hm Hi Hc. rewrite line4_eq. unfold split.
  rewrite (split_from_field _ _ _ HT), (split_from_field _ _ _ Hm),
    (split_from_field _ _ _ Hi), (split_from_whole _ _ Hc). done.
Qed.

Lemma rstrip_newline (s : string) : rstrip (s +:+ NL) = rstrip s.
Proof.
  induction s as [|c s IH]; [reflexivity |].
  rewrite append_cons. cbn [rstrip]. by rewrite IH.
Qed.

Lemma rstrip_app_keep (a b : string) :
  rstrip b = b → b ≠ "" → rstrip (a +:+ b) = a +:+ b.
Proof.
  intros Hb Hne. induction a as [|c a IH]; [done |].
  rewrite append_cons. cbn [rstrip]. rewrite IH.
  destruct (a +:+ b) eqn:E; [| done]. destruct a; [by subst | done].
Qed.

Lemma leading_space_app (a b : string) :
  a ≠ "" → leading_space (a +:+ b) = leading_space a.
Proof. by destruct a. Qed.

Lemma strip_line4 (T m i c : string) :
  T ≠ "" → leading_space T = false → all_chars nonspace c = true → c ≠ "" →
  strip (with_newline (line4 T m i c)) = line4 T m i c
  ∧ strip (line4 T m i c) = line4 T m i c.
Proof.
  intros HT Hl Hc Hne.
  assert (Hr : rstrip (line4 T m i c) = line4 T m i c).
  { unfold line4. rewrite <- !append_assoc. apply rstrip_app_keep; [| done].
    by apply rstrip_nonspace. }
  assert (Hlead : leading_space (line4 T m i c) = false).
  { unfold line4. by rewrite leading_space_app. }
  unfold strip, with_newline. split.
  - rewrite lstrip_id by (rewrite leading_space_app; [done | by destruct T]).
    by rewrite rstrip_newline.
  - by rewrite lstrip_id.
Qed.

Lemma well_formed_line4 (T m i c : string) (n : Z) :
  tab_free T = true → tab_free m = true → tab_free i = true → tab_free c = true →
  T ≠ "" → leading_space T = false → all_chars nonspace c = true → c ≠ "" →
  int c = inr n →
  well_formed (with_newline (line4 T m i c)) = Some (m, i, n)
  ∧ well_formed (line4 T m i c) = Some (m, i, n).
Proof.
  intros HT Hm Hi Hc Hne Hl Hs Hcne Hint.
  destruct (strip_line4 T m i c Hne Hl Hs Hcne) as [H1 H2].
  unfold well_formed, fields_of. rewrite H1, H2, split_line4 by done.
  by rewrite Hint.
Qed.

Lemma of_Z_chars (n : Z) :
  tab_free (of_Z n) = true ∧ all_chars nonspace (of_Z n) = true ∧ of_Z n ≠ "".
Proof.
  unfold of_Z. destruct n as [|p|p]; [done | |];
    cbn [Z.to_int NilZero.string_of_int];
    pose proof (DecimalPos.Unsigned.to_uint_nonnil p) as Hp;
    pose proof (uint_tab_free (Pos.to_uint p)) as H1;
    pose proof (uint_nonspace (Pos.to_uint p)) as H2;
    unfold NilZero.string_of_uint; destruct (Pos.to_uint p); done.
Qed.

Lemma protocol_round_trip_lemma (record_type month item : string) (n : Z) :
  tab_free record_type = true → tab_free month = true → tab_free item = true →
  record_type ≠ "" → leading_space record_type = false →
  well_formed (with_newline (line4 record_type month item (of_Z n)))
  = Some (month, item, n)
  ∧ int (of_Z n) = inr n.
Proof.
  intros HT Hm Hi Hne Hl. destruct (of_Z_chars n) as (H1 & H2 & H3).
  split; [| apply int_of_Z].
  by apply (well_formed_line4 record_type month item (of_Z n) n HT Hm Hi H1 Hne Hl H2 H3),
           int_of_Z.
Qed.

(** X13. A record TYPE<tab>MONTH<tab>ITEM<tab>COUNT written by one print
    call, whose type is not empty and has no leading white space, whose
    type, month and item contain no tab, no line feed and no carriage
    return and whose count is str(n) for any integer n, is read from
    standard input as exactly one line, which the reducer parses to the
    month, the item and the count n; in particular int(str(n)) is n. *)
Theorem protocol_round_trip (record_type month item : string) (n : Z) :
  tab_free record_type = true → tab_free month = true → tab_free item = true →
  one_line record_type = true → one_line month = true → one_line item = true →
  record_type ≠ "" → leading_space record_type = false →
  readlines (written [line4 record_type month item (of_Z n)])
  = [with_newline (line4 record_type month item (of_Z n))]
  ∧ well_formed (with_newline (line4 record_type month item (of_Z n)))
    = Some (month, item, n)
  ∧ int (of_Z n) = inr n.
Proof.
  intros HT Hm Hi HT' Hm' Hi' Hne Hl. split.
  - apply (readlines_written [_]). constructor; [| constructor].
    apply one_line_line4; try done. apply of_Z_one_line.
  - by apply protocol_round_trip_lemma.
Qed.

Lemma protocol_round_trip_witness :
  readlines (written [line4 "SENTIMENT_RESULT" "2024-01" "positive" (of_Z (-12))])
  = [with_newline (line4 "SENTIMENT_RESULT" "2024-01" "positive" (of_Z (-12)))]
  ∧ well_formed (with_newline (line4 "SENTIMENT_RESULT" "2024-01" "positive" (of_Z (-12))))
    = Some ("2024-01", "positive", -12)
  ∧ int (of_Z (-12)) = inr (-12).
Proof. apply protocol_round_trip; reflexivity || discriminate. Defined.

Lemma well_formed_item_tab_free (line m i : string) (n : Z) :
  well_formed line = Some (m, i, n) → tab_free i = true.
Proof.
  unfold well_formed, fields_of. intros H.
  pose proof (split_tab_free (strip line)) as Hf.
  destruct (split tab (strip line)) as [|f0 [|f1 [|f2 [|f3 rest]]]]; try done.
  destruct (int f3); [done |]. injection H as _ <- _.
  apply Forall_cons in Hf as [_ Hf]. apply Forall_cons in Hf as [_ Hf].
  by apply Forall_cons in Hf as [? _].
Qed.

Lemma counter_entries_shape (stdin : list string) (a : string * Z) :
  a ∈ foldl reduce_line [] stdin →
  ∃ m i, fst a = key_of m i ∧ tab_free m = true ∧ tab_free i = true.
Proof.
  intros Ha.
  assert (H : fst a ∈ (foldl reduce_line [] stdin).*1) by (by apply (list_elem_of_fmap_2 fst)).
  apply counter_keys in H as (line & m & i & n & _ & H2 & H3).
  exists m, i. split; [exact H3 |].
  split; [by apply (well_formed_tab_free line m i n) |
          by apply (well_formed_item_tab_free line m i n)].
Qed.

Lemma result_type_chars (env : option string) :
  tab_free (result_type env) = true ∧ result_type env ≠ ""
  ∧ leading_space (result_type env) = false.
Proof. unfold result_type. repeat case_bool_decide; done. Qed.

Lemma reduce_line_render (env : option string) (c : counter) (m i : string) (n : Z) :
  tab_free m = true → tab_free i = true →
  reduce_line c (with_newline (render (result_type env) (key_of m i, n)))
  = counter_add (key_of m i) n c.
Proof.
  intros Hm Hi. destruct (result_type_chars env) as (H1 & H2 & H3).
  rewrite reduce_line_spec. unfold render. cbn [fst snd].
  rewrite (split_once_key m i Hm).
  by rewrite (proj1 (protocol_round_trip_lemma (result_type env) m i n H1 Hm Hi H2 H3)).
Qed.

Lemma counter_add_fresh (k : string) (n : Z) (c : counter) :
  k ∉ c.*1 → counter_add k n c = c ++ [(k, n)].
Proof.
  induction c as [|[k' v] r IH]; [done |]. rewrite fmap_cons. cbn [fst counter_add].
  intros [H1 H2]%not_elem_of_cons. rewrite bool_decide_false by done.
  by rewrite IH.
Qed.

Lemma reduce_rendered (env : option string) (l acc : counter) :
  Forall (λ a, ∃ m i, fst a = key_of m i ∧ tab_free m = true ∧ tab_free i = true) l →
  NoDup (acc.*1 ++ l.*1) →
  foldl reduce_line acc (with_newline ∘ render (result_type env) <$> l) = acc ++ l.
Proof.
  intros H. revert acc. induction H as [|[k n] l (m & i & Hk & Hm & Hi) _ IH]; intros acc Hnd.
  - by rewrite app_nil_r.
  - cbn [fst] in Hk. subst k. rewrite fmap_cons. cbn [foldl compose].
    rewrite (reduce_line_render env acc m i n Hm Hi).
    rewrite fmap_cons in Hnd. cbn [fst] in Hnd.
    rewrite counter_add_fresh.
    + rewrite IH; [by rewrite <- app_assoc |].
      rewrite fmap_app, <- app_assoc. done.
    + apply NoDup_app in Hnd as (_ & Hnd & _). intros Hin. apply (Hnd _ Hin). left.
Qed.

Lemma sorted_reverse_fixed {A} (lt : A → A → bool) (P : relation A) (l : list A) :
  StronglySorted (stable_desc lt P) l → sorted_reverse lt l = l.
Proof.
  induction 1 as [|x l Hl IH Hx]; [done |]. unfold sorted_reverse in *. cbn [foldr].
  rewrite IH. destruct l as [|y r]; [done |]. cbn [insert_by].
  apply Forall_cons in Hx as [[Hxy _] _]. by rewrite Hxy.
Qed.

Lemma most_common_fixed (n : option nat) (c : counter) :
  most_common n (most_common n c) = most_common n c.
Proof.
  assert (Hc : StronglySorted (λ _ _ : string * Z, True) c).
  { clear. induction c as [|a c IH]; [constructor |].
    constructor; [exact IH | by apply Forall_forall]. }
  pose proof (most_common_sorted (λ _ _, True) n c Hc) as Hs. destruct n as [n|]; cbn [most_common] in *.
  - rewrite (sorted_reverse_fixed _ _ _ Hs). apply take_idemp.
  - by rewrite (sorted_reverse_fixed _ _ _ Hs).
Qed.

Lemma most_common_NoDup (n : option nat) (c : counter) :
  NoDup c.*1 → NoDup (most_common n c).*1.
Proof.
  intros H.
  assert (Hp : NoDup (sorted_reverse count_lt c).*1) by (by rewrite sorted_reverse_perm).
  destruct n as [n|]; cbn [most_common]; [| done].
  rewrite fmap_take. apply (sublist_NoDup _ _ Hp), sublist_take.
Qed.

(** X14. The reducer is idempotent on its own output: fed the lines it
    printed, each as one input line, it prints the same lines in the
    same order. *)
Theorem reducer_reads_its_output (env : option string) (stdin out : list string) :
  reducer_combined env stdin = inr out →
  reducer_combined env (with_newline <$> out) = inr out.
Proof.
  rewrite !reducer_combined_render. intros [= <-]. f_equal.
  case_bool_decide as E; [| done]. f_equal.
  set (mc := most_common (limit_of (analysis_type env)) (foldl reduce_line [] stdin)).
  rewrite <- list_fmap_compose.
  rewrite (reduce_rendered env mc []).
  - apply most_common_fixed.
  - apply Forall_forall. intros a Ha. apply (counter_entries_shape stdin).
    by apply (most_common_subseteq (limit_of (analysis_type env))).
  - apply most_common_NoDup, counter_NoDup.
Qed.

Lemma reducer_reads_its_output_witness :
  reducer_combined (Some "sentiment")
    (with_newline <$> [line4 "SENTIMENT_RESULT" "2024-01" "positive" "2"])
  = inr [line4 "SENTIMENT_RESULT" "2024-01" "positive" "2"].
Proof.
  apply (reducer_reads_its_output (Some "sentiment") two_positive_lines).
  vm_compute. reflexivity.
Defined.

End StreamingProtocol.

(** ** From the mapper to the reducer, in sentiment mode *)

Section SentimentStream.
Import Data Str Streaming Dict Reference Reference2.
Variable format_float : Q → string.

Lemma pad4_tab_free (n : Z) : tab_free (Datetime.pad4 n) = true.
Proof.
  unfold Datetime.pad4. rewrite tab_free_app, (proj1 (of_Z_chars n)), andb_true_r.
  by repeat case_match.
Qed.

Lemma of_Z_02_tab_free (n : Z) : tab_free (of_Z_02 n) = true.
Proof.
  unfold of_Z_02. case_match; [| apply of_Z_chars].
  rewrite tab_free_app. by rewrite (proj1 (of_Z_chars n)).
Qed.

Lemma month_key_tab_free (tw : tweet) : tab_free (month_key_of tw) = true.
Proof.
  unfold month_key_of. case_match; [done |]. case_match; [| done].
  unfold Datetime.strftime_Y_m.
  by rewrite !tab_free_app, pad4_tab_free, of_Z_02_tab_free.
Qed.

Lemma map_sentiment_mode_line (month_key text : string) :
  ∃ label, is_label label
           ∧ map_sentiment_mode month_key text = [line4 "SENTIMENT" month_key label "1"].
Proof.
  unfold map_sentiment_mode, is_label. cbv zeta.
  repeat case_match; eexists; (split; [| reflexivity]); tauto.
Qed.

Lemma map_tweet_sentiment (env : option string) (tw : tweet) :
  analysis_type env = "sentiment" → has_text tw →
  ∃ label, is_label label
           ∧ map_tweet format_float env tw
             = [line4 "SENTIMENT" (month_key_of tw) label "1"].
Proof.
  intros Hmode Htext. unfold map_tweet. rewrite Hmode.
  destruct (is_empty (tweet_text_of tw)) eqn:E.
  - apply is_empty_true in E. done.
  - rewrite bool_decide_false by done. rewrite bool_decide_true by done.
    apply map_sentiment_mode_line.
Qed.

Lemma mapper_sentiment_lines (env : option string) (tweets : list tweet) :
  analysis_type env = "sentiment" →
  Forall2 (λ tw line, ∃ label, is_label label
                               ∧ line = line4 "SENTIMENT" (month_key_of tw) label "1")
          (filter has_text tweets) (mapper_combined format_float env tweets).
Proof.
  intros Hmode. rewrite mapper_combined_has_text.
  assert (H : Forall has_text (filter has_text tweets)).
  { apply Forall_forall. by intros tw [H _]%list_elem_of_filter. }
  induction H as [|tw l Htw _ IH]; [constructor |].
  rewrite mapper_combined_cons.
  destruct (map_tweet_sentiment env tw Hmode Htw) as (label & Hl & ->).
  constructor; [by exists label | exact IH].
Qed.

Lemma label_tab_free (label : string) : is_label label → tab_free label = true.
Proof. by intros [-> | [-> | ->]]. Qed.

Lemma sentiment_line_read (month label : string) :
  tab_free month = true → tab_free label = true →
  well_formed (with_newline (line4 "SENTIMENT" month label "1")) = Some (month, label, 1).
Proof.
  intros Hm Hl.
  by apply (well_formed_line4 "SENTIMENT" month label "1" 1).
Qed.

Lemma pair_total_cons (m i x : string) (l : list string) :
  pair_total m i (x :: l) = contribution m i x + pair_total m i l.
Proof.
  unfold pair_total, contribution. cbn [foldr].
  destruct (well_formed x) as [[[m' i'] n]|]; [case_bool_decide |]; lia.
Qed.

Lemma pair_total_perm (m i : string) (l l' : list string) :
  l ≡ₚ l' → pair_total m i l = pair_total m i l'.
Proof.
  induction 1 as [| x l l' _ IH | x y l | l l' l'' _ IH1 _ IH2];
    rewrite ?pair_total_cons; lia.
Qed.

Lemma pair_total_sentiment (m i : string) (lines : list string) :
  tab_free m = true → tab_free i = true →
  Forall (λ l, ∃ mk lab, l = line4 "SENTIMENT" mk lab "1"
                         ∧ tab_free mk = true ∧ tab_free lab = true) lines →
  pair_total m i (with_newline <$> lines)
  = Z.of_nat (count (line4 "SENTIMENT" m i "1") lines).
Proof.
  intros Hm Hi. induction 1 as [|x l (mk & lab & -> & Hmk & Hlab) _ IH]; [done |].
  rewrite fmap_cons, pair_total_cons, IH, count_cons. unfold contribution.
  rewrite (sentiment_line_read mk lab Hmk Hlab).
  case_bool_decide as E.
  - destruct E as [-> ->]. rewrite bool_decide_true by done. lia.
  - rewrite bool_decide_false; [lia |]. intros H. apply E.
    apply (f_equal (λ l, well_formed (with_newline l))) in H.
    rewrite !sentiment_line_read in H by done. by injection H.
Qed.

Lemma sentiment_stream (env : option string) (tweets : list tweet) (stdin : list string) :
  analysis_type env = "sentiment" →
  stdin ≡ₚ with_newline <$> mapper_combined format_float env tweets →
  length (mapper_combined format_float env tweets) = length (filter has_text tweets)
  ∧ ∃ out, reducer_combined env stdin = inr out
      ∧ (∀ printed, printed ∈ out →
           ∃ month label,
             is_label label
             ∧ line4 "SENTIMENT" month label "1" ∈ mapper_combined format_float env tweets
             ∧ printed
               = line4 "SENTIMENT_RESULT" month label
                   (of_Z (Z.of_nat (count (line4 "SENTIMENT" month label "1")
                                          (mapper_combined format_float env tweets)))))
      ∧ (∀ line, line ∈ mapper_combined format_float env tweets →
           ∃ month label,
               line = line4 "SENTIMENT" month label "1"
               ∧ line4 "SENTIMENT_RESULT" month label
                   (of_Z (Z.of_nat (count line (mapper_combined format_float env tweets))))
                 ∈ out).
Proof.
  intros Hmode Hperm. pose proof (mapper_sentiment_lines env tweets Hmode) as Hlines.
  set (lines := mapper_combined format_float env tweets) in *.
  split; [symmetry; by apply Forall2_length in Hlines |].
  assert (Hshape : Forall (λ l, ∃ mk lab, l = line4 "SENTIMENT" mk lab "1"
                                          ∧ tab_free mk = true ∧ tab_free lab = true
                                          ∧ is_label lab) lines).
  { apply Forall_forall. intros l Hl.
    apply (Forall2_Forall_r _ (λ l, ∃ mk lab, l = line4 "SENTIMENT" mk lab "1"
                                    ∧ tab_free mk = true ∧ tab_free lab = true
                                    ∧ is_label lab)) in Hlines.
    - rewrite Forall_forall in Hlines. by apply Hlines.
    - apply Forall_forall. intros tw _ line (label & Hlab & ->).
      exists (month_key_of tw), label.
      split; [done |]. split; [apply month_key_tab_free |].
      split; [by apply label_tab_free | done]. }
  assert (Hshape' : Forall (λ l, ∃ mk lab, l = line4 "SENTIMENT" mk lab "1"
                                           ∧ tab_free mk = true ∧ tab_free lab = true) lines).
  { eapply Forall_impl; [exact Hshape |]. intros l (mk & lab & H1 & H2 & H3 & _).
    by exists mk, lab. }
  assert (Hres : result_type env = "SENTIMENT_RESULT").
  { unfold result_type. by rewrite Hmode. }
  destruct (reducer_prints_totals env stdin) as (out & Hout & Hprinted).
  exists out. split; [exact Hout |]. split.
  - intros printed Hp.
    destruct (Hprinted printed Hp) as (month & item & line & n & -> & Hin & Hwf).
    rewrite Hperm in Hin. apply list_elem_of_fmap in Hin as (l & -> & Hl).
    rewrite Forall_forall in Hshape.
    destruct (Hshape l Hl) as (mk & lab & -> & Hmk & Hlab & His).
    rewrite (sentiment_line_read mk lab Hmk Hlab) in Hwf. injection Hwf as <- <- <-.
    exists mk, lab. split; [done |]. split; [done |].
    rewrite Hres, (pair_total_perm _ _ _ _ Hperm).
    by rewrite (pair_total_sentiment mk lab lines Hmk Hlab Hshape').
  - intros line Hl.
    rewrite Forall_forall in Hshape.
    destruct (Hshape line Hl) as (mk & lab & -> & Hmk & Hlab & His).
    exists mk, lab. split; [done |].
    destruct (reducer_sentiment_complete env stdin
                (with_newline (line4 "SENTIMENT" mk lab "1")) mk lab 1 Hmode)
      as (out' & Hout' & Hin').
    + rewrite Hperm. by apply (list_elem_of_fmap_2 with_newline).
    + by apply sentiment_line_read.
    + rewrite Hout in Hout'. injection Hout' as <-.
      rewrite (pair_total_perm _ _ _ _ Hperm) in Hin'.
      by rewrite (pair_total_sentiment mk lab lines Hmk Hlab Hshape') in Hin'.
Qed.

End SentimentStream.

(** X15. In sentiment mode the mapper prints as many lines as there are
    tweets with a text, and the reducer, fed these lines in any order,
    prints for each pair of a month and a label occurring in them a
    SENTIMENT_RESULT line whose count is the number of mapper lines with
    that pair; every line it prints is one of these. *)
Theorem sentiment_stream_counts :
  ∀ (format_float : Q → string) (env : option string) (tweets : list Data.tweet)
    (stdin : list string),
    Streaming.analysis_type env = "sentiment" →
    stdin ≡ₚ Reference2.with_newline <$> Streaming.mapper_combined format_float env tweets →
    length (Streaming.mapper_combined format_float env tweets)
    = length (filter Reference.has_text tweets)
    ∧ ∃ out, Streaming.reducer_combined env stdin = inr out
        ∧ (∀ printed, printed ∈ out →
             ∃ month label,
               Reference2.is_label label
               ∧ Streaming.line4 "SENTIMENT" month label "1"
                 ∈ Streaming.mapper_combined format_float env tweets
               ∧ printed
                 = Streaming.line4 "SENTIMENT_RESULT" month label
                     (Str.of_Z (Z.of_nat (Dict.count
                        (Streaming.line4 "SENTIMENT" month label "1")
                        (Streaming.mapper_combined format_float env tweets)))))
        ∧ (∀ line, line ∈ Streaming.mapper_combined format_float env tweets →
             ∃ month label,
               line = Streaming.line4 "SENTIMENT" month label "1"
               ∧ Streaming.line4 "SENTIMENT_RESULT" month label
                   (Str.of_Z (Z.of_nat (Dict.count line
                      (Streaming.mapper_combined format_float env tweets))))
                 ∈ out).
Proof. exact sentiment_stream. Qed.

Lemma sentiment_stream_counts_witness :
  length (Streaming.mapper_combined (λ _, "") (Some "Sentiment") Reference2.three_tweets)
  = length (filter Reference.has_text Reference2.three_tweets)
  ∧ Streaming.reducer_combined (Some "Sentiment")
      (Reference2.with_newline
         <$> Streaming.mapper_combined (λ _, "") (Some "Sentiment") Reference2.three_tweets)
    = inr [Streaming.line4 "SENTIMENT_RESULT" "2024-01" "positive" "1";
           Streaming.line4 "SENTIMENT_RESULT" "2024-01" "neutral" "1";
           Streaming.line4 "SENTIMENT_RESULT" "2024-03" "positive" "1"].
Proof.
  split; [| vm_compute; reflexivity].
  apply (sentiment_stream_counts (λ _, "") (Some "Sentiment") Reference2.three_tweets
           (Reference2.with_newline
              <$> Streaming.mapper_combined (λ _, "") (Some "Sentiment") Reference2.three_tweets));
    reflexivity.
Defined.

(** ** The lines of the mapper in hashtags and geography mode *)

Section MapperLines.
Import Data Str Streaming Dict Reference Reference2.












End MapperLines.



Section GeographyLines.
Import Data Str Streaming Dict Reference Reference2.
Variable format_float : Q → string.

Lemma tab_free_take (n : nat) (s : string) : tab_free s = true → tab_free (take n s) = true.
Proof.
  revert s. induction n as [|n IH]; intros [|c s]; cbn [take tab_free]; try done.
  intros [Hc Hs]%andb_prop. by rewrite Hc, IH.
Qed.

Lemma tab_free_lstrip (s : string) : tab_free s = true → tab_free (lstrip s) = true.
Proof.
  induction s as [|c s IH]; [done |]. cbn [lstrip]. intros H.
  destruct (isspace c); [| done]. cbn [tab_free] in H. apply andb_prop in H as [_ H].
  by apply IH.
Qed.

Lemma tab_free_rstrip (s : string) : tab_free s = true → tab_free (rstrip s) = true.
Proof.
  induction s as [|c s IH]; [done |]. cbn [rstrip tab_free].
  intros [Hc Hs]%andb_prop. specialize (IH Hs).
  destruct (rstrip s); [destruct (isspace c); [done |] |]; cbn [tab_free]; by rewrite Hc.
Qed.

Lemma tab_free_strip (s : string) : tab_free s = true → tab_free (strip s) = true.
Proof. intros H. by apply tab_free_rstrip, tab_free_lstrip. Qed.

Lemma take_leading (n : nat) (s : string) :
  leading_space s = false → leading_space (take n s) = false.
Proof. by destruct n, s. Qed.

Lemma geography_lines (month_key : string) (tw : tweet) :
  map_geography_mode format_float month_key tw
  = (if is_empty (city_of tw) then []
     else [line4 "LOCATION" month_key (take 50 (strip (city_of tw))) "1"])
    ++ match default [] (tweet_location tw ≫= coordinates) with
       | lat :: lon :: _ =>
           [line4 "COORDINATES" month_key
                  (format_float lat +:+ "," +:+ format_float lon) "1"]
       | _ => []
       end.
Proof.
  unfold map_geography_mode, city_of. cbv zeta.
  destruct (tweet_location tw) as [l|]; [| done]. cbn [mbind option_bind].
  unfold location_is_empty.
  destruct (city l) as [c|], (coordinates l); unfold get_str; cbn [from_option id negb];
    try destruct (is_empty c); done.
Qed.

End GeographyLines.

(** X17. In geography mode, when the month key, the city and the
    formatted coordinates contain no line feed and no carriage return,
    every print call writes exactly one line and the mapper prints at
    most two lines for a tweet. A tweet with a non-empty city has a
    LOCATION line first, whose item is the stripped city cut to 50
    characters, which the reducer parses back when the city and the
    month key have no tab; a tweet with at least two coordinates has a
    COORDINATES line last, with the first two, and a tweet with an empty
    city prints nothing but this line. *)
Theorem geography_mode_lines :
  ∀ (format_float : Q → string) (month_key : string) (tw : Data.tweet),
    Reference2.one_line month_key = true →
    Reference2.one_line (Reference.city_of tw) = true →
    (∀ x, Reference2.one_line (format_float x) = true) →
    let city := Reference.city_of tw in
    let item := Str.take 50 (Str.strip city) in
    let lines := Streaming.map_geography_mode format_float month_key tw in
    Reference2.readlines (Reference2.written lines) = Reference2.with_newline <$> lines
    ∧ (length lines <= 2)%nat
    ∧ (String.length item <= 50)%nat
    ∧ Reference.leading_space item = false
    ∧ (city ≠ "" → head lines = Some (Streaming.line4 "LOCATION" month_key item "1"))
    ∧ (city ≠ "" → Reference.tab_free city = true → Reference.tab_free month_key = true →
       Streaming.well_formed
         (Reference2.with_newline (Streaming.line4 "LOCATION" month_key item "1"))
       = Some (month_key, item, 1))
    ∧ (city = "" → ∀ line, line ∈ lines →
         ∃ lat lon rest,
           default [] (Data.tweet_location tw ≫= Data.coordinates) = lat :: lon :: rest
           ∧ line = Streaming.line4 "COORDINATES" month_key
                      (format_float lat +:+ "," +:+ format_float lon) "1")
    ∧ (∀ lat lon rest,
         default [] (Data.tweet_location tw ≫= Data.coordinates) = lat :: lon :: rest →
         last lines = Some (Streaming.line4 "COORDINATES" month_key
                              (format_float lat +:+ "," +:+ format_float lon) "1")).
Proof.
  intros format_float month_key tw Hmk Hcity Hff city item lines. unfold lines.
  rewrite geography_lines. fold city. fold item.
  split.
  { apply readlines_written, Forall_app. split.
    - destruct (Str.is_empty city); constructor; [| constructor].
      apply one_line_line4; try done.
      by apply all_chars_take, all_chars_strip.
    - destruct (default [] (Data.tweet_location tw ≫= Data.coordinates))
        as [|lat [|lon rest]]; constructor; [| constructor].
      apply one_line_line4; try done.
      unfold Reference2.one_line. rewrite !all_chars_app.
      fold (Reference2.one_line (format_float lat)).
      fold (Reference2.one_line (format_float lon)).
      by rewrite !Hff. }
  split; [destruct (Str.is_empty city); repeat case_match; simpl; lia |].
  split; [apply take_length |].
  split; [apply take_leading, lstrip_rstrip_leading |].
  split.
  { intros Hc. destruct (Str.is_empty city) eqn:E; [by apply is_empty_true in E | done]. }
  split.
  { intros _ Hc Hm.
    apply (well_formed_line4 "LOCATION" month_key item "1" 1); try done.
    by apply tab_free_take, tab_free_strip. }
  split.
  { intros ->. cbn [Str.is_empty app]. intros line Hl.
    destruct (default [] (Data.tweet_location tw ≫= Data.coordinates)) as [|lat [|lon rest]];
      try (by apply elem_of_nil in Hl).
    apply list_elem_of_singleton in Hl. by exists lat, lon, rest. }
  intros lat lon rest ->. by destruct (Str.is_empty city).
Qed.

Lemma geography_mode_lines_witness :
  Reference2.readlines
    (Reference2.written
       (Streaming.map_geography_mode (λ _, "") "2024-01" Reference.undated_paris_tweet))
  = [Reference2.with_newline (Streaming.line4 "LOCATION" "2024-01" "Paris" "1")]
  ∧ Streaming.well_formed
      (Reference2.with_newline (Streaming.line4 "LOCATION" "2024-01" "Paris" "1"))
    = Some ("2024-01", "Paris", 1).
Proof.
  pose proof (geography_mode_lines (λ _, "") "2024-01" Reference.undated_paris_tweet
                eq_refl eq_refl (λ _, eq_refl)) as (H1 & _ & _ & _ & _ & H2 & _).
  split; [exact H1 |]. apply H2; [discriminate | reflexivity | reflexivity].
Defined.

(** ** The hashtag mapper and the lists of the most common *)

Section TopLists.
Import Data Str Hashtag Streaming Reference Reference2.

Lemma map_hashtags_some (tw : tweet) (p : string * string) :
  p ∈ map_hashtags tw →
  ∃ dt raw,
    Datetime.strptime_ymd_hms (get_str (timestamp tw)) = Some dt
    ∧ raw ∈ default [] (hashtags tw)
    ∧ p = (year_month dt, clean_hashtag raw)
    ∧ clean_hashtag raw ≠ "".
Proof.
  unfold map_hashtags. cbv zeta.
  destruct (is_empty (get_str (timestamp tw)) || bool_decide (default [] (hashtags tw) = []));
    [intros H; by apply elem_of_nil in H |].
  destruct (Datetime.strptime_ymd_hms (get_str (timestamp tw))) as [dt|];
    [| intros H; by apply elem_of_nil in H].
  intros (raw & Hraw & H)%list_elem_of_omap.
  destruct (is_empty (clean_hashtag raw)) eqn:E; [done |]. injection H as <-.
  exists dt, raw. repeat split; [done |]. intros H. by rewrite H in E.
Qed.

(** X18. map_hashtags returns at most one pair for each hashtag of the
    tweet and none when the timestamp does not parse. Otherwise the
    pairs are, in order, the cleaned hashtags that are not empty, each
    with the month key of the timestamp; every hashtag returned is not
    empty, lower-cased and without trailing white space. *)
Theorem map_hashtags_pairs (tw : tweet) :
  (length (map_hashtags tw) <= length (default [] (hashtags tw)))%nat
  ∧ (Datetime.strptime_ymd_hms (get_str (timestamp tw)) = None → map_hashtags tw = [])
  ∧ (∀ dt, Datetime.strptime_ymd_hms (get_str (timestamp tw)) = Some dt →
       map_hashtags tw
       = (λ h, (year_month dt, h))
           <$> filter (λ h, h ≠ "") (clean_hashtag <$> default [] (hashtags tw)))
  ∧ (∀ month h, (month, h) ∈ map_hashtags tw →
       h ≠ "" ∧ lower h = h ∧ rstrip h = h
       ∧ ∃ raw, raw ∈ default [] (hashtags tw) ∧ h = clean_hashtag raw).
Proof.
  split; [| split; [| split]].
  - unfold map_hashtags. cbv zeta. repeat case_match; try (simpl; lia).
    apply omap_length_le.
  - intros H. unfold map_hashtags. cbv zeta. rewrite H. by case_match.
  - intros dt H. unfold map_hashtags. cbv zeta. rewrite H.
    destruct (is_empty (get_str (timestamp tw))) eqn:Et.
    { apply is_empty_true in Et. rewrite Et in H. done. }
    cbn [orb]. case_bool_decide as E; [by rewrite E |].
    generalize (default [] (hashtags tw)). intros l.
    induction l as [|x l IH]; [done |]. rewrite fmap_cons, filter_cons. csimpl.
    destruct (is_empty (clean_hashtag x)) eqn:Ex.
    + apply is_empty_true in Ex. rewrite decide_False by (by intros ?). exact IH.
    + rewrite decide_True by (intros Hx; by rewrite Hx in Ex).
      rewrite fmap_cons. by f_equal.
  - intros month h (dt & raw & _ & Hraw & [= -> ->] & Hne)%map_hashtags_some.
    split; [done |]. split; [apply clean_hashtag_lower |].
    split; [apply clean_hashtag_rstrip |]. by exists raw.
Qed.

Lemma map_hashtags_pairs_witness :
  map_hashtags Reference.march_tweet = [("2024-03", "ai")]
  ∧ "ai" ≠ "" ∧ lower "ai" = "ai".
Proof.
  split; [vm_compute; reflexivity |].
  destruct (proj2 (proj2 (proj2 (map_hashtags_pairs Reference.march_tweet))) "2024-03" "ai")
    as (H1 & H2 & _); [vm_compute; left | done].
Defined.

(** The list of the most common holds every entry of the counter, or
    it is full and holds only entries that are not less common than
    those left out. *)
Lemma most_common_top (n : nat) (c : counter) (a : string * Z) :
  a ∈ c →
  a ∈ most_common (Some n) c
  ∨ (length (most_common (Some n) c) = n
     ∧ ∀ b, b ∈ most_common (Some n) c → snd a <= snd b).
Proof.
  intros Ha. cbn [most_common].
  assert (Hc : StronglySorted (λ _ _ : string * Z, True) c).
  { clear. induction c as [|x c IH]; [constructor |].
    constructor; [exact IH | by apply Forall_forall]. }
  pose proof (sorted_reverse_stable count_lt (λ _ _, True)
                count_lt_asym count_lt_negtrans c Hc) as Hs.
  rewrite <- (sorted_reverse_perm count_lt c) in Ha.
  set (s := sorted_reverse count_lt c) in *.
  rewrite <- (take_drop n s) in Ha, Hs.
  apply elem_of_app in Ha as [Ha | Ha]; [by left | right].
  split.
  - apply length_take_le. destruct (decide (n <= length s)%nat) as [H | H]; [done |].
    rewrite drop_ge in Ha by lia. by apply elem_of_nil in Ha.
  - intros b Hb.
    destruct (StronglySorted_app_1_elem_of _ _ _ b a Hs Hb Ha) as [H _].
    unfold count_lt in H. lia.
Qed.

Lemma most_common_length (n : nat) (c : counter) :
  length (most_common (Some n) c) = (n `min` length c)%nat.
Proof.
  cbn [most_common]. rewrite length_take.
  by rewrite (Permutation_length (sorted_reverse_perm count_lt c)).
Qed.

Lemma counter_add_update (k : string) (n : Z) (c : counter) :
  counter_add k n c = Dict.update 0 (λ m, m + n) k c.
Proof. induction c as [|[k' m] r IH]; [done |]. cbn. by rewrite IH. Qed.

Lemma Counter_fold (l : list string) : Counter l = fold_update 0 (λ m _, m + 1) id l.
Proof.
  unfold Counter, fold_update. generalize (@nil (string * Z)).
  induction l as [|x l IH]; intros acc; [done |]. cbn [foldl].
  by rewrite counter_add_update, IH.
Qed.

Lemma Counter_keys_list (l : list string) : (Counter l).*1 = first_seen l.
Proof.
  rewrite Counter_fold, (fold_update_keys 0 (λ m (_ : string), m + 1) id).
  by rewrite list_fmap_id.
Qed.

Lemma Counter_entry (l : list string) (h : string) :
  h ∈ l → (h, occurrences h l) ∈ Counter l.
Proof.
  intros H. rewrite <- Counter_get. apply counter_get_elem. by apply Counter_keys.
Qed.

(** The list of the most common of the counter of a list. *)
Lemma most_common_of_list (n : nat) (l : list string) :
  let top := most_common (Some n) (Counter l) in
  NoDup top.*1
  ∧ Forall (λ hc, fst hc ∈ l ∧ snd hc = occurrences (fst hc) l ∧ 1 <= snd hc) top
  ∧ length top = (n `min` length (first_seen l))%nat
  ∧ ∀ h, h ∈ l →
      h ∈ top.*1
      ∨ (length top = n ∧ ∀ hc, hc ∈ top → occurrences h l <= snd hc).
Proof.
  intros top. split; [| split; [| split]].
  - apply most_common_NoDup. rewrite Counter_keys_list. apply first_seen_NoDup.
  - apply Forall_forall. intros a Ha%(most_common_subseteq (Some n)).
    destruct (Counter_entries l a Ha) as [H1 H2]. split; [done |]. split; [done |].
    apply occurrences_pos in H1. lia.
  - unfold top. by rewrite most_common_length, <- Counter_keys_list, length_fmap.
  - intros h Hh. destruct (most_common_top n (Counter l) _ (Counter_entry l h Hh)) as [H | H].
    + left. by apply (list_elem_of_fmap_2 fst) in H.
    + by right.
Qed.

(** X19. The list that reduce_hashtags keeps for a month is not empty,
    has no repeated hashtag, counts of at least 1, and as many entries
    as there are distinct hashtags in the month, up to 10. A hashtag of
    the month that is missing from it occurs no more often than every
    hashtag that is listed, and then the list has 10 entries. *)
Theorem reduce_hashtags_keeps_the_top (mapped_data : list (string * string))
    (month : string) (top : list (string * Z)) :
  reduce_hashtags mapped_data !! month = Some top →
  top ≠ []
  ∧ NoDup top.*1
  ∧ Forall (λ hc, 1 <= snd hc) top
  ∧ length top
    = (10 `min` length (first_seen (hashtags_of month mapped_data)))%nat
  ∧ ∀ h, h ∈ hashtags_of month mapped_data →
      h ∈ top.*1
      ∨ (length top = 10%nat
         ∧ ∀ hc, hc ∈ top → occurrences h (hashtags_of month mapped_data) <= snd hc).
Proof.
  rewrite reduce_hashtags_lookup. case_bool_decide as Hm; [| done]. intros [= <-].
  set (tags := hashtags_of month mapped_data).
  destruct (most_common_of_list 10 tags) as (H1 & H2 & H3 & H4).
  assert (Hne : tags ≠ []) by (by intros H%hashtags_of_nil).
  split.
  { intros H. cbn [most_common] in H3. rewrite H in H3.
    destruct tags as [|t r] eqn:Et; [done |].
    assert (Hin : t ∈ first_seen (t :: r)) by (apply first_seen_elem; left).
    destruct (first_seen (t :: r)); [by apply elem_of_nil in Hin | simpl in H3; lia]. }
  split; [exact H1 |].
  split; [eapply Forall_impl; [exact H2 |]; by intros a (_ & _ & ?) |].
  split; [exact H3 | exact H4].
Qed.

Lemma reduce_hashtags_keeps_the_top_witness :
  reduce_hashtags [("2024-03", "ai"); ("2024-04", "x"); ("2024-03", "ml");
                   ("2024-03", "ai"); ("2024-03", "go")] !! "2024-03"
  = Some [("ai", 2); ("ml", 1); ("go", 1)]
  ∧ [("ai", 2); ("ml", 1); ("go", 1)] ≠ []
  ∧ NoDup [("ai", 2); ("ml", 1); ("go", 1)].*1.
Proof.
  split; [vm_compute; reflexivity |].
  destruct (reduce_hashtags_keeps_the_top
              [("2024-03", "ai"); ("2024-04", "x"); ("2024-03", "ml");
               ("2024-03", "ai"); ("2024-03", "go")] "2024-03"
              [("ai", 2); ("ml", 1); ("go", 1)]) as (H1 & H2 & _);
    [vm_compute; reflexivity | split; [exact H1 | exact H2]].
Defined.

Lemma counter_entry_total (record_type : string) (stdin : list string) (b : string * Z) :
  b ∈ foldl reduce_line [] stdin →
  ∃ m i, snd b = pair_total m i stdin
         ∧ render record_type b = line4 record_type m i (of_Z (pair_total m i stdin)).
Proof.
  intros Hb. destruct (counter_entries_shape stdin b Hb) as (m & i & Hk & Hm & _).
  exists m, i.
  assert (Hn : snd b = pair_total m i stdin).
  { rewrite <- (counter_total stdin m i Hm), <- Hk.
    symmetry. by apply NoDup_counter_get; [apply counter_NoDup |]. }
  split; [exact Hn |]. unfold render. by rewrite Hk, (split_once_key m i Hm), Hn.
Qed.

Lemma reducer_top (env : option string) (stdin : list string) (n : nat) :
  analysis_type env ∈ ["hashtags"; "sentiment"; "geography"] →
  limit_of (analysis_type env) = Some n →
  ∃ out, reducer_combined env stdin = inr out
    ∧ length out = (n `min` length (foldl reduce_line [] stdin))%nat
    ∧ ∀ line month item k,
        line ∈ stdin → well_formed line = Some (month, item, k) →
        line4 (result_type env) month item (of_Z (pair_total month item stdin)) ∈ out
        ∨ (length out = n
           ∧ ∀ printed, printed ∈ out →
               ∃ m i, printed = line4 (result_type env) m i (of_Z (pair_total m i stdin))
                      ∧ pair_total month item stdin <= pair_total m i stdin).
Proof.
  intros Hmode Hlimit. rewrite reducer_combined_render, bool_decide_true by done.
  rewrite Hlimit. eexists. split; [reflexivity |].
  rewrite length_fmap. split; [apply most_common_length |].
  intros line month item k Hin Hwf.
  pose proof (well_formed_tab_free _ _ _ _ Hwf) as Hm.
  assert (Ha : (key_of month item, pair_total month item stdin) ∈ foldl reduce_line [] stdin).
  { rewrite <- (counter_total stdin month item Hm). apply counter_get_elem, counter_keys.
    by exists line, month, item, k. }
  destruct (most_common_top n _ _ Ha) as [H | [H1 H2]].
  - left. apply list_elem_of_fmap. eexists. split; [| exact H].
    unfold render. cbn [fst snd]. by rewrite (split_once_key month item Hm).
  - right. split; [exact H1 |]. intros printed (b & -> & Hb)%list_elem_of_fmap.
    specialize (H2 b Hb). cbn [snd] in H2.
    apply (most_common_subseteq (Some n)) in Hb.
    destruct (counter_entry_total (result_type env) stdin b Hb) as (m & i & Hn & Hr).
    exists m, i. split; [exact Hr | lia].
Qed.

(** X20. In hashtags and geography mode the reducer prints at most 10,
    respectively 20, lines and never fails. For every well-formed input
    line, either the total of its month and item is printed, or the
    output is full and every printed line carries the total of its own
    pair, which is at least as large. *)
Theorem reducer_prints_the_top (env : option string) (stdin : list string) :
  analysis_type env = "hashtags" ∨ analysis_type env = "geography" →
  let n := if bool_decide (analysis_type env = "hashtags") then 10%nat else 20%nat in
  ∃ out, reducer_combined env stdin = inr out
    ∧ (length out <= n)%nat
    ∧ ∀ line month item k,
        line ∈ stdin → well_formed line = Some (month, item, k) →
        line4 (result_type env) month item (of_Z (pair_total month item stdin)) ∈ out
        ∨ (length out = n
           ∧ ∀ printed, printed ∈ out →
               ∃ m i, printed = line4 (result_type env) m i (of_Z (pair_total m i stdin))
                      ∧ pair_total month item stdin <= pair_total m i stdin).
Proof.
  intros Hmode n.
  destruct (reducer_top env stdin n) as (out & H1 & H2 & H3).
  - destruct Hmode as [-> | ->]; set_solver.
  - unfold limit_of, n. destruct Hmode as [-> | ->]; reflexivity.
  - exists out. split; [exact H1 |]. split; [lia | exact H3].
Qed.

Lemma reducer_prints_the_top_witness :
  ∃ out, reducer_combined None two_positive_lines = inr out ∧ (length out <= 10)%nat.
Proof.
  destruct (reducer_prints_the_top None two_positive_lines) as (out & H1 & H2 & _);
    [by left |].
  exists out. split; [exact H1 | exact H2].
Defined.

End TopLists.

(** ** Timestamps of the primary format *)

Section PrimaryTimestamps.
Import Data Str Datetime Reference Reference2.

Ltac digit_cases c H :=
  destruct c as [[] [] [] [] [] [] [] []]; try discriminate H; clear H.

Lemma bind_unfold {A B} (p : matcher A) (k : A → matcher B) (s : string) :
  (p ≫= k) s = flat_map (λ ar, k (fst ar) (snd ar)) (p s).
Proof. reflexivity. Qed.

Ltac field_cases c1 H1 c2 H2 :=
  digit_cases c1 H1; digit_cases c2 H2; cbv -[app]; cbn [app]; rewrite ?app_nil_r; reflexivity.

Lemma digit_step (c : ascii) (r : string) :
  isdigit c = true → digit (String c r) = [(digit_value c, r)].
Proof. intros H. digit_cases c H; reflexivity. Qed.

Lemma year_field {B} (K : Z → matcher B) (c1 c2 c3 c4 : ascii) (r : string) :
  isdigit c1 = true → isdigit c2 = true → isdigit c3 = true → isdigit c4 = true →
  (yr ← re_Y; _ ← lit "-"; K yr) (String c1 (String c2 (String c3 (String c4 (String "-" r)))))
  = K (1000 * digit_value c1 + 100 * digit_value c2 + 10 * digit_value c3 + digit_value c4) r.
Proof.
  intros H1 H2 H3 H4. unfold re_Y.
  rewrite !bind_unfold, (digit_step c1) by done. cbn [flat_map fst snd].
  rewrite !bind_unfold, (digit_step c2) by done. cbn [flat_map fst snd].
  rewrite !bind_unfold, (digit_step c3) by done. cbn [flat_map fst snd].
  rewrite !bind_unfold, (digit_step c4) by done. cbn [flat_map fst snd].
  unfold pure, mret, matcher_ret. cbn [flat_map fst snd app].
  rewrite ?app_nil_r, ?bind_unfold. cbn [lit].
  rewrite bool_decide_true by done. cbn [flat_map fst snd app].
  by rewrite ?app_nil_r.
Qed.

Lemma month_field {B} (K : Z → matcher B) (c1 c2 : ascii) (r : string) :
  isdigit c1 = true → isdigit c2 = true →
  (mo ← re_m; _ ← lit "-"; K mo) (String c1 (String c2 (String "-" r)))
  = if between 1 12 (10 * digit_value c1 + digit_value c2)
    then K (10 * digit_value c1 + digit_value c2) r else [].
Proof. intros H1 H2. field_cases c1 H1 c2 H2. Qed.

Lemma day_alts {B} (K : Z → matcher B) (c1 c2 : ascii) (t : string) :
  isdigit c1 = true → isdigit c2 = true →
  (re_d ≫= K) (String c1 (String c2 t))
  = (if between 1 31 (10 * digit_value c1 + digit_value c2)
     then K (10 * digit_value c1 + digit_value c2) t else [])
    ++ (if between 1 9 (digit_value c1)
        then K (digit_value c1) (String c2 t) else []).
Proof. intros H1 H2. field_cases c1 H1 c2 H2. Qed.

Lemma spaces1_digit (c : ascii) (t : string) :
  isdigit c = true → spaces1 (String c t) = [].
Proof. intros H. digit_cases c H; reflexivity. Qed.

Lemma spaces1_one (h : ascii) (r : string) :
  isdigit h = true → spaces1 (String " " (String h r)) = [((), String h r)].
Proof. intros H. digit_cases h H; reflexivity. Qed.

Lemma day_field {B} (K : Z → matcher B) (c1 c2 h : ascii) (r : string) :
  isdigit c1 = true → isdigit c2 = true → isdigit h = true →
  (dy ← re_d; _ ← spaces1; K dy) (String c1 (String c2 (String " " (String h r))))
  = if between 1 31 (10 * digit_value c1 + digit_value c2)
    then K (10 * digit_value c1 + digit_value c2) (String h r) else [].
Proof.
  intros H1 H2 H3. rewrite day_alts by done.
  rewrite !bind_unfold, spaces1_one, spaces1_digit by done.
  cbn [flat_map fst snd app]. rewrite app_nil_r.
  by repeat case_match; rewrite ?app_nil_r.
Qed.

Lemma hour_field {B} (K : Z → matcher B) (c1 c2 : ascii) (r : string) :
  isdigit c1 = true → isdigit c2 = true →
  (hr ← re_H; _ ← lit ":"; K hr) (String c1 (String c2 (String ":" r)))
  = if between 0 23 (10 * digit_value c1 + digit_value c2)
    then K (10 * digit_value c1 + digit_value c2) r else [].
Proof. intros H1 H2. field_cases c1 H1 c2 H2. Qed.

Lemma minute_field {B} (K : Z → matcher B) (c1 c2 : ascii) (r : string) :
  isdigit c1 = true → isdigit c2 = true →
  (mi ← re_M; _ ← lit ":"; K mi) (String c1 (String c2 (String ":" r)))
  = if between 0 59 (10 * digit_value c1 + digit_value c2)
    then K (10 * digit_value c1 + digit_value c2) r else [].
Proof. intros H1 H2. field_cases c1 H1 c2 H2. Qed.

Lemma second_field {B} (f : Z → B) (c1 c2 : ascii) :
  isdigit c1 = true → isdigit c2 = true →
  (sec ← re_S; pure (f sec)) (String c1 (String c2 ""))
  = (if between 0 61 (10 * digit_value c1 + digit_value c2)
     then [(f (10 * digit_value c1 + digit_value c2), "")] else [])
    ++ [(f (digit_value c1), String c2 "")].
Proof. intros H1 H2. field_cases c1 H1 c2 H2. Qed.

Lemma between_weaken (lo hi hi' n : Z) :
  hi' ≤ hi → between lo hi n = false → between lo hi' n = false.
Proof. unfold between. lia. Qed.

Lemma days_in_month_le (y m : Z) : days_in_month y m ≤ 31.
Proof. unfold days_in_month. repeat case_match; lia. Qed.

Lemma primary_chars (ts : string) :
  has_shape primary_shape ts = true →
  ∃ y1 y2 y3 y4 m1 m2 d1 d2 h1 h2 n1 n2 s1 s2,
    ts = String y1 (String y2 (String y3 (String y4 (String "-"
          (String m1 (String m2 (String "-" (String d1 (String d2 (String " "
          (String h1 (String h2 (String ":" (String n1 (String n2 (String ":"
          (String s1 (String s2 ""))))))))))))))))))
    ∧ Forall (λ c, isdigit c = true)
        [y1; y2; y3; y4; m1; m2; d1; d2; h1; h2; n1; n2; s1; s2].
Proof.
  intros H. unfold primary_shape in H.
  repeat (destruct ts as [|? ts]; [discriminate H|];
          cbn [has_shape] in H; apply andb_prop in H as [? H]).
  destruct ts; [|discriminate H].
  repeat match goal with
         | E : is_char _ _ = true |- _ => apply bool_decide_eq_true in E; subst
         end.
  do 14 eexists. split; [reflexivity|]. repeat constructor; assumption.
Qed.

Lemma strptime_primary (ts : string) :
  has_shape primary_shape ts = true → strptime_ymd_hms ts = primary_datetime ts.
Proof.
  intros H. destruct (primary_chars ts H)
    as (y1 & y2 & y3 & y4 & m1 & m2 & d1 & d2 & h1 & h2 & n1 & n2 & s1 & s2 & -> & HF).
  clear H. repeat (apply Forall_cons in HF as [? HF]). clear HF.
  change (primary_datetime _) with
    (make (1000 * digit_value y1 + 100 * digit_value y2 + 10 * digit_value y3 + digit_value y4)
          (10 * digit_value m1 + digit_value m2) (10 * digit_value d1 + digit_value d2)
          (10 * digit_value h1 + digit_value h2) (10 * digit_value n1 + digit_value n2)
          (10 * digit_value s1 + digit_value s2)).
  unfold strptime_ymd_hms, full_match.
  rewrite year_field by done. cbv beta.
  rewrite month_field by done. cbv beta.
  destruct (between 1 12 _) eqn:E1;
    [|by unfold make; rewrite E1, andb_false_r].
  rewrite day_field by done. cbv beta.
  destruct (between 1 31 _) eqn:E2;
    [|by unfold make;
         rewrite (between_weaken _ _ _ _ (days_in_month_le _ _) E2), andb_false_r].
  rewrite hour_field by done. cbv beta.
  destruct (between 0 23 _) eqn:E3;
    [|by unfold make; rewrite E3, andb_false_r].
  rewrite minute_field by done. cbv beta.
  destruct (between 0 59 _) eqn:E4;
    [|by unfold make; rewrite E4, andb_false_r].
  rewrite second_field by done.
  destruct (between 0 61 _) eqn:E5; [reflexivity|].
  cbn [app mbind option_bind].
  unfold make. rewrite (between_weaken 0 61 59 _ ltac:(lia) E5). by rewrite andb_false_r.
Qed.

Lemma digit_value_range (c : ascii) : isdigit c = true → 0 ≤ digit_value c ≤ 9.
Proof. intros H. digit_cases c H; by vm_compute. Qed.

Lemma of_Z_canonical (u : Decimal.uint) :
  Decimal.unorm u = u → of_Z (horner 0 u) = NilEmpty.string_of_uint u.
Proof.
  intros Hu. rewrite <- of_uint_horner. unfold of_Z.
  change (Z.of_uint u) with (Z.of_int (Decimal.Pos u)).
  rewrite DecimalZ.to_of. cbn [Decimal.norm]. rewrite Hu.
  cbn [NilZero.string_of_int]. unfold NilZero.string_of_uint.
  by destruct u.
Qed.

Lemma digit_uint (c : ascii) :
  isdigit c = true →
  ∃ f : Decimal.uint → Decimal.uint,
    (∀ u, NilEmpty.string_of_uint (f u) = String c (NilEmpty.string_of_uint u))
    ∧ (∀ acc u, horner acc (f u) = horner (10 * acc + digit_value c) u)
    ∧ (digit_value c ≠ 0 → ∀ u, Decimal.unorm (f u) = f u).
Proof.
  intros H.
  digit_cases c H;
    first [ by exists Decimal.D0 | by exists Decimal.D1 | by exists Decimal.D2
          | by exists Decimal.D3 | by exists Decimal.D4 | by exists Decimal.D5
          | by exists Decimal.D6 | by exists Decimal.D7 | by exists Decimal.D8
          | by exists Decimal.D9 ].
Qed.

Lemma year_text (y1 y2 y3 y4 : ascii) :
  isdigit y1 = true → isdigit y2 = true → isdigit y3 = true → isdigit y4 = true →
  digit_value y1 ≠ 0 →
  of_Z (1000 * digit_value y1 + 100 * digit_value y2 + 10 * digit_value y3 + digit_value y4)
  = String y1 (String y2 (String y3 (String y4 ""))).
Proof.
  intros H1 H2 H3 H4 Hne.
  destruct (digit_uint y1 H1) as (f1 & S1 & R1 & N1).
  destruct (digit_uint y2 H2) as (f2 & S2 & R2 & _).
  destruct (digit_uint y3 H3) as (f3 & S3 & R3 & _).
  destruct (digit_uint y4 H4) as (f4 & S4 & R4 & _).
  pose proof (of_Z_canonical (f1 (f2 (f3 (f4 Decimal.Nil)))) (N1 Hne _)) as H.
  rewrite R1, R2, R3, R4, S1, S2, S3, S4 in H. cbn [horner NilEmpty.string_of_uint] in H.
  rewrite <- H. f_equal. lia.
Qed.

Lemma of_Z_02_two (c1 c2 : ascii) :
  isdigit c1 = true → isdigit c2 = true →
  of_Z_02 (10 * digit_value c1 + digit_value c2) = String c1 (String c2 "").
Proof. intros H1 H2. digit_cases c1 H1; digit_cases c2 H2; vm_compute; reflexivity. Qed.

Lemma primary_keys (ts : string) (dt : datetime) :
  has_shape primary_shape ts = true →
  strptime_ymd_hms ts = Some dt →
  1000 ≤ year dt →
  year_month dt = Str.take 7 ts
  ∧ SentimentMapper.year_month_day dt = Str.take 10 ts.
Proof.
  intros H Hdt Hy. rewrite (strptime_primary ts H) in Hdt.
  destruct (primary_chars ts H)
    as (y1 & y2 & y3 & y4 & m1 & m2 & d1 & d2 & h1 & h2 & n1 & n2 & s1 & s2 & -> & HF).
  clear H. repeat (apply Forall_cons in HF as [? HF]). clear HF.
  change (primary_datetime _) with
    (make (1000 * digit_value y1 + 100 * digit_value y2 + 10 * digit_value y3 + digit_value y4)
          (10 * digit_value m1 + digit_value m2) (10 * digit_value d1 + digit_value d2)
          (10 * digit_value h1 + digit_value h2) (10 * digit_value n1 + digit_value n2)
          (10 * digit_value s1 + digit_value s2)) in Hdt.
  unfold make in Hdt. case_match; [| done]. injection Hdt as <-.
  cbn [year] in Hy.
  assert (digit_value y1 ≠ 0) as Hne.
  { pose proof (digit_value_range y1 ltac:(done)).
    pose proof (digit_value_range y2 ltac:(done)).
    pose proof (digit_value_range y3 ltac:(done)).
    pose proof (digit_value_range y4 ltac:(done)). lia. }
  unfold year_month, SentimentMapper.year_month_day. cbn [year month day].
  rewrite year_text, !of_Z_02_two by done. done.
Qed.

End PrimaryTimestamps.

(** X21. A timestamp of the shape dddd-dd-dd dd:dd:dd is parsed by
    strptime to the date and time that its digits write, and rejected
    when they are not those of a real day and instant. From the year
    1000 on, the month key of map_hashtags and of map_geographic_data is
    the first 7 characters of the timestamp (or unknown when it does not
    parse) and the day key of map_sentiment the first 10; for a smaller
    year it is not, since dt.year is written without leading zeros
    (0999-01-01 gives 999-01). *)
Theorem primary_timestamp_keys (tw : Data.tweet) (ts : string) :
  Data.get_str (Data.timestamp tw) = ts →
  Reference.has_shape Reference.primary_shape ts = true →
  Datetime.strptime_ymd_hms ts = Reference2.primary_datetime ts
  ∧ (1000 ≤ Reference2.four_at ts 0 →
       (∀ month h, (month, h) ∈ Hashtag.map_hashtags tw → month = Str.take 7 ts)
       ∧ (∀ day d, SentimentMapper.map_sentiment tw = Some (day, d) → day = Str.take 10 ts)
       ∧ (∀ p, Geo.map_geographic_data tw = Some p →
            Geo.p_month p = Str.take 7 ts
            ∨ (Reference2.primary_datetime ts = None ∧ Geo.p_month p = "unknown")))
  ∧ Datetime.strptime_ymd_hms "0999-01-01 00:00:00"
    = Some (Datetime.mk_datetime 999 1 1 0 0 0)
  ∧ Data.year_month (Datetime.mk_datetime 999 1 1 0 0 0) = "999-01".
Proof.
  intros Hts H. split; [by apply strptime_primary |].
  split; [| by vm_compute].
  intros Hy.
  assert (∀ dt, Datetime.strptime_ymd_hms ts = Some dt →
            Data.year_month dt = Str.take 7 ts
            ∧ SentimentMapper.year_month_day dt = Str.take 10 ts) as Hk.
  { intros dt Hdt. apply primary_keys; [done | done |].
    rewrite (strptime_primary ts H) in Hdt. unfold Reference2.primary_datetime, Datetime.make in Hdt.
    case_match; [| done]. by injection Hdt as <-. }
  split; [| split].
  - intros month h (dt & raw & Hdt & _ & [= -> _] & _)%map_hashtags_some.
    rewrite Hts in Hdt. by apply Hk.
  - intros day d (dt & Hdt & -> & _)%map_sentiment_some.
    rewrite Hts in Hdt. by apply Hk.
  - intros p (_ & _ & Hm & _)%map_geographic_data_some. rewrite Hts in Hm.
    rewrite <- (strptime_primary ts H).
    destruct (Datetime.strptime_ymd_hms ts) as [dt|] eqn:E; [left | by right].
    rewrite Hm. by apply Hk.
Qed.

Lemma primary_timestamp_keys_witness :
  Datetime.strptime_ymd_hms "2024-03-15 10:30:00"
  = Some (Datetime.mk_datetime 2024 3 15 10 30 0)
  ∧ ∀ month h,
      (month, h) ∈ Hashtag.map_hashtags
        (Data.mk_tweet (Some "2024-03-15 10:30:00") None None None None
                       (Some ["#IA"; "Python"]) None) →
      month = "2024-03".
Proof.
  pose proof (primary_timestamp_keys
    (Data.mk_tweet (Some "2024-03-15 10:30:00") None None None None
                   (Some ["#IA"; "Python"]) None)
    "2024-03-15 10:30:00" eq_refl eq_refl) as (H1 & H2 & _).
  split; [exact H1 |]. exact (proj1 (H2 ltac:(by vm_compute))).
Defined.

(** ** The totals of the streaming reducer *)

Section StreamingTotals.
Import Data Str Streaming Reference Reference2.

(** C9, as stated, fails on lines whose fields change with
    [line.strip()]: a line that starts with a tab has five fields, the
    fourth of which is no integer, and is counted, with the fields
    after the tab; a line whose first field is a blank has four fields
    and an integer count, and is skipped, since [strip] leaves three
    fields. *)
Lemma reducer_strips_before_splitting :
  split tab leading_tab_line
  = [""; "SENTIMENT"; "2024-01"; "positive"; "1" +:+ NL]
  ∧ int "positive" = inl ValueError
  ∧ reducer_combined (Some "sentiment") [leading_tab_line]
    = inr [line4 "SENTIMENT_RESULT" "2024-01" "positive" "1"]
  ∧ split tab blank_type_line = [" "; "2024-01"; "positive"; "1" +:+ NL]
  ∧ int ("1" +:+ NL) = inr 1
  ∧ reducer_combined (Some "sentiment") [blank_type_line] = inr [].
Proof. repeat split; vm_compute; reflexivity. Qed.

(** C9, amended. The reducer runs to its end on every input. A line is
    well-formed when, after [line.strip()], it has at least four
    tab-separated fields and the fourth is an integer; every other
    line, in particular one with fewer than four fields or whose
    fourth field after [strip] is no integer, contributes nothing: the
    run is the one without that line. Each line printed carries a pair
    of some well-formed input line and, as its count, the sum of the
    count fields of the well-formed lines with that pair. In sentiment
    mode every such pair is printed; in hashtags and geography mode
    the output has at most 10, respectively 20, lines, and a pair that
    is not printed has a sum that is not above that of any printed
    pair. The two "positive" lines of the example give the line with
    count 2. *)
Theorem reducer_sums_well_formed_lines :
  (∀ env stdin, ∃ out, reducer_combined env stdin = inr out
     ∧ ∀ printed, printed ∈ out →
         ∃ month item line n,
           printed = line4 (result_type env) month item
                           (Str.of_Z (pair_total month item stdin))
           ∧ line ∈ stdin ∧ well_formed line = Some (month, item, n))
  ∧ (∀ env stdin line month item n,
       analysis_type env = "sentiment" → line ∈ stdin →
       well_formed line = Some (month, item, n) →
       ∃ out, reducer_combined env stdin = inr out
         ∧ line4 "SENTIMENT_RESULT" month item
                 (Str.of_Z (pair_total month item stdin)) ∈ out)
  ∧ (∀ env stdin limit,
       (analysis_type env = "hashtags" ∧ limit = 10%nat)
       ∨ (analysis_type env = "geography" ∧ limit = 20%nat) →
       ∃ out, reducer_combined env stdin = inr out
         ∧ (length out <= limit)%nat
         ∧ ∀ line month item n,
             line ∈ stdin → well_formed line = Some (month, item, n) →
             line4 (result_type env) month item
                   (Str.of_Z (pair_total month item stdin)) ∈ out
             ∨ (length out = limit
                ∧ ∀ printed, printed ∈ out →
                    ∃ m i, printed = line4 (result_type env) m i
                                           (Str.of_Z (pair_total m i stdin))
                           ∧ pair_total month item stdin <= pair_total m i stdin))
  ∧ (∀ line, well_formed line
             = match split tab (strip line) with
               | _ :: month :: item :: field :: _ =>
                   match int field with inr n => Some (month, item, n) | inl _ => None end
               | _ => None
               end)
  ∧ (∀ line, (length (Str.split Str.tab line) < 4)%nat → well_formed line = None)
  ∧ (∀ line field e, fields_of line !! 3%nat = Some field → int field = inl e →
                     well_formed line = None)
  ∧ (∀ env before line after, well_formed line = None →
       reducer_combined env (before ++ line :: after)
       = reducer_combined env (before ++ after))
  ∧ reducer_combined (Some "sentiment") two_positive_lines
    = inr [line4 "SENTIMENT_RESULT" "2024-01" "positive" "2"].
Proof.
  split; [exact reducer_prints_totals |].
  split; [exact reducer_sentiment_complete |].
  split.
  { intros env stdin limit Hmode.
    destruct (reducer_top env stdin limit) as (out & Hout & Hlen & Htop).
    - destruct Hmode as [[-> _] | [-> _]]; [left | right; right; left].
    - unfold limit_of. destruct Hmode as [[-> ->] | [-> ->]]; reflexivity.
    - exists out. split; [exact Hout |]. split; [lia | exact Htop]. }
  split; [reflexivity |].
  split; [exact well_formed_short |].
  split; [exact well_formed_not_int |].
  split; [| vm_compute; reflexivity].
  intros env before line after. apply reducer_skips_malformed.
Qed.

Lemma reducer_sums_well_formed_lines_witness :
  ∃ out, reducer_combined (Some "hashtags")
           [line4 "HASHTAG" "2024-01" "#ai" "2" +:+ NL;
            "malformed" +:+ NL;
            line4 "HASHTAG" "2024-01" "#ai" "3" +:+ NL] = inr out
    ∧ (length out <= 10)%nat
    ∧ ∀ line month item n,
        line ∈ [line4 "HASHTAG" "2024-01" "#ai" "2" +:+ NL;
                "malformed" +:+ NL;
                line4 "HASHTAG" "2024-01" "#ai" "3" +:+ NL] →
        well_formed line = Some (month, item, n) →
        line4 (result_type (Some "hashtags")) month item
              (Str.of_Z (pair_total month item
                 [line4 "HASHTAG" "2024-01" "#ai" "2" +:+ NL;
                  "malformed" +:+ NL;
                  line4 "HASHTAG" "2024-01" "#ai" "3" +:+ NL])) ∈ out
        ∨ (length out = 10%nat
           ∧ ∀ printed, printed ∈ out →
               ∃ m i, printed = line4 (result_type (Some "hashtags")) m i
                                      (Str.of_Z (pair_total m i
                                         [line4 "HASHTAG" "2024-01" "#ai" "2" +:+ NL;
                                          "malformed" +:+ NL;
                                          line4 "HASHTAG" "2024-01" "#ai" "3" +:+ NL]))
                      ∧ pair_total month item
                          [line4 "HASHTAG" "2024-01" "#ai" "2" +:+ NL;
                           "malformed" +:+ NL;
                           line4 "HASHTAG" "2024-01" "#ai" "3" +:+ NL]
                        <= pair_total m i
                             [line4 "HASHTAG" "2024-01" "#ai" "2" +:+ NL;
                              "malformed" +:+ NL;
                              line4 "HASHTAG" "2024-01" "#ai" "3" +:+ NL]).
Proof.
  apply (proj1 (proj2 (proj2 reducer_sums_well_formed_lines)) (Some "hashtags") _ 10%nat).
  left. split; reflexivity.
Defined.

End StreamingTotals.
